(** * LIFT training loop: [src/LIFT/training/train.py]

    A shallow embedding of [AverageMeter], [unwrap_model], [backward],
    [during_training_data_preprocess] and [train_one_epoch].

    - Python integers are [Z]; [//] and [%] are [Z.div] and [Z.modulo]
      (both round towards minus infinity, the remainder has the sign of the
      divisor), with the [ZeroDivisionError] written out.
    - Python floats (times, loss values, the logit scale) are idealised as
      real numbers [R]; [math.log] is [ln].
    - Python dictionaries keep insertion order, and the loop relies on it
      ([sum(losses.values())], [accum_features.items()]), so they are
      association lists with Python's update-in-place-or-append semantics.
    - A tensor is the list of its slices along dimension 0, each slice
      carrying whether gradient flows into it ([torch.no_grad] yields dead
      slices, a normal forward pass live ones); [torch.cat] is list
      concatenation.
    - The collaborators (model, teacher, loss, optimizer, clock, tokenizer)
      are parameters; model, teacher, optimizer and clock are indexed by the
      number of calls made before, so that they may answer differently each
      time. Their calls are recorded as events, and the loop is written in
      a state / exception / event-log monad; the exceptions are those that
      the code of the loop itself raises, not those of the collaborators.
    - [torch.stack] fails here on an empty list only: the tensors that the
      transforms return are taken to have equal shapes.
    - The text of the log message is not modelled: the log events carry the
      meters and counters only.  Throughput, learning rate and the logit
      scale (lines 240 and 247-248) are left out of the message and of the
      record handed to TensorBoard and wandb (its entries
      [samples_per_second], [samples_per_second_per_gpu], [lr] and
      [scale]), together with the failures of their own arithmetic: the
      division by [batch_time_m.val] does not occur here.  What is proved
      of a log emission is proved of one that returns, or of what comes
      before these lines. *)

From Stdlib Require Import ZArith List String Ascii Bool Reals Lra Lia.
From stdpp Require Import base gmap strings pretty.
Import ListNotations.
Local Open Scope Z_scope.

(** ** Strings *)

(** Python's [sub in s] on strings. *)
Fixpoint str_contains (sub s : string) : bool :=
  match s with
  | EmptyString => String.prefix sub s
  | String _ s' => String.prefix sub s || str_contains sub s'
  end.

(** [os.path.join(a, b)] on POSIX for a relative [b]. *)
Definition ends_with_slash (a : string) : bool :=
  match String.get (String.length a - 1) a with
  | Some c => Ascii.eqb c "/"%char
  | None => false
  end.

Definition os_path_join (a b : string) : string :=
  if String.eqb a "" then b
  else if ends_with_slash a then a +:+ b
  else a +:+ "/" +:+ b.

(** ** Ordered dictionaries *)

Module Dict.
Section Dict.
Context {V : Type}.

Definition t := list (string * V).

Fixpoint get (k : string) (d : t) : option V :=
match d with
| [] => None
| (k', v) :: d' => if String.eqb k k' then Some v else get k d'
end.

Definition mem (k : string) (d : t) : bool :=
match get k d with Some _ => true | None => false end.

(** [d[k] = v]: overwrite in place, or append a new key at the end. *)
Fixpoint setitem (k : string) (v : V) (d : t) : t :=
match d with
| [] => [(k, v)]
| (k', v') :: d' =>
    if String.eqb k k' then (k, v) :: d' else (k', v') :: setitem k v d'
end.

Fixpoint remove (k : string) (d : t) : t :=
match d with
| [] => []
| (k', v) :: d' => if String.eqb k k' then d' else (k', v) :: remove k d'
end.

(** [d.pop(k, None)] *)
Definition pop (k : string) (d : t) : option V * t := (get k d, remove k d).

Definition keys (d : t) : list string := map fst d.
Definition values (d : t) : list V := map snd d.

(** [d.update(other)] *)
Definition update (d other : t) : t :=
fold_left (fun acc kv => setitem (fst kv) (snd kv) acc) other d.
End Dict.
Arguments t : clear implicits.
End Dict.

(** ** [class AverageMeter] *)

Inductive exn :=
| KeyError (key : string)
| IndexError
| ZeroDivisionError
| UnboundLocalError (name : string)
| RuntimeError (msg : string)
| AttributeError (msg : string)
| AssertionError (msg : string)
| ValueError (msg : string).

Module AverageMeter.
Record t := mk { val : R; avg : R; sum : R; count : Z }.

Definition reset : t := {| val := 0; avg := 0; sum := 0; count := 0 |}.

(** [update(val, n)]: [self.sum / self.count] raises when the count is 0. *)
Definition update (m : t) (v : R) (n : Z) : exn + t :=
  let s := (sum m + v * IZR n)%R in
  let c := count m + n in
  if c =? 0 then inl ZeroDivisionError
  else inr {| val := v; avg := (s / IZR c)%R; sum := s; count := c |}.
End AverageMeter.

(** ** The model object and [unwrap_model] *)

(** A network exposes [logit_scale] or not; a wrapper (data-parallel
    container) exposes the wrapped object as [.module] and nothing else. *)
Inductive model_obj :=
| Net (logit_scale : option R)
| Wrapped (module : model_obj).

Definition unwrap_model (m : model_obj) : model_obj :=
  match m with
  | Wrapped inner => inner
  | Net _ => m
  end.

(** [hasattr(m, 'logit_scale')] *)
Definition hasattr_logit_scale (m : model_obj) : bool :=
  match m with
  | Net (Some _) => true
  | _ => false
  end.

Definition getattr_logit_scale (m : model_obj) : option R :=
  match m with
  | Net o => o
  | Wrapped _ => None
  end.

(** [t.clamp_(lo, hi)] on a scalar: [min(max(t, lo), hi)]. *)
Definition clamp_ (lo hi x : R) : R := Rmin (Rmax x lo) hi.

Definition math_log (x : R) : R := ln x.

(** [unwrap_model(model).logit_scale.clamp_(0, math.log(100))], in place:
    the object reached through [unwrap_model] is the one that changes. *)
Definition clamp_net (m : model_obj) : model_obj :=
  match m with
  | Net (Some v) => Net (Some (clamp_ 0 (math_log 100) v))
  | _ => m
  end.

Definition clamp_logit_scale (m : model_obj) : model_obj :=
  match m with
  | Wrapped inner => Wrapped (clamp_net inner)
  | Net _ => clamp_net m
  end.

(** The optimizer rewrites every parameter, wherever the network sits. *)
Fixpoint map_logit_scale (f : R -> R) (m : model_obj) : model_obj :=
  match m with
  | Net o => Net (option_map f o)
  | Wrapped inner => Wrapped (map_logit_scale f inner)
  end.

(** ** Configuration and data source *)

(** The fields of [args] that [train_one_epoch] reads, and [is_master(args)]. *)
Record Args := {
  distill : bool;
  accum_freq : Z;
  skip_scheduler : bool;
  text_embed_dim : option Z;
  model : string;
  horovod : bool;
  grad_clip_norm : option R;
  log_every_n_steps : Z;
  world_size : Z;
  wandb : bool;
  save_logs : bool;
  save_every_n_steps : Z;
  name : string;
  checkpoint_path : string;
  delete_prev_step_ckpt : bool;
  is_master : bool
}.

(** What a checkpoint dictionary holds. *)
Record checkpoint := {
  ck_step : Z;
  ck_epoch : Z;
  ck_name : string;
  ck_state_dict : model_obj;
  ck_scaler : bool
}.

Section Training.
Context {RawImage RawText Elt : Type}.

(** [data['train'].dataloader] *)
Record DataLoader := {
  num_batches : Z;
  num_samples : Z;
  batches : list (list RawImage * list RawText)
}.

(** *** Tensors *)

Definition tensor := list (Elt * bool).

Definition tag (grad_enabled : bool) (rows : list Elt) : tensor :=
  map (fun x => (x, grad_enabled)) rows.

Definition torch_cat (ts : list tensor) : tensor := concat ts.

Definition requires_grad (t : tensor) : bool := existsb snd t.

(** [sum(losses.values())] starts from the integer 0 and adds the values
    from left to right; on an empty dictionary it is that integer. *)
Inductive total :=
| IntZero
| Scalar (v : R).

Definition py_sum (l : list R) : total :=
  match l with
  | [] => IntZero
  | _ => Scalar (fold_left Rplus l 0%R)
  end.

Definition total_value (t : total) : R :=
  match t with
  | IntZero => 0%R
  | Scalar v => v
  end.

(** *** Events: the calls made on the collaborators *)

Inductive event :=
| ModelTrain
| DistModelEval
| SetEpoch (epoch : Z)
| Scheduler (step : Z)
| ZeroGrad
| Forward (grad_enabled : bool) (images texts : list Elt)
| TeacherForward (images texts : list Elt)
| Loss (kwargs : Dict.t tensor)
| Backward (scaled : bool) (total_loss : R)
| ClipGradNorm (max_norm : R)
| Synchronize
| Unscale
| ScalerStep (skip_synchronize : bool)
| ScalerUpdate
| OptimizerStep
| ClampLogitScale (grad_enabled : bool)
| LoggingInfo (epoch num_samples samples_per_epoch : Z) (percent_complete : R)
    (data_time batch_time : R) (loss_log : list (string * R * R))
| TbAddScalar (tag_name : string) (value : R) (step : Z)
| WandbLog (log_data : Dict.t R) (step : Z)
| TorchSave (ckpt : checkpoint) (path : string)
| OsRemove (path : string).

(** *** State *)

Record accum_state := {
  accum_images : list (list Elt);
  accum_texts : list (list Elt);
  accum_features : Dict.t (list tensor)
}.

Definition accum_empty : accum_state :=
  {| accum_images := []; accum_texts := []; accum_features := [] |}.

(** The first three fields outlive the call; the others are the local
    variables of [train_one_epoch] that live across loop iterations
    ([accum = None]: the three accumulation names are unbound). *)
Record state := {
  net : model_obj;
  files : gset string;
  calls : nat;
  accum : option accum_state;
  losses_m : Dict.t AverageMeter.t;
  batch_time_m : AverageMeter.t;
  data_time_m : AverageMeter.t;
  end_ : R
}.

Definition set_net (f : model_obj -> model_obj) (s : state) : state :=
  {| net := f (net s); files := files s; calls := calls s; accum := accum s;
     losses_m := losses_m s; batch_time_m := batch_time_m s;
     data_time_m := data_time_m s; end_ := end_ s |}.

Definition set_files (f : gset string -> gset string) (s : state) : state :=
  {| net := net s; files := f (files s); calls := calls s; accum := accum s;
     losses_m := losses_m s; batch_time_m := batch_time_m s;
     data_time_m := data_time_m s; end_ := end_ s |}.

Definition set_calls (n : nat) (s : state) : state :=
  {| net := net s; files := files s; calls := n; accum := accum s;
     losses_m := losses_m s; batch_time_m := batch_time_m s;
     data_time_m := data_time_m s; end_ := end_ s |}.

Definition set_accum (a : option accum_state) (s : state) : state :=
  {| net := net s; files := files s; calls := calls s; accum := a;
     losses_m := losses_m s; batch_time_m := batch_time_m s;
     data_time_m := data_time_m s; end_ := end_ s |}.

Definition set_losses_m (d : Dict.t AverageMeter.t) (s : state) : state :=
  {| net := net s; files := files s; calls := calls s; accum := accum s;
     losses_m := d; batch_time_m := batch_time_m s;
     data_time_m := data_time_m s; end_ := end_ s |}.

Definition set_batch_time_m (m : AverageMeter.t) (s : state) : state :=
  {| net := net s; files := files s; calls := calls s; accum := accum s;
     losses_m := losses_m s; batch_time_m := m;
     data_time_m := data_time_m s; end_ := end_ s |}.

Definition set_data_time_m (m : AverageMeter.t) (s : state) : state :=
  {| net := net s; files := files s; calls := calls s; accum := accum s;
     losses_m := losses_m s; batch_time_m := batch_time_m s;
     data_time_m := m; end_ := end_ s |}.

Definition set_end (t : R) (s : state) : state :=
  {| net := net s; files := files s; calls := calls s; accum := accum s;
     losses_m := losses_m s; batch_time_m := batch_time_m s;
     data_time_m := data_time_m s; end_ := t |}.

(** *** The monad: state, exceptions, and the events of the run *)

Definition M (A : Type) : Type := state -> (exn + A) * state * list event.

Definition ret {A} (a : A) : M A := fun s => (inr a, s, []).

Definition bind {A B} (m : M A) (k : A -> M B) : M B :=
  fun s =>
    match m s with
    | (inl e, s1, t1) => (inl e, s1, t1)
    | (inr a, s1, t1) =>
        match k a s1 with
        | (r, s2, t2) => (r, s2, t1 ++ t2)
        end
    end.

Definition raise {A} (e : exn) : M A := fun s => (inl e, s, []).
Definition emit (ev : event) : M unit := fun s => (inr tt, s, [ev]).
Definition get_state : M state := fun s => (inr s, s, []).
Definition modify (f : state -> state) : M unit := fun s => (inr tt, f s, []).

Definition lift {A} (r : exn + A) : M A :=
  match r with
  | inl e => raise e
  | inr a => ret a
  end.

Definition when (b : bool) (m : M unit) : M unit := if b then m else ret tt.

Notation "x <- c1 ;; c2" := (bind c1 (fun x => c2))
  (at level 100, c1 at next level, right associativity).
Notation "c1 ;; c2" := (bind c1 (fun _ => c2))
  (at level 100, right associativity).

Fixpoint for_each {A} (l : list A) (body : A -> M unit) : M unit :=
  match l with
  | [] => ret tt
  | x :: l' => body x ;; for_each l' body
  end.

(** [for i, x in enumerate(l)], counting from [i]. *)
Fixpoint for_enumerate {A} (i : Z) (l : list A) (body : Z -> A -> M unit) : M unit :=
  match l with
  | [] => ret tt
  | x :: l' => body i x ;; for_enumerate (i + 1) l' body
  end.

(** *** Collaborators *)

Variable preprocess : RawImage -> Elt.
Variable tokenizer : list RawText -> list Elt.
Variable from_numpy : RawText -> Elt.
(** Model, teacher, optimizer and clock may answer differently at each
    call: they are indexed by the number of calls made so far. *)
Variable model_fn : nat -> list Elt -> list Elt -> Dict.t (list Elt).
Variable dist_model_fn : nat -> list Elt -> list Elt -> Dict.t (list Elt).
Variable loss_fn : Dict.t tensor -> Dict.t R.
Variable optimizer_fn : nat -> R -> R.
Variable time_fn : nat -> R.

Variable args : Args.
(** [scaler is not None], [tb_writer is not None], [wandb is not None] *)
Variable scaler : bool.
Variable tb_writer : bool.
Variable wandb_module : bool.
Variable dataloader : DataLoader.

Definition tick : M nat :=
  fun s => (inr (calls s), set_calls (S (calls s)) s, []).

Definition time_time : M R := n <- tick ;; ret (time_fn n).

(** [model(images, texts)] under the current gradient mode. *)
Definition forward (grad_enabled : bool) (images texts : list Elt) : M (Dict.t tensor) :=
  n <- tick ;;
  emit (Forward grad_enabled images texts) ;;
  ret (map (fun kv => (fst kv, tag grad_enabled (snd kv))) (model_fn n images texts)).

(** [with torch.no_grad(): dist_model(images, texts)] *)
Definition teacher_forward (images texts : list Elt) : M (Dict.t tensor) :=
  n <- tick ;;
  emit (TeacherForward images texts) ;;
  ret (map (fun kv => (fst kv, tag false (snd kv))) (dist_model_fn n images texts)).

(** [optimizer.step()] and [scaler.step(optimizer)] change the parameters. *)
Definition apply_optimizer : M unit :=
  n <- tick ;;
  modify (set_net (map_logit_scale (optimizer_fn n))).

(** *** [backward] *)

(** With no loss component the total is the integer 0, which is no
    tensor: [scaler.scale] refuses it, and it has no [backward] method. *)
Definition backward_error : exn :=
  if scaler
  then ValueError "outputs must be a Tensor or an iterable of Tensors"
  else AttributeError "'int' object has no attribute 'backward'".

Definition backward (total_loss : total) : M unit :=
  match total_loss with
  | IntZero => raise backward_error
  | Scalar v => emit (Backward scaler v)
  end.

(** *** [during_training_data_preprocess] *)

(** [torch.stack] refuses an empty list. *)
Definition torch_stack (l : list Elt) : M (list Elt) :=
  match l with
  | [] => raise (RuntimeError "stack expects a non-empty TensorList")
  | _ => ret l
  end.

Definition truthy (o : option Z) : bool :=
  match o with
  | Some n => negb (n =? 0)
  | None => false
  end.

Definition during_training_data_preprocess
    (tuple_images : list RawImage) (tuple_texts : list RawText)
    : M (list Elt * list Elt) :=
  images <- torch_stack (map preprocess tuple_images) ;;
  texts <- (if negb (truthy (text_embed_dim args))
            then ret (tokenizer tuple_texts)
            else torch_stack (map from_numpy tuple_texts)) ;;
  ret (images, texts).

(** *** Loss and total loss (lines 136-139 and 189-193) *)

Definition compute_loss (kwargs : Dict.t tensor) : M (total * Dict.t R) :=
  emit (Loss kwargs) ;;
  let losses := loss_fn kwargs in
  let total_loss := py_sum (Dict.values losses) in
  ret (total_loss, Dict.setitem "loss" (total_value total_loss) losses).

(** Loss, total, the ["loss"] entry, then [backward(total_loss, scaler)]:
    the same four statements on both paths. *)
Definition loss_and_backward (kwargs : Dict.t tensor) : M (Dict.t R) :=
  tl <- compute_loss kwargs ;;
  backward (fst tl) ;;
  ret (snd tl).

(** *** The non-accumulating path (lines 129-145) *)

Definition prefix_dist (d : Dict.t tensor) : Dict.t tensor :=
  map (fun kv => ("dist_" +:+ fst kv, snd kv)) d.

Definition step_no_accum (images texts : list Elt) : M (Dict.t R) :=
  model_out <- forward true images texts ;;
  model_out <- (if distill args
                then dist_model_out <- teacher_forward images texts ;;
                     ret (Dict.update model_out (prefix_dist dist_model_out))
                else ret model_out) ;;
  losses <- loss_and_backward model_out ;;
  when (str_contains "LIFT" (model args)) (emit (ClipGradNorm 1)) ;;
  ret losses.

(** *** The accumulating path: caching (lines 148-162) *)

Definition cache_features (model_out : Dict.t tensor)
    (features : Dict.t (list tensor)) : Dict.t (list tensor) :=
  fold_left
    (fun acc kv =>
       match Dict.get (fst kv) acc with
       | Some l => Dict.setitem (fst kv) (l ++ [snd kv]) acc
       | None => Dict.setitem (fst kv) [snd kv] acc
       end)
    model_out features.

(** Reading the accumulation buffers; [name] is the variable read first. *)
Definition get_accum (name : string) : M accum_state :=
  s <- get_state ;;
  match accum s with
  | None => raise (UnboundLocalError name)
  | Some a => ret a
  end.

(** Lines 150-162. The loop over the output reads [accum_features]; with
    an empty output the first buffer read is [accum_images]. *)
Definition cache_batch (images texts : list Elt) : M unit :=
  model_out <- forward false images texts ;;
  let model_out := snd (Dict.pop "logit_bias" (snd (Dict.pop "logit_scale" model_out))) in
  a <- get_accum (match model_out with
                  | [] => "accum_images"
                  | _ :: _ => "accum_features"
                  end) ;;
  modify (set_accum (Some
    {| accum_images := accum_images a ++ [images];
       accum_texts := accum_texts a ++ [texts];
       accum_features := cache_features model_out (accum_features a) |})).

(** *** The accumulating path: recomputation (lines 172-195) *)

(** Lines 184-187, over the items of [accum_features]. *)
Fixpoint build_inputs (items : Dict.t (list tensor)) (model_out : Dict.t tensor)
    (j : nat) (inputs : Dict.t tensor) : exn + Dict.t tensor :=
  match items with
  | [] => inr inputs
  | (key, accumulated) :: rest =>
      match Dict.get key model_out with
      | None => inl (KeyError key)
      | Some fresh =>
          build_inputs rest model_out j
            (Dict.setitem key
               (torch_cat (firstn j accumulated ++ [fresh] ++ skipn (S j) accumulated))
               inputs)
      end
  end.

Definition list_index {A} (l : list A) (j : nat) : M A :=
  match nth_error l j with
  | Some x => ret x
  | None => raise IndexError
  end.

(** Lines 179-182: [logit_scale] is popped without a default,
    [logit_bias] only when present. *)
Definition split_no_accum (model_out : Dict.t tensor)
    : exn + (Dict.t tensor * Dict.t tensor) :=
  match Dict.pop "logit_scale" model_out with
  | (None, _) => inl (KeyError "logit_scale")
  | (Some logit_scale, model_out) =>
      let inputs_no_accum := Dict.setitem "logit_scale" logit_scale [] in
      match Dict.pop "logit_bias" model_out with
      | (Some logit_bias, model_out') =>
          inr (Dict.setitem "logit_bias" logit_bias inputs_no_accum, model_out')
      | (None, _) => inr (inputs_no_accum, model_out)
      end
  end.

(** One pass of the [for j in range(args.accum_freq)] body. *)
Definition recompute (a : accum_state) (j : nat) : M (list Elt * Dict.t R) :=
  images <- list_index (accum_images a) j ;;
  texts <- list_index (accum_texts a) j ;;
  model_out <- forward true images texts ;;
  sp <- lift (split_no_accum model_out) ;;
  inputs <- lift (build_inputs (accum_features a) (snd sp) j []) ;;
  losses <- loss_and_backward (inputs ++ fst sp) ;;
  ret (images, losses).

(** The loop over [j]; [cur] is what [images] and [losses] are bound to
    ([losses] is unbound before the first pass). *)
Fixpoint recompute_all (a : accum_state) (js : list nat)
    (cur : list Elt * option (Dict.t R)) : M (list Elt * option (Dict.t R)) :=
  match js with
  | [] => ret cur
  | j :: js' =>
      r <- recompute a j ;;
      recompute_all a js' (fst r, Some (snd r))
  end.

Definition py_range (n : Z) : list nat := seq 0 (Z.to_nat n).

(** Lines 147-195; [None] is the [continue] of line 167. *)
Definition step_accum (i : Z) (images texts : list Elt)
    : M (option (list Elt * option (Dict.t R))) :=
  cache_batch images texts ;;
  if (i + 1) mod accum_freq args >? 0 then ret None
  else
    emit ZeroGrad ;;
    a <- get_accum "accum_images" ;;
    r <- recompute_all a (py_range (accum_freq args)) (images, None) ;;
    ret (Some r).

(** *** Gradient finalization and optimizer step (lines 197-214) *)

Definition clip_configured : M unit :=
  match grad_clip_norm args with
  | Some n => emit (ClipGradNorm n)
  | None => ret tt
  end.

Definition gradient_finalization : M unit :=
  if scaler then
    (if horovod args then
       emit Synchronize ;;
       emit Unscale ;;
       clip_configured ;;
       emit (ScalerStep true) ;;
       apply_optimizer
     else
       match grad_clip_norm args with
       | Some n => emit Unscale ;; emit (ClipGradNorm n)
       | None => ret tt
       end ;;
       emit (ScalerStep false) ;;
       apply_optimizer) ;;
    emit ScalerUpdate
  else
    clip_configured ;;
    emit OptimizerStep ;;
    apply_optimizer.

(** *** Clamping the logit scale (lines 220-223) *)

(** The clamp runs inside [torch.no_grad()]: the event records that
    gradient tracking is off. *)

Definition clamp_step : M unit :=
  s <- get_state ;;
  if hasattr_logit_scale (unwrap_model (net s)) then
    emit (ClampLogitScale false) ;;
    modify (set_net clamp_logit_scale)
  else ret tt.

(** *** Progress logger (lines 227-284) *)

Definition meter_update (m : AverageMeter.t) (v : R) (n : Z) : M AverageMeter.t :=
  lift (AverageMeter.update m v n).

(** Lines 235-238. *)
Definition update_losses_m (losses : Dict.t R) (batch_size : Z) : M unit :=
  for_each losses (fun kv =>
    s <- get_state ;;
    let m := match Dict.get (fst kv) (losses_m s) with
             | Some m => m
             | None => AverageMeter.reset
             end in
    m' <- meter_update m (snd kv) batch_size ;;
    modify (set_losses_m (Dict.setitem (fst kv) m' (losses_m s)))).

Definition loss_log_of (d : Dict.t AverageMeter.t) : list (string * R * R) :=
  map (fun kv => (fst kv, AverageMeter.val (snd kv), AverageMeter.avg (snd kv))) d.

(** Lines 261-271, without the throughput, learning-rate and scale entries. *)
Definition log_data_of (s : state) : Dict.t R :=
  let log_data :=
    [("data_time"%string, AverageMeter.val (data_time_m s));
     ("batch_time"%string, AverageMeter.val (batch_time_m s))] in
  let log_data :=
    Dict.update log_data
      (map (fun kv => (fst kv, AverageMeter.val (snd kv))) (losses_m s)) in
  map (fun kv => ("train/" +:+ fst kv, snd kv)) log_data.

Definition log_progress (epoch step i_accum num_batches_per_epoch : Z)
    (images : list Elt) (losses : option (Dict.t R)) : M unit :=
  let batch_count := i_accum + 1 in
  cond <- (if is_master args then
             if log_every_n_steps args =? 0 then raise ZeroDivisionError
             else ret ((i_accum mod log_every_n_steps args =? 0)
                       || (batch_count =? num_batches_per_epoch))
           else ret false) ;;
  if cond : bool then
    let batch_size := Z.of_nat (length images) in
    let samples_per_epoch := num_samples dataloader in
    let num_samples := batch_count * batch_size * accum_freq args * world_size args in
    when (num_batches_per_epoch =? 0) (raise ZeroDivisionError) ;;
    let percent_complete :=
      (100 * IZR batch_count / IZR num_batches_per_epoch)%R in
    losses <- match losses with
              | Some l => ret l
              | None => raise (UnboundLocalError "losses")
              end ;;
    update_losses_m losses batch_size ;;
    s <- get_state ;;
    emit (LoggingInfo epoch num_samples samples_per_epoch percent_complete
            (AverageMeter.avg (data_time_m s)) (AverageMeter.avg (batch_time_m s))
            (loss_log_of (losses_m s))) ;;
    let log_data := log_data_of s in
    when tb_writer
      (for_each log_data (fun kv => emit (TbAddScalar (fst kv) (snd kv) step))) ;;
    when (wandb args)
      (if wandb_module
       then emit (WandbLog (Dict.setitem "step" (IZR step) log_data) step)
       else raise (AssertionError "Please install wandb.")) ;;
    modify (set_batch_time_m AverageMeter.reset) ;;
    modify (set_data_time_m AverageMeter.reset)
  else ret tt.

(** *** Checkpoint writer (lines 286-308) *)

Definition checkpoint_file (completed_step : Z) : string :=
  os_path_join (checkpoint_path args) ("step_" +:+ pretty completed_step +:+ ".pt").

Definition save_checkpoint (epoch step : Z) : M unit :=
  let completed_step := step + 1 in
  if save_logs args
     && negb (save_every_n_steps args =? 0)
     && (completed_step mod save_every_n_steps args =? 0)
  then
    s <- get_state ;;
    let checkpoint_dict :=
      {| ck_step := completed_step; ck_epoch := epoch; ck_name := name args;
         ck_state_dict := net s; ck_scaler := scaler |} in
    let path := checkpoint_file completed_step in
    emit (TorchSave checkpoint_dict path) ;;
    modify (set_files (fun fs => {[path]} ∪ fs)) ;;
    if delete_prev_step_ckpt args then
      let previous_checkpoint :=
        checkpoint_file (completed_step - save_every_n_steps args) in
      s <- get_state ;;
      if bool_decide (previous_checkpoint ∈ files s) then
        emit (OsRemove previous_checkpoint) ;;
        modify (set_files (fun fs => fs ∖ {[previous_checkpoint]}))
      else ret tt
    else ret tt
  else ret tt.

(** *** The loop body (lines 116-308) and [train_one_epoch] *)

(** Lines 197-308: what follows the forward and backward passes. *)
Definition finish_step (epoch step i_accum num_batches_per_epoch : Z)
    (images : list Elt) (losses : option (Dict.t R)) : M unit :=
  gradient_finalization ;;
  when (accum_freq args >? 1) (modify (set_accum (Some accum_empty))) ;;
  clamp_step ;;
  t <- time_time ;;
  s <- get_state ;;
  m <- meter_update (batch_time_m s) (t - end_ s) 1 ;;
  modify (set_batch_time_m m) ;;
  t <- time_time ;;
  modify (set_end t) ;;
  log_progress epoch step i_accum num_batches_per_epoch images losses ;;
  save_checkpoint epoch step.

Definition loop_body (epoch num_batches_per_epoch : Z) (i : Z)
    (batch : list RawImage * list RawText) : M unit :=
  let i_accum := i / accum_freq args in
  let step := num_batches_per_epoch * epoch + i_accum in
  when (negb (skip_scheduler args)) (emit (Scheduler step)) ;;
  it <- during_training_data_preprocess (fst batch) (snd batch) ;;
  t <- time_time ;;
  s <- get_state ;;
  m <- meter_update (data_time_m s) (t - end_ s) 1 ;;
  modify (set_data_time_m m) ;;
  emit ZeroGrad ;;
  if accum_freq args =? 1 then
    losses <- step_no_accum (fst it) (snd it) ;;
    finish_step epoch step i_accum num_batches_per_epoch (fst it) (Some losses)
  else
    r <- step_accum i (fst it) (snd it) ;;
    match r with
    | None => ret tt
    | Some (images, losses) =>
        finish_step epoch step i_accum num_batches_per_epoch images losses
    end.

(** Lines 103-308: the data source, the local variables and the loop. *)
Definition run_batches (epoch : Z) : M unit :=
  emit (SetEpoch epoch) ;;
  when (accum_freq args =? 0) (raise ZeroDivisionError) ;;
  let num_batches_per_epoch := num_batches dataloader / accum_freq args in
  (* sample_digits = math.ceil(math.log(num_samples + 1, 10)) *)
  when (num_samples dataloader + 1 <=? 0) (raise (ValueError "math domain error")) ;;
  modify (set_accum (if accum_freq args >? 1 then Some accum_empty else None)) ;;
  modify (set_losses_m []) ;;
  modify (set_batch_time_m AverageMeter.reset) ;;
  modify (set_data_time_m AverageMeter.reset) ;;
  t <- time_time ;;
  modify (set_end t) ;;
  for_enumerate 0 (batches dataloader) (loop_body epoch num_batches_per_epoch).

(** Lines 99-101 put the models in their modes; the set-up of lines 94-97
    (device, autocast, preprocessing function) has no effect of its own. *)
Definition train_one_epoch (epoch : Z) : M unit :=
  emit ModelTrain ;;
  when (distill args) (emit DistModelEval) ;;
  run_batches epoch.

(** *** Observations on event lists *)

Definition is_synchronize (e : event) : bool :=
  match e with Synchronize => true | _ => false end.
Definition is_unscale (e : event) : bool :=
  match e with Unscale => true | _ => false end.
Definition is_clip (e : event) : bool :=
  match e with ClipGradNorm _ => true | _ => false end.
Definition is_optimizer_step (e : event) : bool :=
  match e with OptimizerStep | ScalerStep _ => true | _ => false end.
Definition is_scheduler (e : event) : bool :=
  match e with Scheduler _ => true | _ => false end.
Definition is_teacher (e : event) : bool :=
  match e with TeacherForward _ _ => true | _ => false end.

Definition count_events (p : event -> bool) (l : list event) : nat :=
  length (List.filter p l).

(** Position of the first event that satisfies [p]. *)
Fixpoint index_of (p : event -> bool) (l : list event) : option nat :=
  match l with
  | [] => None
  | e :: l' => if p e then Some 0%nat else option_map S (index_of p l')
  end.

(** Both kinds of event occur, and the first [p] comes before the first [q]. *)
Definition precedes (p q : event -> bool) (l : list event) : bool :=
  match index_of p l, index_of q l with
  | Some i, Some j => Nat.ltb i j
  | _, _ => false
  end.

(** The step numbers handed to the scheduler, in order. *)
Definition scheduler_calls (l : list event) : list Z :=
  flat_map (fun e => match e with Scheduler step => [step] | _ => [] end) l.

(** The arguments of the loss calls, in order. *)
Definition loss_calls (l : list event) : list (Dict.t tensor) :=
  flat_map (fun e => match e with Loss kwargs => [kwargs] | _ => [] end) l.

(** For each optimizer step, the step number of the latest scheduler call
    before it ([last] when there is none yet). *)
Fixpoint steps_taken_from (last : option Z) (l : list event) : list (option Z) :=
  match l with
  | [] => []
  | e :: l' =>
      match e with
      | Scheduler step => steps_taken_from (Some step) l'
      | OptimizerStep | ScalerStep _ => last :: steps_taken_from last l'
      | _ => steps_taken_from last l'
      end
  end.

Definition steps_taken (l : list event) : list (option Z) := steps_taken_from None l.

Definition is_backward (e : event) : bool :=
  match e with Backward _ _ => true | _ => false end.
(** A forward pass of the model in the gradient mode [g]. *)
Definition is_forward (g : bool) (e : event) : bool :=
  match e with Forward g' _ _ => Bool.eqb g g' | _ => false end.
Definition is_clamp (e : event) : bool :=
  match e with ClampLogitScale _ => true | _ => false end.
Definition is_save (e : event) : bool :=
  match e with TorchSave _ _ => true | _ => false end.
(** What the progress logger emits. *)
Definition is_log (e : event) : bool :=
  match e with
  | LoggingInfo _ _ _ _ _ _ _ | TbAddScalar _ _ _ | WandbLog _ _ => true
  | _ => false
  end.

(** *** Auxiliary definitions for the statements *)

Definition ticked (s : state) : state := set_calls (S (calls s)) s.


Definition tagged (g : bool) (d : Dict.t (list Elt)) : Dict.t tensor :=
  map (fun kv => (fst kv, tag g (snd kv))) d.


(** What lines 197-214 emit. *)
Definition finalization_events : list event :=
  let clip := match grad_clip_norm args with
              | Some n => [ClipGradNorm n]
              | None => []
              end in
  if scaler then
    if horovod args
    then [Synchronize; Unscale] ++ clip ++ [ScalerStep true; ScalerUpdate]
    else match grad_clip_norm args with
         | Some n => [Unscale; ClipGradNorm n]
         | None => []
         end ++ [ScalerStep false; ScalerUpdate]
  else clip ++ [OptimizerStep].


(** The meter that line 238 updates for the component [key]. *)
Definition meter_of (key : string) (d : Dict.t AverageMeter.t) : AverageMeter.t :=
  match Dict.get key d with
  | Some m => m
  | None => AverageMeter.reset
  end.


(** Lines 235-238 as a function of the meters alone. *)
Fixpoint update_meters (losses : Dict.t R) (n : Z) (d : Dict.t AverageMeter.t)
    : exn + Dict.t AverageMeter.t :=
  match losses with
  | [] => inr d
  | (key, v) :: rest =>
      match AverageMeter.update (meter_of key d) v n with
      | inl e => inl e
      | inr m => update_meters rest n (Dict.setitem key m d)
      end
  end.


(** The keyword arguments that do not come from the cache. *)
Definition no_accum_of (out : Dict.t (list Elt)) (ls : list Elt) : Dict.t tensor :=
  ("logit_scale"%string, tag true ls)
  :: match Dict.get "logit_bias" (Dict.remove "logit_scale" out) with
     | Some lb => [("logit_bias"%string, tag true lb)]
     | None => []
     end.


(** What lines 152-153 leave of a model output. *)
Definition strip (out : Dict.t (list Elt)) : Dict.t (list Elt) :=
  Dict.remove "logit_bias" (Dict.remove "logit_scale" out).

Definition lookup (key : string) (d : Dict.t (list Elt)) : list Elt :=
  match Dict.get key d with
  | Some rows => rows
  | None => []
  end.

(** The values that the dictionaries of [w] hold for [key], in order. *)
Definition picks {V} (key : string) (w : list (Dict.t V)) : list V :=
  flat_map (fun o => match Dict.get key o with Some v => [v] | None => [] end) w.

(** The cache holds the micro-batches [w] (images, texts, model output
    without gradient), oldest first. *)
Definition holds (a : accum_state)
    (w : list (list Elt * list Elt * Dict.t (list Elt))) : Prop :=
  accum_images a = map (fun b => fst (fst b)) w /\
  accum_texts a = map (fun b => snd (fst b)) w /\
  accum_features a
  = fold_left (fun acc b => cache_features (tagged false (strip (snd b))) acc) w [].

(** The keyword arguments of the loss call of pass [j], made when [n]
    calls to the collaborators have gone before. *)
Definition recompute_kwargs (a : accum_state) (j n : nat)
    (kwargs : Dict.t tensor) : Prop :=
  exists images texts sp inputs,
    nth_error (accum_images a) j = Some images /\
    nth_error (accum_texts a) j = Some texts /\
    split_no_accum (tagged true (model_fn n images texts)) = inr sp /\
    build_inputs (accum_features a) (snd sp) j [] = inr inputs /\
    kwargs = inputs ++ fst sp.


(** The run emits nothing. *)
Definition no_events (s s' : state) (evs : list event) : Prop := evs = [].

(** The run does not change the state at all. *)
Definition same_state (s s' : state) (evs : list event) : Prop := s' = s.

(** The run does not touch the accumulation buffers. *)
Definition same_accum (s s' : state) (evs : list event) : Prop := accum s' = accum s.

(** The run emits no event of the kind [p]. *)
Definition quiet (p : event -> bool) (s s' : state) (evs : list event) : Prop :=
  List.filter p evs = [].


(** A program keeps the relation [Phi] between the state before, the state
    after and the events of each of its runs. *)
Definition keeps (Phi : state -> state -> list event -> Prop) {A} (m : M A) : Prop :=
  forall s r s' evs, m s = (r, s', evs) -> Phi s s' evs.

(** A sequence of [update(val, n)] calls on one meter, up to the first
    that raises. *)
Fixpoint update_all (m : AverageMeter.t) (l : list (R * Z)) : exn + AverageMeter.t :=
  match l with
  | [] => inr m
  | (v, n) :: l' =>
      match AverageMeter.update m v n with
      | inl e => inl e
      | inr m' => update_all m' l'
      end
  end.

Definition weighted_sum (l : list (R * Z)) : R :=
  fold_right (fun vn acc => (fst vn * IZR (snd vn) + acc)%R) 0%R l.

Definition total_weight (l : list (R * Z)) : Z :=
  fold_right (fun vn acc => snd vn + acc) 0 l.

(** Every meter of the dictionary has seen a non-negative weight. *)
Definition counts_nonneg (d : Dict.t AverageMeter.t) : Prop :=
  Forall (fun km => 0 <= AverageMeter.count (snd km)) d.

(** The run leaves the meters of the loss components alone. *)
Definition same_losses_m (s s' : state) (evs : list event) : Prop :=
  losses_m s' = losses_m s.

(** The run leaves the checkpoint directory alone. *)
Definition same_files (s s' : state) (evs : list event) : Prop :=
  files s' = files s.

(** While the accumulation buffers are unbound, the run leaves them so,
    and it emits no event of the kind [p]. *)
Definition unbound_quiet (p : event -> bool) (s s' : state) (evs : list event) : Prop :=
  (accum s = None -> accum s' = None) /\ List.filter p evs = [].



(** The run leaves the model alone, and every checkpoint it writes is the
    one of [epoch] and [completed_step], holds the model as it is, and
    goes to the file named by the step. *)
Definition saves_current (epoch completed_step : Z)
    (s s' : state) (evs : list event) : Prop :=
  net s' = net s /\
  forall ckpt path, In (TorchSave ckpt path) evs ->
    ck_state_dict ckpt = net s /\ ck_step ckpt = completed_step /\
    ck_epoch ckpt = epoch /\ path = checkpoint_file completed_step.

(** Every event of the run satisfies [P]. *)
Definition all_events (P : event -> Prop) (s s' : state) (evs : list event) : Prop :=
  Forall P evs.

(** What [during_training_data_preprocess] returns for a batch of the
    data source, when it returns. *)
Definition preprocessed (batch : list RawImage * list RawText) : list Elt * list Elt :=
  (map preprocess (fst batch),
   if negb (truthy (text_embed_dim args))
   then tokenizer (snd batch)
   else map from_numpy (snd batch)).

(** The cached output of a micro-batch is what the model returned for its
    images and texts at some call. *)
Definition fresh_output (b : list Elt * list Elt * Dict.t (list Elt)) : Prop :=
  exists n, snd b = model_fn n (fst (fst b)) (snd (fst b)).

(** The event was made with [step] as the value of the step counter: the
    scheduler call and the two loggers receive it, the step logged to
    wandb is the same number, and the checkpoint (record and file name, and
    the file that is removed) is the one of [completed_step = step + 1]. *)
Definition uses_step (step : Z) (e : event) : Prop :=
  match e with
  | Scheduler x => x = step
  | TbAddScalar _ _ x => x = step
  | WandbLog log_data x => x = step /\ Dict.get "step" log_data = Some (IZR step)
  | TorchSave ckpt path =>
      ck_step ckpt = step + 1 /\ path = checkpoint_file (step + 1)
  | OsRemove path => path = checkpoint_file (step + 1 - save_every_n_steps args)
  | _ => True
  end.

(** Which calls go with which configuration: the scaler, horovod, the
    configured clipping norm and the model family. *)
Definition discipline (e : event) : Prop :=
  match e with
  | Backward scaled _ => scaled = scaler
  | OptimizerStep => scaler = false
  | ScalerStep skip_synchronize => scaler = true /\ skip_synchronize = horovod args
  | ScalerUpdate => scaler = true
  | Unscale => scaler = true /\ (horovod args = true \/ grad_clip_norm args <> None)
  | Synchronize => scaler = true /\ horovod args = true
  | ClipGradNorm n =>
      grad_clip_norm args = Some n
      \/ (n = 1%R /\ accum_freq args = 1 /\ str_contains "LIFT" (model args) = true)
  | TeacherForward _ _ => distill args = true /\ accum_freq args = 1
  | Forward grad_enabled _ _ => grad_enabled = false -> accum_freq args <> 1
  | DistModelEval => distill args = true
  | _ => True
  end.

(** From a state whose accumulation buffers satisfy [P], the run ends in
    such a state again; it does not raise [UnboundLocalError], and a value
    that it returns satisfies [Q]. *)
Definition bound (P : option accum_state -> Prop) {A} (Q : A -> Prop) (m : M A) : Prop :=
  forall s r s' evs,
    P (accum s) -> m s = (r, s', evs) ->
    P (accum s') /\
    match r with
    | inl e => forall name, e <> UnboundLocalError name
    | inr a => Q a
    end.

(** The accumulation buffers exist whenever the code is going to use them. *)
Definition buffers_ready (o : option accum_state) : Prop :=
  accum_freq args > 1 -> o <> None.

(** When [n] optimizer steps have been completed, the only step checkpoint
    in the directory is the one of the latest multiple of the interval. *)
Definition latest_only (n : Z) (fs : gset string) : Prop :=
  forall c, checkpoint_file c ∈ fs ->
    c = save_every_n_steps args * (n / save_every_n_steps args).

(** ** Reasoning about runs *)

Lemma bind_run {A B} (m : M A) (k : A -> M B) s r s' evs :
  bind m k s = (r, s', evs) ->
  (exists e, m s = (inl e, s', evs) /\ r = inl e) \/
  (exists a s1 t1 t2,
      m s = (inr a, s1, t1) /\ k a s1 = (r, s', t2) /\ evs = t1 ++ t2).
Proof.
  unfold bind. destruct (m s) as [[[e|a] s1] t1].
  - intros H. inversion H; subst. left. eauto.
  - destruct (k a s1) as [[r2 s2] t2] eqn:Hk. intros H. inversion H; subst.
    right. exists a, s1, t1, t2. auto.
Qed.

Lemma bind_ext {A B} (m : M A) (k1 k2 : A -> M B) s :
  (forall a s', k1 a s' = k2 a s') -> bind m k1 s = bind m k2 s.
Proof.
  intros H. unfold bind. destruct (m s) as [[[e|a] s1] t1]; [reflexivity|].
  rewrite H. reflexivity.
Qed.


Lemma bind_raise {A B} (m : M A) (k : A -> M B) s e s1 t1 :
  m s = (inl e, s1, t1) -> bind m k s = (inl e, s1, t1).
Proof. unfold bind. intros ->. reflexivity. Qed.

(** Splits a run of [bind m k] into the run of [m] (named by the caller)
    and, when [m] returned, the run of the continuation (left in place). *)
Tactic Notation "run_bind" hyp(H) "as" ident(H1) :=
  apply bind_run in H as [(? & H1 & ?) | (? & ? & ? & ? & H1 & H & ->)].

(** The same for a run that returned: the first case is absurd. *)
Tactic Notation "run_ok" hyp(H) "as" ident(H1) :=
  run_bind H as H1; [discriminate|].


(** A run of one elementary step: read off result, state and events. *)
Ltac run_step H1 :=
  cbn [for_enumerate for_each] in H1;
  cbv [ret emit modify get_state raise lift when negb time_time tick bind] in H1;
  first
    [ discriminate H1
    | match type of H1 with
      | (?r0, ?s0, ?t0) = (?r1, ?s1, ?t1) =>
          let E1 := fresh "Er" in
          let E2 := fresh "Es" in
          let E3 := fresh "Et" in
          assert (E1 : r0 = r1) by congruence;
          assert (E2 : s0 = s1) by congruence;
          assert (E3 : t0 = t1) by congruence;
          clear H1;
          try (is_var s1; subst s1);
          try (is_var t1; subst t1);
          try (match type of E1 with
               | inr _ = inr ?x => is_var x; injection E1 as E1; subst x
               | inl _ = inl ?x => is_var x; injection E1 as E1; subst x
               | _ = ?x => is_var x; subst x
               end)
      end ].


(** A relation that holds of the empty run and composes is kept by every
    program built from steps that keep it. *)
Section Frame.
Variable Phi : state -> state -> list event -> Prop.
Hypothesis Phi_refl : forall s, Phi s s [].
Hypothesis Phi_trans : forall s1 s2 s3 t1 t2,
  Phi s1 s2 t1 -> Phi s2 s3 t2 -> Phi s1 s3 (t1 ++ t2).

Lemma keeps_ret {A} (a : A) : keeps Phi (ret a).
Proof. intros s r s' evs H. inversion H; subst. apply Phi_refl. Qed.

Lemma keeps_raise {A} (e : exn) : keeps Phi (@raise A e).
Proof. intros s r s' evs H. inversion H; subst. apply Phi_refl. Qed.

Lemma keeps_get_state : keeps Phi get_state.
Proof. intros s r s' evs H. inversion H; subst. apply Phi_refl. Qed.

Lemma keeps_lift {A} (x : exn + A) : keeps Phi (lift x).
Proof. destruct x; [apply keeps_raise | apply keeps_ret]. Qed.

Lemma keeps_bind {A B} (m : M A) (k : A -> M B) :
  keeps Phi m -> (forall a, keeps Phi (k a)) -> keeps Phi (bind m k).
Proof.
  intros Hm Hk s r s' evs H.
  apply bind_run in H as [(e & H & _) | (a & s1 & t1 & t2 & H1 & H2 & ->)].
  - eapply Hm; eauto.
  - eapply Phi_trans; [eapply Hm | eapply Hk]; eauto.
Qed.

Lemma keeps_when (b : bool) (m : M unit) : keeps Phi m -> keeps Phi (when b m).
Proof. destruct b; simpl; auto using keeps_ret. Qed.

Lemma keeps_for_each {A} (l : list A) (body : A -> M unit) :
  (forall x, keeps Phi (body x)) -> keeps Phi (for_each l body).
Proof.
  intros Hb. induction l as [|x l IH]; simpl.
  - apply keeps_ret.
  - apply keeps_bind; auto.
Qed.

Lemma keeps_for_enumerate {A} (l : list A) (body : Z -> A -> M unit) i :
  (forall j x, keeps Phi (body j x)) -> keeps Phi (for_enumerate i l body).
Proof.
  intros Hb. revert i. induction l as [|x l IH]; intros i; simpl.
  - apply keeps_ret.
  - apply keeps_bind; auto.
Qed.

Lemma keeps_list_index {A} (l : list A) j : keeps Phi (list_index l j).
Proof.
  unfold list_index. destruct (nth_error l j); [apply keeps_ret | apply keeps_raise].
Qed.

Lemma keeps_torch_stack l : keeps Phi (torch_stack l).
Proof. destruct l; [apply keeps_raise | apply keeps_ret]. Qed.

Lemma keeps_meter_update m v n : keeps Phi (meter_update m v n).
Proof. apply keeps_lift. Qed.
End Frame.

#[local] Set Default Proof Using "Type".

(** ** Dictionaries *)

Lemma get_setitem_same {V} k (v : V) d : Dict.get k (Dict.setitem k v d) = Some v.
Proof.
  induction d as [|[k' v'] d IH]; simpl.
  - rewrite String.eqb_refl. reflexivity.
  - destruct (String.eqb k k') eqn:E; simpl; rewrite ?E, ?String.eqb_refl; auto.
Qed.

Lemma get_setitem_other {V} k k' (v : V) d :
  k <> k' -> Dict.get k (Dict.setitem k' v d) = Dict.get k d.
Proof.
  intros Hne. induction d as [|[k0 v0] d IH]; simpl.
  - destruct (String.eqb_spec k k'); [contradiction | reflexivity].
  - destruct (String.eqb_spec k' k0) as [->|Hk0]; simpl.
    + destruct (String.eqb_spec k k0); [contradiction | reflexivity].
    + destruct (String.eqb_spec k k0); [reflexivity | exact IH].
Qed.

Lemma remove_setitem_fresh {V} k (v : V) d :
  Dict.get k d = None -> Dict.remove k (Dict.setitem k v d) = d.
Proof.
  induction d as [|[k' v'] d IH]; simpl.
  - rewrite String.eqb_refl. reflexivity.
  - destruct (String.eqb k k') eqn:E; [discriminate|].
    intros H. simpl. rewrite E, IH; auto.
Qed.

Lemma remove_absent {V} k (d : Dict.t V) : Dict.get k d = None -> Dict.remove k d = d.
Proof.
  induction d as [|[k' v'] d IH]; simpl; [reflexivity|].
  destruct (String.eqb k k'); [discriminate|]. intros H. rewrite IH; auto.
Qed.

Lemma keys_setitem {V} k (v : V) d :
  Dict.keys (Dict.setitem k v d)
  = if Dict.mem k d then Dict.keys d else Dict.keys d ++ [k].
Proof.
  unfold Dict.mem. induction d as [|[k' v'] d IH]; simpl; [reflexivity|].
  destruct (String.eqb_spec k k') as [->|Hne]; simpl; [reflexivity|].
  rewrite IH. destruct (Dict.get k d); reflexivity.
Qed.

Lemma get_none_not_in {V} k (d : Dict.t V) :
  Dict.get k d = None <-> ~ In k (Dict.keys d).
Proof.
  induction d as [|[k' v'] d IH]; simpl.
  - split; [intros _ [] | reflexivity].
  - destruct (String.eqb_spec k k') as [->|Hne].
    + split; [discriminate | intros H; exfalso; apply H; left; reflexivity].
    + rewrite IH. split.
      * intros H [E|E]; [apply Hne; symmetry; exact E | exact (H E)].
      * intros H E. apply H. right. exact E.
Qed.

Lemma nodup_setitem {V} k (v : V) d :
  List.NoDup (Dict.keys d) -> List.NoDup (Dict.keys (Dict.setitem k v d)).
Proof.
  intros H. rewrite keys_setitem. unfold Dict.mem.
  destruct (Dict.get k d) eqn:E; [exact H|].
  apply get_none_not_in in E.
  apply List.NoDup_app; auto.
  - constructor; [intros [] | constructor].
  - intros x Hx [<-|[]]. exact (E Hx).
Qed.


Lemma get_some_in {V} k (v : V) d : Dict.get k d = Some v -> In (k, v) d.
Proof.
  induction d as [|[k' v'] d IH]; simpl; [discriminate|].
  destruct (String.eqb_spec k k') as [->|Hne].
  - intros E. inversion E; subst. left. reflexivity.
  - intros E. right. apply IH. exact E.
Qed.

Lemma get_app_l {V} k (v : V) d1 d2 :
  Dict.get k d1 = Some v -> Dict.get k (d1 ++ d2) = Some v.
Proof.
  induction d1 as [|[k' v'] d1 IH]; simpl; [discriminate|].
  destruct (String.eqb k k'); auto.
Qed.

Lemma get_app_r {V} k (d1 d2 : Dict.t V) :
  Dict.get k d1 = None -> Dict.get k (d1 ++ d2) = Dict.get k d2.
Proof.
  induction d1 as [|[k' v'] d1 IH]; simpl; [reflexivity|].
  destruct (String.eqb k k'); [discriminate | exact IH].
Qed.

Lemma get_remove_other {V} k k' (d : Dict.t V) :
  k <> k' -> Dict.get k (Dict.remove k' d) = Dict.get k d.
Proof.
  intros Hne. induction d as [|[k0 v0] d IH]; simpl; [reflexivity|].
  destruct (String.eqb k' k0) eqn:E1.
  - apply String.eqb_eq in E1. subst k0.
    destruct (String.eqb k k') eqn:E2; [|reflexivity].
    apply String.eqb_eq in E2. contradiction.
  - simpl. destruct (String.eqb k k0); [reflexivity | exact IH].
Qed.







(** ** Loss additivity *)

(** C7. The total handed to [backward] is the sum of the components the
    loss function returned, taken before the ["loss"] key is written; the
    ["loss"] entry of the resulting dictionary is that same sum, which is
    the sum of all its other entries. *)
Theorem loss_additivity (kwargs : Dict.t tensor) (s : state) :
  Dict.get "loss" (loss_fn kwargs) = None ->
  loss_fn kwargs <> [] ->
  exists losses v,
    loss_and_backward kwargs s = (inr losses, s, [Loss kwargs; Backward scaler v]) /\
    v = fold_left Rplus (Dict.values (loss_fn kwargs)) 0%R /\
    Dict.remove "loss" losses = loss_fn kwargs /\
    Dict.get "loss" losses
      = Some (fold_left Rplus (Dict.values (Dict.remove "loss" losses)) 0%R).
Proof.
  intros Hfresh Hne.
  exists (Dict.setitem "loss" (fold_left Rplus (Dict.values (loss_fn kwargs)) 0%R)
            (loss_fn kwargs)), (fold_left Rplus (Dict.values (loss_fn kwargs)) 0%R).
  assert (Hrm := remove_setitem_fresh "loss"
                   (fold_left Rplus (Dict.values (loss_fn kwargs)) 0%R) _ Hfresh).
  repeat split; auto.
  - unfold loss_and_backward, compute_loss, bind, emit, ret, backward, py_sum.
    destruct (loss_fn kwargs) as [|kv d] eqn:E; [congruence|].
    reflexivity.
  - rewrite Hrm. apply get_setitem_same.
Qed.

(** ** Runs of the elementary steps *)



Lemma forward_run g images texts s :
  forward g images texts s
  = (inr (map (fun kv => (fst kv, tag g (snd kv))) (model_fn (calls s) images texts)),
     ticked s, [Forward g images texts]).
Proof. reflexivity. Qed.

Lemma teacher_forward_run images texts s :
  teacher_forward images texts s
  = (inr (map (fun kv => (fst kv, tag false (snd kv)))
            (dist_model_fn (calls s) images texts)),
     ticked s, [TeacherForward images texts]).
Proof. reflexivity. Qed.


Lemma loss_and_backward_run kwargs s :
  loss_and_backward kwargs s
  = match loss_fn kwargs with
    | [] => (inl backward_error, s, [Loss kwargs])
    | _ :: _ =>
        let v := fold_left Rplus (Dict.values (loss_fn kwargs)) 0%R in
        (inr (Dict.setitem "loss" v (loss_fn kwargs)), s,
         [Loss kwargs; Backward scaler v])
    end.
Proof.
  unfold loss_and_backward, compute_loss, bind, emit, ret, backward, py_sum.
  destruct (loss_fn kwargs); reflexivity.
Qed.



Lemma gradient_finalization_run s :
  gradient_finalization s
  = (inr tt, set_net (map_logit_scale (optimizer_fn (calls s))) (ticked s),
     finalization_events).
Proof.
  unfold gradient_finalization, finalization_events, clip_configured.
  destruct scaler, (horovod args), (grad_clip_norm args); reflexivity.
Qed.

(** ** Unscaling, synchronization and clipping *)

(** C2 (as the code has it). With a scaler, a configured clipping comes
    after the one unscaling of the step; in the horovod branch the
    gradients are synchronized exactly once, BEFORE the unscaling (and so
    before the clipping), and the scaler's step runs with the automatic
    synchronization suppressed. *)
Theorem unscale_then_clip (s : state) :
  scaler = true ->
  exists s' evs,
    gradient_finalization s = (inr tt, s', evs) /\
    (forall n, grad_clip_norm args = Some n ->
       count_events is_unscale evs = 1%nat /\
       List.filter is_clip evs = [ClipGradNorm n] /\
       precedes is_unscale is_clip evs = true) /\
    (horovod args = true ->
       count_events is_synchronize evs = 1%nat /\
       count_events is_unscale evs = 1%nat /\
       precedes is_synchronize is_unscale evs = true /\
       precedes is_unscale is_synchronize evs = false /\
       (forall n, grad_clip_norm args = Some n ->
          precedes is_synchronize is_clip evs = true) /\
       List.filter is_optimizer_step evs = [ScalerStep true]).
Proof.
  intros Hs. rewrite gradient_finalization_run.
  eexists _, _. split; [reflexivity|].
  unfold finalization_events. rewrite Hs.
  split.
  - intros n Hn. rewrite Hn. destruct (horovod args); repeat split; reflexivity.
  - intros Hh. rewrite Hh.
    destruct (grad_clip_norm args) as [n|]; repeat split; try reflexivity;
      intros n' Hn'; try discriminate; reflexivity.
Qed.

(** ** The clipping of the LIFT family *)

(** C5. On the non-accumulating path, when the model name contains
    ["LIFT"], the backward pass is followed at once by a clipping to norm
    1, whatever [grad_clip_norm] is; the finalization that follows clips
    once more, to the configured norm, exactly when one is configured. *)
Theorem family_clip (images texts : list Elt) (s s1 : state)
    (losses : Dict.t R) (evs : list event) :
  str_contains "LIFT" (model args) = true ->
  step_no_accum images texts s = (inr losses, s1, evs) ->
  (exists pre v, evs = pre ++ [Backward scaler v; ClipGradNorm 1]
                 /\ count_events is_clip pre = 0%nat) /\
  exists s2 fin,
    gradient_finalization s1 = (inr tt, s2, fin) /\
    List.filter is_clip fin
    = match grad_clip_norm args with
      | Some n => [ClipGradNorm n]
      | None => []
      end.
Proof.
  intros HL H. split.
  - unfold step_no_accum in H. rewrite HL in H. simpl in H.
    apply bind_run in H as [(e & _ & He) | (mo & sa & t1 & t2 & H1 & H & ->)];
      [discriminate|].
    rewrite forward_run in H1. inversion H1; subst; clear H1.
    apply bind_run in H as [(e & _ & He) | (mo' & sb & t3 & t4 & H2 & H & ->)];
      [discriminate|].
    assert (Ht3 : count_events is_clip t3 = 0%nat).
    { destruct (distill args).
      - apply bind_run in H2 as [(e & H2 & _) | (d & sc & u1 & u2 & H2 & H3 & ->)].
        + rewrite teacher_forward_run in H2. discriminate.
        + rewrite teacher_forward_run in H2. inversion H2; subst.
          inversion H3; subst. reflexivity.
      - inversion H2; subst. reflexivity. }
    apply bind_run in H as [(e & _ & He) | (l & sc & t5 & t6 & H3 & H & ->)];
      [discriminate|].
    rewrite loss_and_backward_run in H3.
    destruct (loss_fn mo') as [|kv d] eqn:E; [discriminate|].
    inversion H3; subst; clear H3.
    apply bind_run in H as [(e & _ & He) | (u & sd & t7 & t8 & H4 & H & ->)];
      [discriminate|].
    inversion H4; subst; clear H4. inversion H; subst; clear H.
    eexists (_ :: t3 ++ [Loss mo']), _. split.
    + simpl. rewrite <- !app_assoc. reflexivity.
    + unfold count_events in Ht3 |- *.
      change (Forward true images texts :: t3 ++ [Loss mo'])
        with ([Forward true images texts] ++ t3 ++ [Loss mo']).
      rewrite !List.filter_app, !length_app, Ht3. reflexivity.
  - rewrite gradient_finalization_run. eexists _, _. split; [reflexivity|].
    unfold finalization_events.
    destruct scaler, (horovod args), (grad_clip_norm args); reflexivity.
Qed.

(** ** Checkpoint names *)

Lemma length_append (s t : string) :
  String.length (s +:+ t) = (String.length s + String.length t)%nat.
Proof.
  induction s as [|a s IH]; [reflexivity|].
  change (String a s +:+ t) with (String a (s +:+ t)).
  simpl. rewrite IH. reflexivity.
Qed.

Lemma append_inj_r (t s1 s2 : string) : s1 +:+ t = s2 +:+ t -> s1 = s2.
Proof.
  revert s2. induction s1 as [|a s1 IH]; intros [|b s2] H; auto.
  - apply (f_equal String.length) in H.
    change (String b s2 +:+ t) with (String b (s2 +:+ t)) in H.
    change ("" +:+ t) with t in H. simpl in H. rewrite length_append in H. lia.
  - apply (f_equal String.length) in H.
    change (String a s1 +:+ t) with (String a (s1 +:+ t)) in H.
    change ("" +:+ t) with t in H. simpl in H. rewrite length_append in H. lia.
  - change (String a s1 +:+ t) with (String a (s1 +:+ t)) in H.
    change (String b s2 +:+ t) with (String b (s2 +:+ t)) in H.
    inversion H; subst. f_equal. auto.
Qed.

Lemma os_path_join_inj (a b1 b2 : string) :
  os_path_join a b1 = os_path_join a b2 -> b1 = b2.
Proof.
  unfold os_path_join.
  destruct (String.eqb a ""); [auto|].
  destruct (ends_with_slash a); intros H.
  - apply (inj (String.app a)) in H. exact H.
  - apply (inj (String.app a)) in H. apply (inj (String.app "/")) in H. exact H.
Qed.

Lemma checkpoint_file_inj (c1 c2 : Z) :
  checkpoint_file c1 = checkpoint_file c2 -> c1 = c2.
Proof.
  unfold checkpoint_file. intros H.
  apply os_path_join_inj in H.
  apply (inj (String.app "step_")) in H.
  apply append_inj_r in H.
  apply (inj pretty) in H. exact H.
Qed.

(** ** Checkpoint cadence *)

(** C6. A checkpoint is written exactly when [save_logs] is set, the
    interval is not 0 and [step + 1] is a multiple of it; the file is
    named by [step + 1], and different steps give different names. With
    [delete_prev_step_ckpt] the file of one interval earlier is removed
    when it exists and nothing happens when it does not: afterwards it
    is absent and the new file is present; no other file changes. *)
Theorem checkpoint_cadence (epoch step : Z) (s : state) :
  let completed_step := step + 1 in
  let every := save_every_n_steps args in
  let path := checkpoint_file completed_step in
  let previous := checkpoint_file (completed_step - every) in
  exists s' evs,
    save_checkpoint epoch step s = (inr tt, s', evs) /\
    (forall c, checkpoint_file c = path -> c = completed_step) /\
    if save_logs args && negb (every =? 0) && (completed_step mod every =? 0)
    then
      hd_error evs
      = Some (TorchSave {| ck_step := completed_step; ck_epoch := epoch;
                           ck_name := name args; ck_state_dict := net s;
                           ck_scaler := scaler |} path) /\
      path ∈ files s' /\
      if delete_prev_step_ckpt args
      then
        tl evs = (if bool_decide (previous ∈ files s)
                  then [OsRemove previous] else []) /\
        (previous ∉ files s') /\
        files s' = ({[path]} ∪ files s) ∖ {[previous]}
      else
        tl evs = [] /\ files s' = {[path]} ∪ files s
    else evs = [] /\ s' = s.
Proof.
  intros completed_step every path previous.
  assert (Hinj : forall c, checkpoint_file c = path -> c = completed_step)
    by (intros c Hc; apply checkpoint_file_inj; exact Hc).
  unfold save_checkpoint. fold completed_step every path previous.
  destruct (save_logs args && negb (every =? 0) && (completed_step mod every =? 0))
    eqn:Hcond.
  2: { eexists _, _. split; [reflexivity|]. auto. }
  assert (Hne : previous <> path).
  { intros Heq. apply Hinj in Heq.
    apply andb_prop in Hcond as [Hc _]. apply andb_prop in Hc as [_ Hc].
    apply negb_true_iff, Z.eqb_neq in Hc. lia. }
  destruct (delete_prev_step_ckpt args) eqn:Hdel.
  - unfold bind, get_state, emit, modify, ret. simpl.
    destruct (bool_decide (previous ∈ {[path]} ∪ files s)) eqn:Hin.
    + eexists _, _. split; [reflexivity|]. split; [exact Hinj|]. simpl.
      apply bool_decide_eq_true in Hin.
      assert (Hin' : previous ∈ files s).
      { apply elem_of_union in Hin as [Hin|Hin]; [|exact Hin].
        apply elem_of_singleton in Hin. contradiction. }
      rewrite (bool_decide_eq_true_2 _ Hin').
      split; [reflexivity|]. split; [|split; [reflexivity|split; [|reflexivity]]].
      * apply elem_of_difference. split.
        -- apply elem_of_union. left. apply elem_of_singleton. reflexivity.
        -- intros Hc. apply elem_of_singleton in Hc. apply Hne. symmetry. exact Hc.
      * intros Hc. apply elem_of_difference in Hc as [_ Hc].
        apply Hc. apply elem_of_singleton. reflexivity.
    + eexists _, _. split; [reflexivity|]. split; [exact Hinj|]. simpl.
      apply bool_decide_eq_false in Hin.
      assert (Hin' : previous ∉ files s).
      { intros Hc. apply Hin. apply elem_of_union. right. exact Hc. }
      rewrite (bool_decide_eq_false_2 _ Hin').
      split; [reflexivity|]. split; [|split; [reflexivity|split]].
      * apply elem_of_union. left. apply elem_of_singleton. reflexivity.
      * exact Hin.
      * apply leibniz_equiv. intros x. rewrite elem_of_difference, elem_of_singleton.
        split; [|tauto]. intros Hx. split; [exact Hx|]. intros ->. exact (Hin Hx).
  - eexists _, _. split; [reflexivity|]. split; [exact Hinj|]. simpl.
    split; [reflexivity|]. split; [|split; reflexivity].
    apply elem_of_union. left. apply elem_of_singleton. reflexivity.
Qed.

(** ** Frames: what a run leaves alone *)

(** The run does not touch the model object. *)
Definition same_net (s s' : state) (evs : list event) : Prop := net s' = net s.



Lemma same_net_refl s : same_net s s [].
Proof. reflexivity. Qed.
Lemma same_net_trans s1 s2 s3 t1 t2 :
  same_net s1 s2 t1 -> same_net s2 s3 t2 -> same_net s1 s3 (t1 ++ t2).
Proof. unfold same_net. congruence. Qed.

Lemma no_events_refl s : no_events s s [].
Proof. reflexivity. Qed.
Lemma no_events_trans s1 s2 s3 t1 t2 :
  no_events s1 s2 t1 -> no_events s2 s3 t2 -> no_events s1 s3 (t1 ++ t2).
Proof. unfold no_events. intros -> ->. reflexivity. Qed.

Lemma same_state_refl s : same_state s s [].
Proof. reflexivity. Qed.
Lemma same_state_trans s1 s2 s3 t1 t2 :
  same_state s1 s2 t1 -> same_state s2 s3 t2 -> same_state s1 s3 (t1 ++ t2).
Proof. unfold same_state. congruence. Qed.

Lemma same_accum_refl s : same_accum s s [].
Proof. reflexivity. Qed.
Lemma same_accum_trans s1 s2 s3 t1 t2 :
  same_accum s1 s2 t1 -> same_accum s2 s3 t2 -> same_accum s1 s3 (t1 ++ t2).
Proof. unfold same_accum. congruence. Qed.

Lemma quiet_refl p s : quiet p s s [].
Proof. reflexivity. Qed.
Lemma quiet_trans p s1 s2 s3 t1 t2 :
  quiet p s1 s2 t1 -> quiet p s2 s3 t2 -> quiet p s1 s3 (t1 ++ t2).
Proof. unfold quiet. intros H1 H2. rewrite List.filter_app, H1, H2. reflexivity. Qed.

Ltac keeps_leaf :=
  let H := fresh in
  intros ? ? ? ? H; inversion H; subst; clear H;
  cbv [no_events same_state same_net same_accum quiet]; simpl; auto.

Ltac keeps_using Hrefl Htrans known :=
  repeat first
    [ known
    | apply (keeps_ret _ Hrefl)
    | apply (keeps_raise _ Hrefl)
    | apply (keeps_get_state _ Hrefl)
    | apply (keeps_lift _ Hrefl)
    | apply (keeps_meter_update _ Hrefl)
    | apply (keeps_list_index _ Hrefl)
    | apply (keeps_torch_stack _ Hrefl)
    | apply (keeps_bind _ Htrans); [| intros ?]
    | apply (keeps_when _ Hrefl)
    | apply (keeps_for_each _ Hrefl Htrans); intros ?
    | apply (keeps_for_enumerate _ Hrefl Htrans); intros ? ?
    | match goal with
      | |- keeps _ (if ?b then _ else _) => destruct b
      | |- keeps _ (match ?x with _ => _ end) => destruct x
      end
    | progress (unfold time_time, tick, update_losses_m, log_progress,
                save_checkpoint, during_training_data_preprocess,
                forward, apply_optimizer, backward,
                loss_and_backward, compute_loss, get_accum, cache_batch,
                recompute, clip_configured, step_accum, finish_step,
                gradient_finalization, clamp_step)
    | solve [keeps_leaf] ].

Ltac keeps_with Hrefl Htrans := keeps_using Hrefl Htrans fail.

Lemma log_progress_same_net epoch step i_accum nbpe images losses :
  keeps same_net (log_progress epoch step i_accum nbpe images losses).
Proof. keeps_with same_net_refl same_net_trans. Qed.

Lemma save_checkpoint_same_net epoch step :
  keeps same_net (save_checkpoint epoch step).
Proof. keeps_with same_net_refl same_net_trans. Qed.

(** ** The logit scale after an optimizer step *)

Lemma math_log_100_pos : (0 <= math_log 100)%R.
Proof.
  unfold math_log. rewrite <- ln_1. left. apply ln_increasing; lra.
Qed.

Lemma clamp_range (x : R) :
  (0 <= clamp_ 0 (math_log 100) x <= math_log 100)%R.
Proof.
  unfold clamp_. split.
  - apply Rmin_glb; [apply Rmax_r | apply math_log_100_pos].
  - apply Rmin_r.
Qed.

Lemma hasattr_map_logit_scale f m :
  hasattr_logit_scale (unwrap_model (map_logit_scale f m))
  = hasattr_logit_scale (unwrap_model m).
Proof.
  destruct m as [[v|]|[[v|]|m']]; reflexivity.
Qed.

Lemma clamp_logit_scale_range m :
  hasattr_logit_scale (unwrap_model m) = true ->
  exists v, getattr_logit_scale (unwrap_model (clamp_logit_scale m)) = Some v
            /\ (0 <= v <= math_log 100)%R.
Proof.
  destruct m as [[v|]|[[v|]|m']]; simpl; try discriminate; intros _;
    eexists; split; try reflexivity; apply clamp_range.
Qed.

Lemma clamp_cases (w : R) :
  let v := Rmin (Rmax w 0) (ln 100) in
  (0 <= v <= ln 100)%R /\
  ((w < 0)%R -> v = 0%R) /\
  ((0 <= w <= ln 100)%R -> v = w) /\
  ((ln 100 < w)%R -> v = ln 100).
Proof.
  intros v. subst v. pose proof math_log_100_pos as Hp. unfold math_log in Hp.
  repeat split.
  - apply Rmin_glb; [apply Rmax_r | exact Hp].
  - apply Rmin_r.
  - intros Hw. rewrite Rmax_right by lra. apply Rmin_left. exact Hp.
  - intros [H0 H1]. rewrite Rmax_left by lra. apply Rmin_left. exact H1.
  - intros Hw. rewrite Rmax_left by lra. apply Rmin_right. lra.
Qed.

Lemma clamp_logit_scale_value f m v0 :
  getattr_logit_scale (unwrap_model m) = Some v0 ->
  unwrap_model (clamp_logit_scale (map_logit_scale f m))
  = Net (Some (Rmin (Rmax (f v0) 0) (ln 100))).
Proof.
  destruct m as [[v|]|[[v|]|m']]; simpl; try discriminate;
    intros E; inversion E; subst; reflexivity.
Qed.

Lemma hasattr_getattr m :
  hasattr_logit_scale (unwrap_model m) = true ->
  exists v0, getattr_logit_scale (unwrap_model m) = Some v0.
Proof.
  destruct m as [[v|]|[[v|]|m']]; simpl; try discriminate; intros _;
    eexists; reflexivity.
Qed.

Lemma filter_or_nil {A} (p q : A -> bool) (l : list A) :
  List.filter (fun e => p e || q e) l = [] ->
  List.filter p l = [] /\ List.filter q l = [].
Proof.
  induction l as [|e l IH]; simpl; [auto|].
  destruct (p e), (q e); simpl; try discriminate. exact IH.
Qed.

Lemma log_progress_no_step epoch step i_accum nbpe images losses :
  keeps (quiet (fun e => is_optimizer_step e || is_clamp e))
        (log_progress epoch step i_accum nbpe images losses).
Proof.
  keeps_with (quiet_refl (fun e => is_optimizer_step e || is_clamp e))
             (quiet_trans (fun e => is_optimizer_step e || is_clamp e)).
Qed.

Lemma save_checkpoint_no_step epoch step :
  keeps (quiet (fun e => is_optimizer_step e || is_clamp e))
        (save_checkpoint epoch step).
Proof.
  keeps_with (quiet_refl (fun e => is_optimizer_step e || is_clamp e))
             (quiet_trans (fun e => is_optimizer_step e || is_clamp e)).
Qed.

(** C4. The part of an iteration that steps the optimizer clamps the
    logit scale right after the finalization, with gradient tracking off
    and before anything else happens: when the unwrapped model has the
    attribute, with the value [v0] before the step, the optimizer writes
    [w = optimizer_fn (calls s) v0], and the value at the end of the
    iteration is [min (max w 0) (ln 100)]: it lies in [[0, ln 100]], it
    is [w] itself when [w] lies there already, 0 when [w] is negative and
    [ln 100] when [w] is larger.  The object reached through
    [unwrap_model] is the one that changed, and the rest of the iteration
    steps the optimizer no more and clamps no more. *)
Theorem logit_scale_clamped (epoch step i_accum nbpe : Z) (images : list Elt)
    (losses : option (Dict.t R)) (s s' : state) (r : exn + unit)
    (evs : list event) :
  hasattr_logit_scale (unwrap_model (net s)) = true ->
  finish_step epoch step i_accum nbpe images losses s = (r, s', evs) ->
  (exists rest,
      evs = finalization_events ++ ClampLogitScale false :: rest /\
      count_events is_optimizer_step rest = 0%nat /\
      count_events is_clamp rest = 0%nat) /\
  exists v0,
    getattr_logit_scale (unwrap_model (net s)) = Some v0 /\
    let w := optimizer_fn (calls s) v0 in
    let v := Rmin (Rmax w 0) (ln 100) in
    unwrap_model (net s') = Net (Some v) /\
    getattr_logit_scale (unwrap_model (net s')) = Some v /\
    net s' = clamp_logit_scale (map_logit_scale (optimizer_fn (calls s)) (net s)) /\
    (0 <= v <= ln 100)%R /\
    ((w < 0)%R -> v = 0%R) /\
    ((0 <= w <= ln 100)%R -> v = w) /\
    ((ln 100 < w)%R -> v = ln 100).
Proof.
  intros Hattr H. unfold finish_step in H.
  apply bind_run in H as [(e & H & _) | (u & s1 & t1 & t1' & H1 & H & ->)];
    [rewrite gradient_finalization_run in H; discriminate|].
  rewrite gradient_finalization_run in H1. inversion H1; subst; clear H1.
  apply bind_run in H as [(e & H & _) | (u' & s2 & t2 & t2' & H2 & H & ->)].
  { destruct (accum_freq args >? 1); discriminate. }
  assert (Hs2 : net s2 = map_logit_scale (optimizer_fn (calls s)) (net s)
                /\ t2 = []).
  { destruct (accum_freq args >? 1); inversion H2; subst; auto. }
  destruct Hs2 as [Hs2 ->]. clear H2.
  assert (Hattr2 : hasattr_logit_scale (unwrap_model (net s2)) = true)
    by (rewrite Hs2, hasattr_map_logit_scale; exact Hattr).
  apply bind_run in H as [(e & H & _) | (u'' & s3 & t3 & t3' & H3 & H & ->)].
  { unfold clamp_step, bind, get_state in H. rewrite Hattr2 in H. discriminate. }
  unfold clamp_step, bind, get_state in H3. rewrite Hattr2 in H3.
  inversion H3; subst; clear H3.
  match type of H with
  | ?m _ = _ =>
      assert (K : keeps same_net m);
      [|assert (Q : keeps (quiet (fun e => is_optimizer_step e || is_clamp e)) m)]
  end.
  { keeps_with same_net_refl same_net_trans;
      first [apply log_progress_same_net | apply save_checkpoint_same_net]. }
  { keeps_using (quiet_refl (fun e => is_optimizer_step e || is_clamp e))
                (quiet_trans (fun e => is_optimizer_step e || is_clamp e))
      ltac:(first [apply log_progress_no_step | apply save_checkpoint_no_step]). }
  pose proof (K _ _ _ _ H) as Hn. pose proof (Q _ _ _ _ H) as Hq.
  unfold same_net in Hn. unfold quiet in Hq. split.
  - exists t3'. split; [simpl; reflexivity|].
    apply filter_or_nil in Hq as [Hq1 Hq2].
    unfold count_events. rewrite Hq1, Hq2. split; reflexivity.
  - destruct (hasattr_getattr _ Hattr) as [v0 Hv0]. exists v0.
    split; [exact Hv0|]. cbv zeta.
    assert (Hnet : net s' = clamp_logit_scale
                              (map_logit_scale (optimizer_fn (calls s)) (net s))).
    { rewrite Hn. simpl. rewrite Hs2. reflexivity. }
    pose proof (clamp_logit_scale_value (optimizer_fn (calls s)) _ _ Hv0) as Hv.
    rewrite <- Hnet in Hv.
    split; [exact Hv|]. split; [rewrite Hv; reflexivity|].
    split; [exact Hnet|]. apply clamp_cases.
Qed.

(** ** The progress logger and its meters *)













(** ** The recomputation pass *)



Lemma get_tagged g key d :
  Dict.get key (tagged g d) = option_map (tag g) (Dict.get key d).
Proof.
  induction d as [|[k v] d IH]; simpl; [reflexivity|].
  destruct (String.eqb key k); [reflexivity | exact IH].
Qed.

Lemma remove_tagged g key d :
  Dict.remove key (tagged g d) = tagged g (Dict.remove key d).
Proof.
  induction d as [|[k v] d IH]; simpl; [reflexivity|].
  destruct (String.eqb key k); [reflexivity|]. simpl. rewrite IH. reflexivity.
Qed.



Lemma split_no_accum_tagged out :
  split_no_accum (tagged true out)
  = match Dict.get "logit_scale" out with
    | None => inl (KeyError "logit_scale")
    | Some ls =>
        inr (no_accum_of out ls,
             match Dict.get "logit_bias" (Dict.remove "logit_scale" out) with
             | Some _ =>
                 tagged true (Dict.remove "logit_bias" (Dict.remove "logit_scale" out))
             | None => tagged true (Dict.remove "logit_scale" out)
             end)
    end.
Proof.
  unfold split_no_accum, Dict.pop, no_accum_of.
  rewrite get_tagged. destruct (Dict.get "logit_scale" out) as [ls|]; simpl;
    [|reflexivity].
  rewrite remove_tagged, get_tagged.
  destruct (Dict.get "logit_bias" (Dict.remove "logit_scale" out)) as [lb|]; simpl;
    [|reflexivity].
  rewrite remove_tagged. reflexivity.
Qed.


(** ** The teacher on the accumulating path *)

Lemma recompute_all_no_teacher a js cur :
  keeps (quiet is_teacher) (recompute_all a js cur).
Proof.
  revert cur. induction js as [|j js IH]; intros cur; simpl.
  - apply (keeps_ret _ (quiet_refl _)).
  - apply (keeps_bind _ (quiet_trans _)); [|intros r; apply IH].
    keeps_with (quiet_refl is_teacher) (quiet_trans is_teacher).
Qed.

Lemma loop_body_no_teacher epoch nbpe i batch :
  (accum_freq args =? 1) = false ->
  keeps (quiet is_teacher) (loop_body epoch nbpe i batch).
Proof.
  intros HF. unfold loop_body. rewrite HF.
  keeps_using (quiet_refl is_teacher) (quiet_trans is_teacher)
    ltac:(apply recompute_all_no_teacher).
Qed.

Lemma train_one_epoch_no_teacher epoch :
  (accum_freq args =? 1) = false ->
  keeps (quiet is_teacher) (train_one_epoch epoch).
Proof.
  intros HF. unfold train_one_epoch, run_batches.
  keeps_using (quiet_refl is_teacher) (quiet_trans is_teacher)
    ltac:(apply loop_body_no_teacher; exact HF).
Qed.

Lemma for_enumerate_ext {A} (l : list A) (body1 body2 : Z -> A -> M unit) i s :
  (forall j x s', body1 j x s' = body2 j x s') ->
  for_enumerate i l body1 s = for_enumerate i l body2 s.
Proof.
  intros Hb. revert i s. induction l as [|x l IH]; intros i s; simpl; [reflexivity|].
  unfold bind. rewrite Hb. destruct (body2 i x s) as [[[e|u] s1] t1]; [reflexivity|].
  rewrite IH. reflexivity.
Qed.

Lemma train_one_epoch_run epoch s :
  train_one_epoch epoch s
  = let '(r, s', t) := run_batches epoch s in
    (r, s', ModelTrain :: (if distill args then [DistModelEval] else []) ++ t).
Proof.
  unfold train_one_epoch, bind, emit, when, ret.
  destruct (distill args); destruct (run_batches epoch s) as [[r s'] t]; reflexivity.
Qed.

(** ** Optimizer steps, scheduler calls and the step counter *)

Lemma count_events_app p l1 l2 :
  count_events p (l1 ++ l2) = (count_events p l1 + count_events p l2)%nat.
Proof. unfold count_events. rewrite List.filter_app, length_app. reflexivity. Qed.

Lemma count_events_quiet p l : List.filter p l = [] -> count_events p l = 0%nat.
Proof. unfold count_events. intros ->. reflexivity. Qed.

Lemma scheduler_calls_app l1 l2 :
  scheduler_calls (l1 ++ l2) = scheduler_calls l1 ++ scheduler_calls l2.
Proof. unfold scheduler_calls. apply flat_map_app. Qed.

Lemma scheduler_calls_quiet l : List.filter is_scheduler l = [] -> scheduler_calls l = [].
Proof.
  induction l as [|e l IH]; [reflexivity|]. simpl.
  destruct e; simpl; try exact IH. discriminate.
Qed.

Lemma steps_taken_from_quiet last l tail :
  List.filter is_scheduler l = [] ->
  steps_taken_from last (l ++ tail)
  = repeat last (count_events is_optimizer_step l) ++ steps_taken_from last tail.
Proof.
  induction l as [|e l IH]; [reflexivity|]. simpl.
  destruct e; simpl; intros H; try discriminate;
    try (rewrite (IH H); reflexivity);
    unfold count_events; simpl; rewrite (IH H); reflexivity.
Qed.

Lemma div_succ (F i : Z) :
  1 <= F -> 0 <= i ->
  (i + 1) / F = i / F + (if (i + 1) mod F =? 0 then 1 else 0).
Proof.
  intros HF Hi.
  pose proof (Z.div_mod i F ltac:(lia)) as Hd.
  pose proof (Z.mod_pos_bound i F ltac:(lia)) as Hb.
  destruct (Z.eq_dec (i mod F + 1) F) as [E|E].
  - assert (H1 : (i + 1) mod F = 0).
    { symmetry. apply (Z.mod_unique_pos _ _ (i / F + 1)); lia. }
    rewrite H1. simpl. symmetry. apply (Z.div_unique_pos _ _ _ 0); lia.
  - assert (H1 : (i + 1) mod F = i mod F + 1).
    { symmetry. apply (Z.mod_unique_pos _ _ (i / F)); lia. }
    rewrite H1. destruct (Z.eqb_spec (i mod F + 1) 0); [lia|].
    symmetry. apply (Z.div_unique_pos _ _ _ (i mod F + 1)); lia.
Qed.

Lemma recompute_all_no_scheduler a js cur :
  keeps (quiet is_scheduler) (recompute_all a js cur).
Proof.
  revert cur. induction js as [|j js IH]; intros cur; simpl.
  - apply (keeps_ret _ (quiet_refl _)).
  - apply (keeps_bind _ (quiet_trans _)); [|intros r; apply IH].
    keeps_with (quiet_refl is_scheduler) (quiet_trans is_scheduler).
Qed.

Lemma recompute_all_no_step a js cur :
  keeps (quiet is_optimizer_step) (recompute_all a js cur).
Proof.
  revert cur. induction js as [|j js IH]; intros cur; simpl.
  - apply (keeps_ret _ (quiet_refl _)).
  - apply (keeps_bind _ (quiet_trans _)); [|intros r; apply IH].
    keeps_with (quiet_refl is_optimizer_step) (quiet_trans is_optimizer_step).
Qed.

Lemma step_no_accum_no_step images texts :
  keeps (quiet is_optimizer_step) (step_no_accum images texts).
Proof.
  unfold step_no_accum, teacher_forward.
  keeps_with (quiet_refl is_optimizer_step) (quiet_trans is_optimizer_step).
Qed.

Lemma step_accum_no_step i images texts :
  keeps (quiet is_optimizer_step) (step_accum i images texts).
Proof.
  keeps_using (quiet_refl is_optimizer_step) (quiet_trans is_optimizer_step)
    ltac:(apply recompute_all_no_step).
Qed.

Lemma finalization_events_one_step :
  count_events is_optimizer_step finalization_events = 1%nat.
Proof.
  unfold finalization_events.
  destruct scaler, (horovod args), (grad_clip_norm args); reflexivity.
Qed.

Lemma finish_step_one_step epoch step i_accum nbpe images losses s r s' evs :
  finish_step epoch step i_accum nbpe images losses s = (r, s', evs) ->
  count_events is_optimizer_step evs = 1%nat.
Proof.
  intros H. unfold finish_step in H.
  run_bind H as H1; rewrite gradient_finalization_run in H1; [discriminate|].
  inversion H1; subst; clear H1.
  match type of H with
  | ?m _ = _ => assert (K : keeps (quiet is_optimizer_step) m)
  end.
  { keeps_with (quiet_refl is_optimizer_step) (quiet_trans is_optimizer_step). }
  apply K in H. rewrite count_events_app, finalization_events_one_step.
  rewrite (count_events_quiet _ _ H). reflexivity.
Qed.

Lemma keeps_no_events_preprocess tuple_images tuple_texts s r s' evs :
  during_training_data_preprocess tuple_images tuple_texts s = (r, s', evs) ->
  evs = [].
Proof.
  revert s r s' evs. change (keeps no_events
    (during_training_data_preprocess tuple_images tuple_texts)).
  keeps_with no_events_refl no_events_trans.
Qed.

Lemma loop_body_tail_no_scheduler epoch nbpe step i_accum i (batch : list RawImage * list RawText) :
  keeps (quiet is_scheduler)
    (bind (during_training_data_preprocess (fst batch) (snd batch)) (fun it =>
     bind time_time (fun t =>
     bind get_state (fun s =>
     bind (meter_update (data_time_m s) (t - end_ s) 1) (fun m =>
     bind (modify (set_data_time_m m)) (fun _ =>
     bind (emit ZeroGrad) (fun _ =>
     if accum_freq args =? 1 then
       bind (step_no_accum (fst it) (snd it)) (fun losses =>
       finish_step epoch step i_accum nbpe (fst it) (Some losses))
     else
       bind (step_accum i (fst it) (snd it)) (fun r =>
       match r with
       | None => ret tt
       | Some (images, losses) =>
           finish_step epoch step i_accum nbpe images losses
       end)))))))).
Proof.
  unfold step_no_accum, teacher_forward.
  keeps_using (quiet_refl is_scheduler) (quiet_trans is_scheduler)
    ltac:(apply recompute_all_no_scheduler).
Qed.

(** One iteration: the scheduler call first (unless disabled), then no
    other scheduler call, and one optimizer step exactly when the
    iteration closes an accumulation window. *)
Lemma loop_body_shape epoch nbpe i batch s s' evs :
  1 <= accum_freq args ->
  loop_body epoch nbpe i batch s = (inr tt, s', evs) ->
  exists rest,
    evs = (if skip_scheduler args then []
           else [Scheduler (nbpe * epoch + i / accum_freq args)]) ++ rest /\
    List.filter is_scheduler rest = [] /\
    count_events is_optimizer_step rest
    = (if (i + 1) mod accum_freq args =? 0 then 1%nat else 0%nat).
Proof.
  intros HF H. unfold loop_body in H.
  run_ok H as H1.
  match type of H with _ = (_, _, ?t) => exists t end.
  split; [|split].
  - f_equal. destruct (skip_scheduler args); run_step H1; reflexivity.
  - exact (loop_body_tail_no_scheduler _ _ _ _ _ _ _ _ _ _ H).
  - clear H1.
    run_ok H as H1.
    apply (keeps_no_events_preprocess) in H1. subst.
    run_ok H as H1. run_step H1.
    run_ok H as H1. run_step H1.
    run_ok H as H1.
    apply (keeps_meter_update _ no_events_refl) in H1. unfold no_events in H1. subst.
    run_ok H as H1. run_step H1.
    run_ok H as H1. run_step H1.
    unfold count_events. simpl.
    match goal with
    | |- context [List.filter is_optimizer_step ?t] =>
        change (length (List.filter is_optimizer_step t))
          with (count_events is_optimizer_step t)
    end.
    destruct (Z.eqb_spec (accum_freq args) 1) as [E|E].
    + run_ok H as H1.
      apply step_no_accum_no_step in H1. apply finish_step_one_step in H.
      rewrite count_events_app, (count_events_quiet _ _ H1), H.
      rewrite E, Z.mod_1_r. reflexivity.
    + run_ok H as H1.
      pose proof (step_accum_no_step _ _ _ _ _ _ _ H1) as Hq.
      rewrite count_events_app, (count_events_quiet _ _ Hq). simpl.
      unfold step_accum in H1. run_ok H1 as H2. clear H2.
      pose proof (Z.mod_pos_bound (i + 1) (accum_freq args) ltac:(lia)) as Hb.
      destruct (Z.gtb_spec ((i + 1) mod accum_freq args) 0) as [G|G].
      * run_step H1. run_step H.
        destruct (Z.eqb_spec ((i + 1) mod accum_freq args) 0); [lia | reflexivity].
      * run_ok H1 as H2. clear H2. run_ok H1 as H2. clear H2.
        run_ok H1 as H2. clear H2. run_step H1.
        match type of H with
        | (let '(_, _) := ?p in _) _ = _ => destruct p
        end.
        apply finish_step_one_step in H. rewrite H.
        destruct (Z.eqb_spec ((i + 1) mod accum_freq args) 0); [reflexivity | lia].
Qed.

Lemma map_seq_succ {A} (f : nat -> A) (n : nat) :
  map f (seq 0 (S n)) = f 0%nat :: map (fun k => f (S k)) (seq 0 n).
Proof. simpl. rewrite <- seq_shift, map_map. reflexivity. Qed.

(** The loop from index [i] on: scheduler calls, number of optimizer
    steps, and the step number in force at each optimizer step. *)
Lemma loop_shape epoch nbpe l :
  1 <= accum_freq args ->
  forall i s s' evs,
    0 <= i ->
    for_enumerate i l (loop_body epoch nbpe) s = (inr tt, s', evs) ->
    scheduler_calls evs
    = (if skip_scheduler args then []
       else map (fun k => nbpe * epoch + (i + Z.of_nat k) / accum_freq args)
              (seq 0 (length l))) /\
    count_events is_optimizer_step evs
    = Z.to_nat ((i + Z.of_nat (length l)) / accum_freq args - i / accum_freq args) /\
    (skip_scheduler args = false ->
     forall last,
       steps_taken_from last evs
       = map (fun q => Some (nbpe * epoch + i / accum_freq args + Z.of_nat q))
           (seq 0 (Z.to_nat ((i + Z.of_nat (length l)) / accum_freq args
                             - i / accum_freq args)))).
Proof.
  intros HF. set (F := accum_freq args) in HF |- *.
  induction l as [|x l IH]; intros i s s' evs Hi H.
  - run_step H. simpl length. rewrite Z.add_0_r, Z.sub_diag.
    simpl. destruct (skip_scheduler args); auto.
  - simpl in H. run_ok H as H1.
    match type of H1 with _ = (inr ?u, _, _) => destruct u end.
    apply loop_body_shape in H1 as (rest & Hevs & Hq & Hc); [|exact HF].
    fold F in Hevs, Hc. rewrite Hevs. clear Hevs.
    apply IH in H; [|lia]. destruct H as (Hs & Hn & Ht).
    pose proof (div_succ F i HF Hi) as Hdiv.
    assert (Hmono : (i + 1) / F <= (i + 1 + Z.of_nat (length l)) / F)
      by (apply Z.div_le_mono; lia).
    assert (Hlen : i + Z.of_nat (length (x :: l)) = i + 1 + Z.of_nat (length l))
      by (simpl length; lia).
    rewrite Hlen.
    set (D := Z.to_nat ((i + 1 + Z.of_nat (length l)) / F - (i + 1) / F)) in Hn, Ht |- *.
    assert (Hsteps : Z.to_nat ((i + 1 + Z.of_nat (length l)) / F - i / F)
                     = Nat.add (if (i + 1) mod F =? 0 then 1%nat else 0%nat) D).
    { subst D. destruct ((i + 1) mod F =? 0); lia. }
    rewrite Hsteps.
    split; [|split].
    + rewrite !scheduler_calls_app, (scheduler_calls_quiet _ Hq), Hs.
      destruct (skip_scheduler args); [reflexivity|].
      simpl length. rewrite map_seq_succ. simpl. rewrite Z.add_0_r.
      f_equal. apply map_ext. intros k. do 2 f_equal. lia.
    + rewrite !count_events_app, Hc, Hn.
      replace (count_events is_optimizer_step
                 (if skip_scheduler args then []
                  else [Scheduler (nbpe * epoch + i / F)]))
        with 0%nat by (destruct (skip_scheduler args); reflexivity).
      reflexivity.
    + intros Hskip last. rewrite Hskip. simpl app at 1.
      simpl steps_taken_from.
      rewrite (steps_taken_from_quiet _ _ _ Hq), Hc, (Ht Hskip).
      destruct ((i + 1) mod F =? 0).
      * simpl repeat. simpl Nat.add. rewrite map_seq_succ. simpl app.
        rewrite Z.add_0_r. f_equal. apply map_ext. intros q. f_equal. lia.
      * simpl. apply map_ext. intros q. f_equal. lia.
Qed.

(** An epoch that runs to its end: the optimizer steps, the scheduler
    calls and the step numbers in force at the optimizer steps. *)
Lemma epoch_counts (epoch : Z) (s s' : state) (evs : list event) :
  1 <= accum_freq args ->
  Z.of_nat (length (batches dataloader)) = num_batches dataloader ->
  train_one_epoch epoch s = (inr tt, s', evs) ->
  let F := accum_freq args in
  let num_batches_per_epoch := num_batches dataloader / F in
  count_events is_optimizer_step evs = Z.to_nat (num_batches dataloader / F) /\
  scheduler_calls evs
  = (if skip_scheduler args then []
     else map (fun i => num_batches_per_epoch * epoch + Z.of_nat i / F)
            (seq 0 (length (batches dataloader)))) /\
  (skip_scheduler args = false ->
   steps_taken evs
   = map (fun k => Some (num_batches_per_epoch * epoch + Z.of_nat k))
       (seq 0 (Z.to_nat num_batches_per_epoch))).
Proof.
  intros HF HB H F nbpe. unfold train_one_epoch, run_batches in H.
  run_ok H as H1. run_step H1.
  run_ok H as H1.
  match type of H1 with
  | _ = (_, _, ?t) =>
      assert (Hd : List.filter is_scheduler t = []
                   /\ count_events is_optimizer_step t = 0%nat)
        by (destruct (distill args); run_step H1; split; reflexivity);
      destruct Hd as (Hpre1 & Hpre2); clear H1; set (pre := t) in H, Hpre1, Hpre2 |- *
  end.
  run_ok H as H1. run_step H1.
  run_ok H as H1.
  destruct (Z.eqb_spec (accum_freq args) 0) as [E|E]; [lia|]. run_step H1.
  run_ok H as H1. destruct (num_samples dataloader + 1 <=? 0); run_step H1.
  run_ok H as H1. run_step H1.
  run_ok H as H1. run_step H1.
  run_ok H as H1. run_step H1.
  run_ok H as H1. run_step H1.
  run_ok H as H1. run_step H1.
  run_ok H as H1. run_step H1.
  apply loop_shape in H; [|exact HF|lia]. destruct H as (Hs & Hn & Ht).
  assert (H0 : 0 / accum_freq args = 0) by (apply Z.div_0_l; lia).
  rewrite Z.add_0_l, H0, Z.sub_0_r, HB in Hn, Ht.
  fold F in Hs, Hn, Ht. fold nbpe in Hs, Ht.
  split; [|split].
  - rewrite !count_events_app, Hpre2, Hn. reflexivity.
  - rewrite !scheduler_calls_app, (scheduler_calls_quiet _ Hpre1), Hs. simpl.
    destruct (skip_scheduler args); [reflexivity|].
    apply map_ext. intros k. rewrite Z.add_0_l. reflexivity.
  - intros Hskip. unfold steps_taken.
    cbn [app steps_taken_from].
    rewrite (steps_taken_from_quiet _ _ _ Hpre1), Hpre2.
    cbn [repeat app steps_taken_from].
    rewrite (Ht Hskip). apply map_ext. intros k. f_equal. lia.
Qed.

(** A loop that runs to its end is the sequence of the runs of its body. *)
Lemma for_enumerate_segments {A} (body : Z -> A -> M unit) (l : list A) :
  forall i s s' evs,
    for_enumerate i l body s = (inr tt, s', evs) ->
    exists segs,
      evs = concat segs /\ length segs = length l /\
      forall k seg, nth_error segs k = Some seg ->
        exists x sk sk',
          nth_error l k = Some x /\
          body (i + Z.of_nat k) x sk = (inr tt, sk', seg).
Proof.
  induction l as [|x l IH]; intros i s s' evs H.
  - run_step H. exists []. split; [reflexivity|]. split; [reflexivity|].
    intros [|k] seg Hk; discriminate.
  - simpl in H. run_ok H as H1.
    match type of H1 with _ = (inr ?u, _, _) => destruct u end.
    destruct (IH _ _ _ _ H) as (segs & Hevs & Hlen & Hseg).
    match type of H1 with _ = (_, _, ?t) => exists (t :: segs) end.
    split; [simpl; rewrite Hevs; reflexivity|].
    split; [simpl; rewrite Hlen; reflexivity|].
    intros [|k] seg Hk; simpl in Hk.
    + inversion Hk; subst. eexists _, _, _. split; [reflexivity|].
      rewrite Z.add_0_r. exact H1.
    + destruct (Hseg _ _ Hk) as (y & sk & sk' & Hy & Hrun).
      exists y, sk, sk'. split; [exact Hy|].
      replace (i + Z.of_nat (S k)) with (i + 1 + Z.of_nat k) by lia. exact Hrun.
Qed.


(** ** Feature substitution in the recomputation phase *)















(** *** Gradient flags *)

(** What was computed under [torch.no_grad] carries no gradient; what a
    normal forward pass computed does, in each of its slices. *)
Lemma requires_grad_cached rows : requires_grad (tag false rows) = false.
Proof. induction rows as [|x rows IH]; [reflexivity | exact IH]. Qed.

Lemma requires_grad_fresh rows : rows <> [] -> requires_grad (tag true rows) = true.
Proof. destruct rows; [congruence | reflexivity]. Qed.

Lemma tag_slices g rows : map snd (tag g rows) = repeat g (length rows).
Proof.
  induction rows as [|x rows IH]; [reflexivity|]. simpl. rewrite <- IH. reflexivity.
Qed.

(** *** Caching *)

Lemma nodup_cache_features out feats :
  List.NoDup (Dict.keys feats) -> List.NoDup (Dict.keys (cache_features out feats)).
Proof.
  unfold cache_features. revert feats.
  induction out as [|[k v] out IH]; intros feats H; simpl; [exact H|].
  apply IH. destruct (Dict.get k feats); apply nodup_setitem; exact H.
Qed.

Lemma get_cache_features key out feats :
  List.NoDup (Dict.keys out) ->
  Dict.get key (cache_features out feats)
  = match Dict.get key out with
    | Some v => Some (match Dict.get key feats with
                      | Some l => l ++ [v]
                      | None => [v]
                      end)
    | None => Dict.get key feats
    end.
Proof.
  unfold cache_features. revert feats.
  induction out as [|[k v] out IH]; intros feats Hnd; simpl; [reflexivity|].
  inversion Hnd as [|? ? Hk Hnd']; subst.
  rewrite IH by exact Hnd'.
  destruct (String.eqb_spec key k) as [->|Hne].
  - apply get_none_not_in in Hk. rewrite Hk.
    destruct (Dict.get k feats); rewrite get_setitem_same; reflexivity.
  - destruct (Dict.get k feats); rewrite get_setitem_other by exact Hne;
      reflexivity.
Qed.

Lemma get_cached_window key (w : list (Dict.t tensor)) feats :
  Forall (fun o => List.NoDup (Dict.keys o)) w ->
  Dict.get key (fold_left (fun acc o => cache_features o acc) w feats)
  = match Dict.get key feats, picks key w with
    | None, [] => None
    | None, l => Some l
    | Some l0, l => Some (l0 ++ l)
    end.
Proof.
  revert feats. induction w as [|o w IH]; intros feats Hw; simpl.
  - destruct (Dict.get key feats); [rewrite app_nil_r|]; reflexivity.
  - inversion Hw as [|? ? Ho Hw']; subst.
    rewrite IH by exact Hw'. rewrite get_cache_features by exact Ho.
    unfold picks at 2. simpl. fold (picks key w).
    destruct (Dict.get key o) as [v|], (Dict.get key feats) as [l0|]; simpl;
      try reflexivity.
    rewrite <- app_assoc. reflexivity.
Qed.

Lemma keys_tagged g d : Dict.keys (tagged g d) = Dict.keys d.
Proof. unfold Dict.keys, tagged. rewrite map_map. reflexivity. Qed.



Lemma fold_cache_map (w : list (list Elt * list Elt * Dict.t (list Elt))) feats :
  fold_left (fun acc b => cache_features (tagged false (strip (snd b))) acc) w feats
  = fold_left (fun acc o => cache_features o acc)
      (map (fun b => tagged false (strip (snd b))) w) feats.
Proof.
  revert feats. induction w as [|b w IH]; intros feats; simpl; [reflexivity|].
  apply IH.
Qed.

Lemma nodup_fold_cache (w : list (Dict.t tensor)) feats :
  List.NoDup (Dict.keys feats) ->
  List.NoDup (Dict.keys (fold_left (fun acc o => cache_features o acc) w feats)).
Proof.
  revert feats. induction w as [|o w IH]; intros feats H; simpl; [exact H|].
  apply IH. apply nodup_cache_features. exact H.
Qed.

Lemma picks_all key (w : list (list Elt * list Elt * Dict.t (list Elt))) :
  Forall (fun b => Dict.get key (strip (snd b)) <> None) w ->
  picks key (map (fun b => tagged false (strip (snd b))) w)
  = map (fun b => tag false (lookup key (strip (snd b)))) w.
Proof.
  induction w as [|b w IH]; intros H; [reflexivity|].
  inversion H as [|? ? Hb Hw]; subst.
  unfold picks in IH |- *. simpl. rewrite (IH Hw), get_tagged. unfold lookup.
  destruct (Dict.get key (strip (snd b))); [reflexivity | contradiction].
Qed.

Lemma cache_batch_run images texts s a :
  accum s = Some a ->
  cache_batch images texts s
  = (inr tt,
     set_accum (Some {| accum_images := accum_images a ++ [images];
                        accum_texts := accum_texts a ++ [texts];
                        accum_features :=
                          cache_features
                            (tagged false (strip (model_fn (calls s) images texts)))
                            (accum_features a) |}) (ticked s),
     [Forward false images texts]).
Proof.
  intros Ha. unfold cache_batch. unfold bind at 1. rewrite forward_run.
  unfold bind at 1, get_accum at 1. unfold bind at 1, get_state at 1.
  change (accum (ticked s)) with (accum s). rewrite Ha.
  unfold ret at 1, modify, Dict.pop. simpl snd.
  fold (tagged false (model_fn (calls s) images texts)).
  rewrite !remove_tagged. reflexivity.
Qed.

Lemma holds_snoc a w images texts out :
  holds a w ->
  holds {| accum_images := accum_images a ++ [images];
           accum_texts := accum_texts a ++ [texts];
           accum_features :=
             cache_features (tagged false (strip out)) (accum_features a) |}
    (w ++ [(images, texts, out)]).
Proof.
  intros (Hi & Ht & Hf). unfold holds. simpl.
  rewrite !map_app, fold_left_app, Hi, Ht, Hf. auto.
Qed.

(** *** Building the loss inputs *)

Lemma build_inputs_other items fresh j acc inputs key :
  build_inputs items fresh j acc = inr inputs ->
  ~ In key (Dict.keys items) ->
  Dict.get key inputs = Dict.get key acc.
Proof.
  revert acc. induction items as [|[k l] items IH]; intros acc H Hnin; simpl in H, Hnin |- *.
  - inversion H; subst. reflexivity.
  - destruct (Dict.get k fresh) as [f|]; [|discriminate].
    rewrite (IH _ H) by (intros Hc; apply Hnin; right; exact Hc).
    apply get_setitem_other. intros ->. apply Hnin. left. reflexivity.
Qed.

Lemma build_inputs_get items fresh j acc inputs key accumulated :
  build_inputs items fresh j acc = inr inputs ->
  List.NoDup (Dict.keys items) ->
  In (key, accumulated) items ->
  exists f,
    Dict.get key fresh = Some f /\
    Dict.get key inputs
    = Some (torch_cat (firstn j accumulated ++ [f] ++ skipn (S j) accumulated)).
Proof.
  revert acc. induction items as [|[k l] items IH]; intros acc H Hnd Hin; simpl in H, Hnd, Hin |- *.
  - contradiction.
  - inversion Hnd as [|? ? Hk Hnd']; subst.
    destruct (Dict.get k fresh) as [f|] eqn:Hf; [|discriminate].
    destruct Hin as [E|Hin].
    + inversion E; subst. exists f. split; [exact Hf|].
      rewrite (build_inputs_other _ _ _ _ _ _ H Hk). apply get_setitem_same.
    + exact (IH _ H Hnd' Hin).
Qed.

Lemma substituted_slots {A} (l : list A) (f : A) (j : nat) :
  (j < length l)%nat ->
  length (firstn j l ++ [f] ++ skipn (S j) l) = length l /\
  forall i, nth_error (firstn j l ++ [f] ++ skipn (S j) l) i
            = if Nat.eqb i j then Some f else nth_error l i.
Proof.
  revert j. induction l as [|x l IH]; intros j Hj; simpl in Hj; [lia|].
  destruct j as [|j].
  - simpl. split; [reflexivity|]. intros [|i]; reflexivity.
  - destruct (IH j ltac:(lia)) as (Hlen & Hnth).
    split.
    + simpl. simpl in Hlen. rewrite Hlen. reflexivity.
    + intros [|i]; [reflexivity|]. simpl. apply Hnth.
Qed.

(** *** The passes of the recomputation loop *)

Lemma recompute_run a j s r s' evs :
  recompute a j s = (inr r, s', evs) ->
  calls s' = S (calls s) /\
  exists kwargs, loss_calls evs = [kwargs] /\ recompute_kwargs a j (calls s) kwargs.
Proof.
  intros H. unfold recompute, list_index in H.
  destruct (nth_error (accum_images a) j) as [images|] eqn:Hi;
    [|run_bind H as H1; run_step H1; discriminate].
  destruct (nth_error (accum_texts a) j) as [texts|] eqn:Ht;
    [|run_ok H as H1; run_step H1; run_bind H as H1; run_step H1; discriminate].
  run_ok H as H1. run_step H1.
  run_ok H as H1. run_step H1.
  run_ok H as H1. rewrite forward_run in H1. inversion H1; subst; clear H1.
  fold (tagged true (model_fn (calls s) images texts)) in H.
  destruct (split_no_accum (tagged true (model_fn (calls s) images texts)))
    as [e|sp] eqn:Hsp; [run_bind H as H1; run_step H1; discriminate|].
  run_ok H as H1. run_step H1.
  destruct (build_inputs (accum_features a) (snd sp) j []) as [e|inputs] eqn:Hb;
    [run_bind H as H1; run_step H1; discriminate|].
  run_ok H as H1. run_step H1.
  run_ok H as H1. rewrite loss_and_backward_run in H1.
  destruct (loss_fn (inputs ++ fst sp)); [discriminate|].
  inversion H1; subst; clear H1. run_step H.
  split; [reflexivity|].
  exists (inputs ++ fst sp). split; [reflexivity|].
  exists images, texts, sp, inputs. auto.
Qed.

Lemma recompute_all_loss_calls a js :
  forall cur s r s' evs,
    recompute_all a js cur s = (inr r, s', evs) ->
    forall idx j, nth_error js idx = Some j ->
      exists kwargs,
        nth_error (loss_calls evs) idx = Some kwargs /\
        recompute_kwargs a j (calls s + idx) kwargs.
Proof.
  induction js as [|j0 js IH]; intros cur s r s' evs H idx j Hidx.
  - destruct idx; discriminate.
  - simpl in H. run_ok H as H1.
    apply recompute_run in H1 as (Hcalls & kw & Hkw & Hrk).
    unfold loss_calls in Hkw, IH |- *. rewrite flat_map_app, Hkw.
    destruct idx as [|idx]; simpl in Hidx.
    + inversion Hidx; subst. exists kw. split; [reflexivity|].
      rewrite Nat.add_0_r. exact Hrk.
    + destruct (IH _ _ _ _ _ H idx j Hidx) as (kw' & Hn & Hrk').
      exists kw'. split; [exact Hn|].
      rewrite Hcalls in Hrk'. replace (calls s + S idx)%nat with (S (calls s) + idx)%nat by lia.
      exact Hrk'.
Qed.

Lemma split_no_accum_rest out sp :
  split_no_accum (tagged true out) = inr sp -> snd sp = tagged true (strip out).
Proof.
  rewrite split_no_accum_tagged. unfold strip.
  destruct (Dict.get "logit_scale" out); [|discriminate].
  destruct (Dict.get "logit_bias" (Dict.remove "logit_scale" out)) eqn:E;
    intros H; inversion H; subst; simpl; [reflexivity|].
  rewrite (remove_absent _ _ E). reflexivity.
Qed.

(** C1. At the micro-batch that closes a window of [K = accum_freq]
    micro-batches, the loss call of pass [j] receives, for a feature name
    that every micro-batch of the window produced, the concatenation of
    [K] pieces in batch order: piece [j] is the output just recomputed
    with gradients for micro-batch [j], every other piece [i] is the
    output cached without gradients for micro-batch [i]. *)
Theorem feature_substitution (i : Z) (images texts : list Elt) (s s' : state)
    (a : accum_state) (w : list (list Elt * list Elt * Dict.t (list Elt)))
    (r : list Elt * option (Dict.t R)) (evs : list event)
    (j : nat) (key : string) :
  let window := w ++ [(images, texts, model_fn (calls s) images texts)] in
  accum s = Some a ->
  holds a w ->
  accum_freq args = Z.of_nat (length window) ->
  Forall (fun b => List.NoDup (Dict.keys (strip (snd b)))) window ->
  Forall (fun b => Dict.get key (strip (snd b)) <> None) window ->
  (j < length window)%nat ->
  step_accum i images texts s = (inr (Some r), s', evs) ->
  exists kwargs imj txj,
    nth_error (map (fun b => fst (fst b)) window) j = Some imj /\
    nth_error (map (fun b => snd (fst b)) window) j = Some txj /\
    nth_error (loss_calls evs) j = Some kwargs /\
    let cached := map (fun b => tag false (lookup key (strip (snd b)))) window in
    let fresh :=
      tag true (lookup key (strip (model_fn (calls s + 1 + j) imj txj))) in
    let pieces := firstn j cached ++ [fresh] ++ skipn (S j) cached in
    Dict.get key kwargs = Some (torch_cat pieces) /\
    length pieces = length window /\
    forall i', nth_error pieces i'
               = if Nat.eqb i' j then Some fresh else nth_error cached i'.
Proof.
  intros window Ha Hholds HK Hnd Hkey Hj H.
  unfold step_accum in H. run_ok H as H1.
  rewrite (cache_batch_run _ _ _ _ Ha) in H1. inversion H1; subst; clear H1.
  apply (holds_snoc _ _ images texts (model_fn (calls s) images texts)) in Hholds.
  fold window in Hholds.
  destruct ((i + 1) mod accum_freq args >? 0); [run_step H|].
  run_ok H as H1. run_step H1.
  run_ok H as H1. unfold get_accum, bind, get_state in H1. simpl in H1.
  run_step H1.
  run_ok H as H1. run_step H.
  unfold py_range in H1. rewrite HK, Nat2Z.id in H1.
  destruct (recompute_all_loss_calls _ _ _ _ _ _ _ H1 j j) as (kw & Hkw & Hrk).
  { rewrite nth_error_seq. destruct (Nat.ltb_spec j (length window)); [reflexivity|lia]. }
  destruct Hrk as (imj & txj & sp & inputs & Himj & Htxj & Hsp & Hb & ->).
  destruct Hholds as (Hi & Ht & Hf). simpl in Himj, Htxj, Hb, Hi, Ht, Hf.
  rewrite Hi in Himj. rewrite Ht in Htxj.
  assert (Hlc : forall t,
             loss_calls ([Forward false images texts] ++ [ZeroGrad] ++ [] ++ t ++ [])
             = loss_calls t).
  { intros t. unfold loss_calls. rewrite !flat_map_app. simpl. apply app_nil_r. }
  rewrite Hlc. clear Hlc.
  exists (inputs ++ fst sp), imj, txj.
  split; [exact Himj|]. split; [exact Htxj|].
  split; [exact Hkw|].
  set (cached := map (fun b => tag false (lookup key (strip (snd b)))) window).
  assert (Hget : Dict.get key
                   (fold_left
                      (fun acc b => cache_features (tagged false (strip (snd b))) acc)
                      window []) = Some cached).
  { rewrite fold_cache_map, get_cached_window.
    - simpl. rewrite (picks_all _ _ Hkey). fold cached.
      destruct cached eqn:E; [|reflexivity].
      apply (f_equal (@length _)) in E. subst cached. rewrite length_map in E.
      simpl in E. lia.
    - apply List.Forall_map. eapply List.Forall_impl; [|exact Hnd].
      intros b Hb'. rewrite keys_tagged. exact Hb'. }
  rewrite Hf in Hb.
  destruct (build_inputs_get _ _ _ _ _ key cached Hb) as (f & Hfresh & Hin).
  { rewrite fold_cache_map. apply nodup_fold_cache. constructor. }
  { apply get_some_in. exact Hget. }
  rewrite (split_no_accum_rest _ _ Hsp), get_tagged in Hfresh.
  simpl calls in Hfresh. simpl calls.
  replace (calls s + 1 + j)%nat with (S (calls s) + j)%nat by lia.
  assert (Hf' : f = tag true (lookup key (strip (model_fn (S (calls s) + j) imj txj)))).
  { unfold lookup.
    destruct (Dict.get key (strip (model_fn (S (calls s) + j) imj txj)));
      simpl in Hfresh; [inversion Hfresh; reflexivity | discriminate]. }
  subst f. simpl.
  split; [apply get_app_l; exact Hin|].
  destruct (substituted_slots cached
              (tag true (lookup key (strip (model_fn (S (calls s) + j) imj txj)))) j)
    as (Hlen & Hnth).
  { subst cached. rewrite length_map. exact Hj. }
  split; [|exact Hnth].
  etransitivity; [exact Hlen|]. subst cached. apply length_map.
Qed.

(** *** The cache along the loop *)


Lemma finish_step_resets_accum epoch step i_accum nbpe images losses s s' evs :
  accum_freq args > 1 ->
  finish_step epoch step i_accum nbpe images losses s = (inr tt, s', evs) ->
  accum s' = Some accum_empty.
Proof.
  intros HF H. unfold finish_step in H.
  run_ok H as H1. rewrite gradient_finalization_run in H1. clear H1.
  run_ok H as H1.
  destruct (Z.gtb_spec (accum_freq args) 1) as [_|Hle]; [|lia]. run_step H1.
  match type of H with
  | ?m _ = _ => assert (K : keeps same_accum m)
  end.
  { keeps_with same_accum_refl same_accum_trans. }
  apply K in H. exact H.
Qed.

(** With [accum_freq > 1], an iteration that finds the earlier
    micro-batches [w] of the window in the cache leaves either [w] and its
    own micro-batch there (the window goes on), or an empty cache (the
    window was closed and the optimizer stepped). *)
Lemma loop_body_cache epoch nbpe i batch s s' evs a w :
  accum_freq args > 1 ->
  accum s = Some a ->
  holds a w ->
  loop_body epoch nbpe i batch s = (inr tt, s', evs) ->
  exists a',
    accum s' = Some a' /\
    if (i + 1) mod accum_freq args >? 0
    then exists images texts n, holds a' (w ++ [(images, texts, model_fn n images texts)])
    else holds a' [].
Proof.
  intros HF Ha Hw H. unfold loop_body in H.
  destruct (Z.eqb_spec (accum_freq args) 1) as [E|_]; [lia|].
  run_ok H as H1.
  match type of H1 with
  | ?m _ = _ => assert (K : keeps same_accum m)
  end.
  { keeps_with same_accum_refl same_accum_trans. }
  apply K in H1. clear K.
  run_ok H as H2.
  match type of H2 with
  | ?m _ = _ => assert (K : keeps same_accum m)
  end.
  { keeps_with same_accum_refl same_accum_trans. }
  apply K in H2. clear K.
  run_ok H as H3. run_step H3.
  run_ok H as H3. run_step H3.
  run_ok H as H3.
  apply (keeps_meter_update _ same_accum_refl) in H3.
  run_ok H as H4. run_step H4.
  run_ok H as H4. run_step H4.
  run_ok H as H4.
  unfold same_accum in H1, H2, H3.
  match type of H4 with
  | step_accum _ _ _ ?st = _ => assert (Hst : accum st = Some a)
  end.
  { simpl. rewrite H3. simpl. rewrite H2, H1. exact Ha. }
  unfold step_accum in H4. run_ok H4 as H5.
  rewrite (cache_batch_run _ _ _ _ Hst) in H5.
  destruct ((i + 1) mod accum_freq args >? 0).
  - run_step H4. run_step H5. run_step H.
    eexists. split; [reflexivity|]. eexists _, _, _.
    apply holds_snoc. exact Hw.
  - run_ok H4 as H6. clear H6. run_ok H4 as H6. clear H6.
    run_ok H4 as H6. clear H6. run_step H4.
    match type of H with
    | (let '(_, _) := ?p in _) _ = _ => destruct p
    end.
    apply finish_step_resets_accum in H; [|exact HF].
    exists accum_empty. split; [exact H|]. repeat split.
Qed.

(** ** The keys that the recomputation reads from the fresh output *)

Lemma build_inputs_error items fresh j acc e :
  build_inputs items fresh j acc = inl e ->
  exists key, e = KeyError key /\ In key (Dict.keys items) /\ Dict.get key fresh = None.
Proof.
  revert acc. induction items as [|[k l] items IH]; intros acc H; simpl in H.
  - discriminate.
  - destruct (Dict.get k fresh) as [f|] eqn:Hf.
    + destruct (IH _ H) as (key & He & Hin & Hg).
      exists key. split; [exact He|]. split; [right; exact Hin | exact Hg].
    + inversion H; subst. exists k. split; [reflexivity|].
      split; [left; reflexivity | exact Hf].
Qed.

Lemma split_no_accum_present out ls :
  Dict.get "logit_scale" out = Some ls ->
  split_no_accum (tagged true out)
  = inr (("logit_scale"%string, tag true ls)
         :: match Dict.get "logit_bias" out with
            | Some lb => [("logit_bias"%string, tag true lb)]
            | None => []
            end,
         tagged true (strip out)).
Proof.
  intros Hls. rewrite split_no_accum_tagged, Hls. unfold no_accum_of, strip.
  rewrite (get_remove_other "logit_bias" "logit_scale") by discriminate.
  destruct (Dict.get "logit_bias" out) as [lb|] eqn:Hlb; [reflexivity|].
  rewrite (remove_absent "logit_bias" (Dict.remove "logit_scale" out)); [reflexivity|].
  rewrite get_remove_other by discriminate. exact Hlb.
Qed.

(** C8. In a recomputation pass the fresh output must hold
    ["logit_scale"]: without it the pass raises [KeyError] right after
    the forward call, nothing that follows is run (no loss, no backward,
    no later pass), and whatever comes after in the program is skipped.
    With it the pass goes on whether the output holds ["logit_bias"] or
    not: the only key error left is the one of a cached feature that the
    fresh output lacks, and otherwise the loss is called, with the cached
    inputs followed by ["logit_scale"] and, exactly when the output holds
    ["logit_bias"], by ["logit_bias"]; a cache without these two names
    (the loop strips them before caching) gives the loss the fresh
    ["logit_scale"], and a ["logit_bias"] if and only if the output holds
    one. *)
Theorem logit_scale_required (a : accum_state) (j : nat) (s : state)
    (images texts : list Elt) :
  nth_error (accum_images a) j = Some images ->
  nth_error (accum_texts a) j = Some texts ->
  let out := model_fn (calls s) images texts in
  match Dict.get "logit_scale" out with
  | None =>
      recompute a j s
      = (inl (KeyError "logit_scale"), ticked s, [Forward true images texts]) /\
      (forall js cur,
         recompute_all a (j :: js) cur s
         = (inl (KeyError "logit_scale"), ticked s, [Forward true images texts])) /\
      (forall (B : Type) (k : list Elt * Dict.t R -> M B),
         bind (recompute a j) k s
         = (inl (KeyError "logit_scale"), ticked s, [Forward true images texts]))
  | Some ls =>
      let optional :=
        match Dict.get "logit_bias" out with
        | Some lb => [("logit_bias"%string, tag true lb)]
        | None => []
        end in
      match build_inputs (accum_features a) (tagged true (strip out)) j [] with
      | inl e =>
          recompute a j s = (inl e, ticked s, [Forward true images texts]) /\
          exists key,
            e = KeyError key /\ In key (Dict.keys (accum_features a)) /\
            Dict.get key (strip out) = None
      | inr inputs =>
          let kwargs := inputs ++ ("logit_scale"%string, tag true ls) :: optional in
          recompute a j s
          = match loss_fn kwargs with
            | [] =>
                (inl backward_error, ticked s,
                 [Forward true images texts; Loss kwargs])
            | _ :: _ =>
                let v := fold_left Rplus (Dict.values (loss_fn kwargs)) 0%R in
                (inr (images, Dict.setitem "loss" v (loss_fn kwargs)), ticked s,
                 [Forward true images texts; Loss kwargs; Backward scaler v])
            end /\
          (~ In "logit_scale"%string (Dict.keys (accum_features a)) ->
           Dict.get "logit_scale" kwargs = Some (tag true ls)) /\
          (~ In "logit_bias"%string (Dict.keys (accum_features a)) ->
           Dict.get "logit_bias" kwargs
           = option_map (tag true) (Dict.get "logit_bias" out))
      end
  end.
Proof.
  intros Hi Ht out.
  assert (Hrun :
            recompute a j s
            = let '(r, s2, t2) :=
                bind (lift (split_no_accum (tagged true out)))
                  (fun sp =>
                     bind (lift (build_inputs (accum_features a) (snd sp) j []))
                       (fun inputs =>
                          bind (loss_and_backward (inputs ++ fst sp))
                            (fun losses => ret (images, losses))))
                  (ticked s) in
              (r, s2, [Forward true images texts] ++ t2)).
  { unfold recompute, list_index. rewrite Hi, Ht.
    unfold bind at 1. unfold ret at 1. unfold bind at 1. unfold ret at 1.
    simpl. unfold bind at 1. rewrite forward_run. fold (tagged true out).
    destruct (bind _ _ (ticked s)) as [[r s2] t2]. reflexivity. }
  destruct (Dict.get "logit_scale" out) as [ls|] eqn:Hls.
  - rewrite (split_no_accum_present _ _ Hls) in Hrun. cbv zeta.
    unfold lift at 1 in Hrun. unfold bind at 1, ret at 1 in Hrun.
    simpl fst in Hrun. simpl snd in Hrun.
    destruct (build_inputs (accum_features a) (tagged true (strip out)) j [])
      as [e|inputs] eqn:Hb.
    + split.
      * rewrite Hrun. reflexivity.
      * destruct (build_inputs_error _ _ _ _ _ Hb) as (key & He & Hin & Hg).
        exists key. split; [exact He|]. split; [exact Hin|].
        unfold tagged in Hg. fold (tagged true (strip out)) in Hg.
        rewrite get_tagged in Hg.
        destruct (Dict.get key (strip out)); [discriminate | reflexivity].
    + split; [|split].
      * rewrite Hrun. unfold lift at 1. unfold bind at 1, ret at 1.
        unfold bind. rewrite loss_and_backward_run.
        destruct (loss_fn _); reflexivity.
      * intros Hnin.
        rewrite get_app_r
          by (rewrite (build_inputs_other _ _ _ _ _ _ Hb Hnin); reflexivity).
        reflexivity.
      * intros Hnin.
        rewrite get_app_r
          by (rewrite (build_inputs_other _ _ _ _ _ _ Hb Hnin); reflexivity).
        destruct (Dict.get "logit_bias" out); reflexivity.
  - rewrite split_no_accum_tagged, Hls in Hrun.
    assert (Hr : recompute a j s
                 = (inl (KeyError "logit_scale"), ticked s,
                    [Forward true images texts])).
    { rewrite Hrun. reflexivity. }
    split; [exact Hr|]. split.
    + intros js cur. simpl. apply bind_raise. exact Hr.
    + intros B k. apply bind_raise. exact Hr.
Qed.

(** ** Further properties of the code *)

(** *** [AverageMeter] *)

Lemma update_all_from (l : list (R * Z)) :
  Forall (fun vn => 0 < snd vn) l ->
  forall m, 0 <= AverageMeter.count m ->
  exists m',
    update_all m l = inr m' /\
    AverageMeter.sum m' = (AverageMeter.sum m + weighted_sum l)%R /\
    AverageMeter.count m' = AverageMeter.count m + total_weight l /\
    0 <= total_weight l /\
    (l <> [] ->
     AverageMeter.val m' = fst (List.last l (0%R, 0)) /\
     AverageMeter.avg m' = (AverageMeter.sum m' / IZR (AverageMeter.count m'))%R).
Proof.
  induction 1 as [|[v n] l Hn Hl IH]; intros m Hm.
  - exists m. simpl. split; [reflexivity|]. split; [lra|]. split; [lia|].
    split; [lia|]. intros Hc. contradiction.
  - simpl in Hn. simpl update_all. unfold AverageMeter.update.
    destruct (Z.eqb_spec (AverageMeter.count m + n) 0) as [E|E]; [lia|].
    match goal with
    | |- context [update_all ?m1 l] =>
        destruct (IH m1 ltac:(simpl; lia)) as (m' & Hrun & Hsum & Hcount & Hw & Hlast)
    end.
    exists m'. simpl in Hsum, Hcount.
    split; [exact Hrun|]. split; [rewrite Hsum; simpl; lra|].
    split; [rewrite Hcount; simpl; lia|]. split; [simpl; lia|].
    intros _. destruct l as [|vn l'].
    + simpl in Hrun. inversion Hrun; subst. simpl. split; reflexivity.
    + destruct (Hlast ltac:(discriminate)) as [Hv Ha]. split; [|exact Ha].
      rewrite Hv. reflexivity.
Qed.

(** X1. A fresh meter that has seen the values [v1, ..., vk] with positive
    weights [n1, ..., nk] holds the last value, the weighted sum, the
    total weight, and their quotient as the average. *)
Theorem average_meter_weighted_mean (l : list (R * Z)) :
  l <> [] ->
  Forall (fun vn => 0 < snd vn) l ->
  exists m,
    update_all AverageMeter.reset l = inr m /\
    AverageMeter.val m = fst (List.last l (0%R, 0)) /\
    AverageMeter.sum m = weighted_sum l /\
    AverageMeter.count m = total_weight l /\
    AverageMeter.avg m = (weighted_sum l / IZR (total_weight l))%R.
Proof.
  intros Hne Hl.
  destruct (update_all_from l Hl AverageMeter.reset ltac:(simpl; lia))
    as (m & Hrun & Hsum & Hcount & _ & Hlast).
  destruct (Hlast Hne) as [Hv Ha]. simpl in Hsum, Hcount.
  exists m. split; [exact Hrun|]. split; [exact Hv|].
  assert (Hs : AverageMeter.sum m = weighted_sum l) by (rewrite Hsum; lra).
  split; [exact Hs|]. split; [exact Hcount|].
  rewrite Ha, Hs, Hcount. reflexivity.
Qed.

(** *** [during_training_data_preprocess] *)

(** X2. The preprocessing neither touches the state nor calls a collaborator
    that is recorded. When it returns, the images are the preprocessed
    inputs, one per raw image and at least one; the texts come from the
    tokenizer when [text_embed_dim] is [None] or 0, and are the stacked
    embeddings, at least one, otherwise. With no image it raises the
    [RuntimeError] of [torch.stack], and so it does with images when
    embeddings are expected and there is no text. *)
Theorem preprocess_result (tuple_images : list RawImage) (tuple_texts : list RawText)
    (s : state) :
  exists r,
    during_training_data_preprocess tuple_images tuple_texts s = (r, s, []) /\
    (forall images texts, r = inr (images, texts) ->
       (images, texts) = preprocessed (tuple_images, tuple_texts) /\
       images = map preprocess tuple_images /\
       length images = length tuple_images /\
       tuple_images <> [] /\
       (text_embed_dim args = None \/ text_embed_dim args = Some 0 ->
        texts = tokenizer tuple_texts) /\
       (forall d, text_embed_dim args = Some d -> d <> 0 ->
        texts = map from_numpy tuple_texts /\ tuple_texts <> [])) /\
    (tuple_images = [] -> exists msg, r = inl (RuntimeError msg)) /\
    (forall d, text_embed_dim args = Some d -> d <> 0 -> tuple_texts = [] ->
     exists msg, r = inl (RuntimeError msg)).
Proof.
  unfold during_training_data_preprocess, preprocessed, truthy.
  destruct tuple_images as [|img imgs].
  - eexists. split; [reflexivity|]. split; [discriminate|].
    split; intros; eexists; reflexivity.
  - destruct (text_embed_dim args) as [d|] eqn:Hd.
    + destruct (Z.eqb_spec d 0) as [E|E].
      * eexists. split; [reflexivity|]. split; [|split].
        -- intros images texts H. inversion H; subst.
           split; [reflexivity|].
           split; [reflexivity|]. split; [simpl; rewrite length_map; reflexivity|].
           split; [discriminate|]. split; [reflexivity|].
           intros d' Hd' Hne. congruence.
        -- discriminate.
        -- intros d' Hd' Hne. congruence.
      * destruct tuple_texts as [|txt txts].
        -- eexists. split; [reflexivity|]. split; [discriminate|].
           split; intros; eexists; reflexivity.
        -- eexists. split; [reflexivity|]. split; [|split].
           ++ intros images texts H. inversion H; subst.
              split; [reflexivity|].
              split; [reflexivity|]. split; [simpl; rewrite length_map; reflexivity|].
              split; [discriminate|]. split.
              ** intros [H1|H1]; congruence.
              ** intros d' Hd' Hne. split; [reflexivity | discriminate].
           ++ discriminate.
           ++ discriminate.
    + eexists. split; [reflexivity|]. split; [|split].
      * intros images texts H. inversion H; subst.
        split; [reflexivity|].
        split; [reflexivity|]. split; [simpl; rewrite length_map; reflexivity|].
        split; [discriminate|]. split; [reflexivity|].
        intros d' Hd'. discriminate.
      * discriminate.
      * discriminate.
Qed.

(** *** [unwrap_model] and the clamp of the logit scale *)

Lemma clamp_in_range (x : R) :
  (0 <= x <= math_log 100)%R -> clamp_ 0 (math_log 100) x = x.
Proof.
  intros [H0 H1]. unfold clamp_.
  rewrite Rmax_left by exact H0. apply Rmin_left. exact H1.
Qed.

Lemma clamp_logit_scale_idempotent (m : model_obj) :
  clamp_logit_scale (clamp_logit_scale m) = clamp_logit_scale m.
Proof.
  destruct m as [[v|]|[[v|]|m']]; simpl; try reflexivity;
    rewrite (clamp_in_range _ (clamp_range v)); reflexivity.
Qed.

Lemma set_net_fixed (f : model_obj -> model_obj) (s : state) :
  f (net s) = net s -> set_net f s = s.
Proof. intros H. destruct s. unfold set_net. simpl in H |- *. rewrite H. reflexivity. Qed.

(** X3. The clamp acts on the object that [unwrap_model] reaches, and only on
    its logit scale. Clamping a second time changes nothing, and a logit
    scale that already lies in [[0, ln 100]] is left as it is. *)
Theorem clamp_step_idempotent (s : state) :
  exists s1 evs,
    clamp_step s = (inr tt, s1, evs) /\
    clamp_step s1 = (inr tt, s1, evs) /\
    unwrap_model (net s1) = clamp_net (unwrap_model (net s)) /\
    (forall v, getattr_logit_scale (unwrap_model (net s)) = Some v ->
       (0 <= v <= math_log 100)%R -> s1 = s).
Proof.
  unfold clamp_step, bind, get_state, emit, modify, ret.
  destruct (hasattr_logit_scale (unwrap_model (net s))) eqn:Hh.
  - eexists _, _. split; [reflexivity|]. simpl.
    assert (Hh' : hasattr_logit_scale (unwrap_model (clamp_logit_scale (net s))) = true).
    { destruct (net s) as [[v|]|[[v|]|m']]; simpl in Hh |- *; congruence. }
    rewrite Hh'. split; [|split].
    + f_equal. f_equal. apply set_net_fixed. simpl. apply clamp_logit_scale_idempotent.
    + destruct (net s) as [[v|]|[[v|]|m']]; simpl in Hh |- *; congruence.
    + intros v Hv Hr. apply set_net_fixed.
      destruct (net s) as [[w|]|[[w|]|m']]; simpl in Hh, Hv |- *; try discriminate;
        inversion Hv; subst; rewrite (clamp_in_range _ Hr); reflexivity.
  - exists s, []. rewrite Hh. split; [reflexivity|]. split; [reflexivity|].
    split; [|reflexivity].
    destruct (net s) as [[v|]|[[v|]|m']]; simpl in Hh |- *; congruence.
Qed.

(** *** Failures of the set-up of [train_one_epoch] *)

(** X4. With [accum_freq = 0] the epoch stops at the division of line 105:
    the models have been put in their modes and the epoch set on the data
    source, nothing else has happened. *)
Theorem accum_freq_zero_raises (epoch : Z) (s : state) :
  accum_freq args = 0 ->
  train_one_epoch epoch s
  = (inl ZeroDivisionError, s,
     ModelTrain :: (if distill args then [DistModelEval] else []) ++ [SetEpoch epoch]).
Proof.
  intros HF. rewrite train_one_epoch_run.
  unfold run_batches, bind, emit, when, raise. rewrite HF. reflexivity.
Qed.

(** X5. A data source that reports a negative number of samples makes the
    logarithm of line 106 fail, before the first batch is read. *)
Theorem sample_count_domain_error (epoch : Z) (s : state) :
  accum_freq args <> 0 ->
  num_samples dataloader < 0 ->
  exists msg,
    train_one_epoch epoch s
    = (inl (ValueError msg), s,
       ModelTrain :: (if distill args then [DistModelEval] else []) ++ [SetEpoch epoch]).
Proof.
  intros HF Hn. rewrite train_one_epoch_run.
  unfold run_batches, bind, emit, when, raise, ret.
  destruct (Z.eqb_spec (accum_freq args) 0) as [E|_]; [contradiction|].
  destruct (Z.leb_spec (num_samples dataloader + 1) 0) as [_|G]; [|lia].
  eexists. reflexivity.
Qed.

(** *** Failures inside the loop *)

Lemma for_enumerate_raises {A} (l : list A) (body : Z -> A -> M unit) (x : A) :
  In x l ->
  (forall i s r s' evs, body i x s = (r, s', evs) -> exists e, r = inl e) ->
  forall i s r s' evs,
    for_enumerate i l body s = (r, s', evs) -> exists e, r = inl e.
Proof.
  intros Hin Hx. induction l as [|y l IH]; [contradiction|].
  intros i s r s' evs H. simpl in H.
  apply bind_run in H as [(e & _ & ->) | (u & s1 & t1 & t2 & H1 & H2 & _)];
    [eauto|].
  destruct Hin as [->|Hin].
  - apply Hx in H1 as (e & He). discriminate.
  - exact (IH Hin _ _ _ _ _ H2).
Qed.

Lemma loop_body_empty_batch epoch nbpe i (texts : list RawText) s r s' evs :
  loop_body epoch nbpe i ([], texts) s = (r, s', evs) ->
  r = inl (RuntimeError "stack expects a non-empty TensorList").
Proof.
  intros H. unfold loop_body in H.
  apply bind_run in H as [(e & H1 & _) | (u & s1 & t1 & t2 & H1 & H & _)].
  - destruct (skip_scheduler args); discriminate.
  - apply bind_run in H as [(e & H2 & ->) | (it & s2 & t3 & t4 & H2 & _ & _)].
    + inversion H2. reflexivity.
    + discriminate.
Qed.

(** X6. A batch without images makes [torch.stack] fail: an epoch whose data
    source yields such a batch does not run to its end. *)
Theorem empty_batch_aborts_epoch (epoch : Z) (texts : list RawText)
    (s s' : state) (r : exn + unit) (evs : list event) :
  In ([], texts) (batches dataloader) ->
  train_one_epoch epoch s = (r, s', evs) ->
  exists e, r = inl e.
Proof.
  intros Hin H. rewrite train_one_epoch_run in H.
  destruct (run_batches epoch s) as [[r0 s0] t0] eqn:Hrun.
  inversion H; subst; clear H.
  unfold run_batches in Hrun.
  repeat (apply bind_run in Hrun as [(e & _ & ->) | (? & ? & ? & ? & _ & Hrun & _)];
          [eauto|]).
  revert Hrun. apply for_enumerate_raises with (x := ([], texts)); [exact Hin|].
  intros i s1 r1 s1' evs1 H1. apply loop_body_empty_batch in H1. eauto.
Qed.

(** *** The meters of the loss components *)

Lemma meter_of_nonneg key d :
  counts_nonneg d -> 0 <= AverageMeter.count (meter_of key d).
Proof.
  unfold meter_of, counts_nonneg. intros H.
  destruct (Dict.get key d) as [m|] eqn:E; [|simpl; lia].
  apply get_some_in in E. rewrite List.Forall_forall in H. exact (H _ E).
Qed.

Lemma setitem_counts_nonneg k m d :
  counts_nonneg d -> 0 <= AverageMeter.count m -> counts_nonneg (Dict.setitem k m d).
Proof.
  unfold counts_nonneg. intros H Hm. induction d as [|[k' m'] d IH]; simpl.
  - constructor; [exact Hm | constructor].
  - inversion H; subst. destruct (String.eqb k k'); constructor; auto.
Qed.

Lemma update_meters_total (losses : Dict.t R) (n : Z) :
  0 < n ->
  forall d, counts_nonneg d ->
  exists d',
    update_meters losses n d = inr d' /\
    counts_nonneg d' /\
    forall key,
      In key (Dict.keys losses)
      \/ (exists m0, Dict.get key d = Some m0 /\ 0 < AverageMeter.count m0) ->
      exists m, Dict.get key d' = Some m /\ 0 < AverageMeter.count m.
Proof.
  intros Hn. induction losses as [|[k v] rest IH]; intros d Hd; simpl.
  - exists d. split; [reflexivity|]. split; [exact Hd|].
    intros key [[]|H]. exact H.
  - pose proof (meter_of_nonneg k d Hd) as Hk.
    unfold AverageMeter.update.
    destruct (Z.eqb_spec (AverageMeter.count (meter_of k d) + n) 0) as [E|E]; [lia|].
    match goal with
    | |- context [update_meters rest n (Dict.setitem k ?m d)] =>
        destruct (IH (Dict.setitem k m d)
                    (setitem_counts_nonneg k m d Hd ltac:(simpl; lia)))
          as (d' & Hrun & Hd' & Hpos);
        set (m1 := m) in Hrun, Hpos |- *
    end.
    exists d'. split; [exact Hrun|]. split; [exact Hd'|].
    intros key Hkey. apply Hpos.
    destruct (String.eqb_spec key k) as [->|Hne].
    + right. exists m1. split; [apply get_setitem_same|]. subst m1. simpl. lia.
    + destruct Hkey as [[Hc|Hin]|(m0 & Hg & Hm0)].
      * simpl in Hc. congruence.
      * left. exact Hin.
      * right. exists m0. split; [|exact Hm0].
        rewrite get_setitem_other by exact Hne. exact Hg.
Qed.

Lemma update_losses_m_eq (losses : Dict.t R) (n : Z) :
  forall s d,
    update_meters losses n (losses_m s) = inr d ->
    update_losses_m losses n s = (inr tt, set_losses_m d s, []).
Proof.
  unfold update_losses_m.
  induction losses as [|[k v] rest IH]; intros s d H; simpl in H |- *.
  - inversion H; subst. destruct s; reflexivity.
  - unfold bind at 1. unfold bind at 1. unfold get_state at 1.
    unfold bind at 1. unfold meter_update, lift. simpl fst. simpl snd.
    fold (meter_of k (losses_m s)).
    destruct (AverageMeter.update (meter_of k (losses_m s)) v n) as [e|m];
      [discriminate|].
    unfold ret at 1, modify at 1. simpl.
    pose proof (IH (set_losses_m (Dict.setitem k m (losses_m s)) s) d H) as IH'.
    unfold meter_update, lift in IH'. rewrite IH'. reflexivity.
Qed.

(** X7. The loss meters are updated with the batch size as weight. When that
    is positive (a stacked batch always has a row) and no meter has a
    negative count, the update of lines 235-238 cannot divide by zero: it
    returns, emits nothing, changes only the loss meters, and leaves every
    component of [losses] with a meter of positive count. *)
Theorem loss_meters_never_divide_by_zero (losses : Dict.t R) (n : Z) (s : state) :
  0 < n ->
  counts_nonneg (losses_m s) ->
  exists d,
    update_losses_m losses n s = (inr tt, set_losses_m d s, []) /\
    counts_nonneg d /\
    forall key, In key (Dict.keys losses) ->
      exists m, Dict.get key d = Some m /\ 0 < AverageMeter.count m.
Proof.
  intros Hn Hs.
  destruct (update_meters_total losses n Hn (losses_m s) Hs) as (d & Hrun & Hd & Hpos).
  exists d. split; [apply update_losses_m_eq; exact Hrun|].
  split; [exact Hd|]. intros key Hkey. apply Hpos. left. exact Hkey.
Qed.

(** *** A negative accumulation frequency *)

Lemma preprocess_same_state tuple_images tuple_texts :
  keeps same_state (during_training_data_preprocess tuple_images tuple_texts).
Proof. keeps_with same_state_refl same_state_trans. Qed.

Lemma unbound_quiet_refl p s : unbound_quiet p s s [].
Proof. split; auto. Qed.

Lemma unbound_quiet_trans p s1 s2 s3 t1 t2 :
  unbound_quiet p s1 s2 t1 -> unbound_quiet p s2 s3 t2 ->
  unbound_quiet p s1 s3 (t1 ++ t2).
Proof.
  intros [H1 Q1] [H2 Q2]. split; [auto|].
  rewrite List.filter_app, Q1, Q2. reflexivity.
Qed.

Lemma bind_unbound {A B} p (m : M A) (k : A -> M B) :
  keeps (unbound_quiet p) m ->
  (forall a s r s' evs, accum s = None -> k a s = (r, s', evs) ->
     (exists e, r = inl e) /\ List.filter p evs = []) ->
  forall s r s' evs, accum s = None -> bind m k s = (r, s', evs) ->
    (exists e, r = inl e) /\ List.filter p evs = [].
Proof.
  intros Hm Hk s r s' evs Ha H.
  apply bind_run in H as [(e & H1 & ->) | (a & s1 & t1 & t2 & H1 & H2 & ->)].
  - apply Hm in H1 as [_ Q]. eauto.
  - apply Hm in H1 as [Ha1 Q1]. apply Hk in H2 as [He Q2]; [|auto].
    split; [exact He|]. rewrite List.filter_app, Q1, Q2. reflexivity.
Qed.

Lemma step_accum_unbound i images texts s :
  accum s = None ->
  exists name,
    step_accum i images texts s
    = (inl (UnboundLocalError name), ticked s, [Forward false images texts]).
Proof.
  intros Ha. unfold step_accum, cache_batch.
  unfold bind at 1. unfold bind at 1. rewrite forward_run.
  unfold bind at 1, get_accum at 1. unfold bind at 1, get_state at 1.
  change (accum (ticked s)) with (accum s). rewrite Ha.
  unfold raise. eexists. reflexivity.
Qed.

Section Unbound.
Variable p : event -> bool.
Hypothesis p_scheduler : forall step, p (Scheduler step) = false.
Hypothesis p_zero_grad : p ZeroGrad = false.
Hypothesis p_forward : forall images texts, p (Forward false images texts) = false.

Lemma loop_body_unbound epoch nbpe i batch s r s' evs :
  accum_freq args < 0 ->
  accum s = None ->
  loop_body epoch nbpe i batch s = (r, s', evs) ->
  (exists e, r = inl e) /\ List.filter p evs = [].
Proof using p_scheduler p_zero_grad p_forward.
  intros HF Ha H. revert s r s' evs Ha H. unfold loop_body.
  destruct (Z.eqb_spec (accum_freq args) 1) as [E|_]; [lia|].
  assert (Hleaf : forall {A} (m : M A),
            (forall s r s' evs, m s = (r, s', evs) ->
               accum s' = accum s /\ List.filter p evs = []) ->
            keeps (unbound_quiet p) m).
  { intros A m Hm s r s' evs H. apply Hm in H as [H1 H2].
    split; [congruence | exact H2]. }
  apply bind_unbound.
  { apply Hleaf. intros s r s' evs H.
    destruct (skip_scheduler args); inversion H; subst; simpl;
      rewrite ?p_scheduler; auto. }
  intros _. apply bind_unbound.
  { apply Hleaf. intros s r s' evs H. split.
    - apply preprocess_same_state in H. unfold same_state in H. congruence.
    - apply keeps_no_events_preprocess in H. subst. reflexivity. }
  intros it. apply bind_unbound.
  { apply Hleaf. intros s r s' evs H. inversion H; subst. auto. }
  intros t. apply bind_unbound.
  { apply Hleaf. intros s r s' evs H. inversion H; subst. auto. }
  intros s0. apply bind_unbound.
  { apply Hleaf. intros s r s' evs H.
    unfold meter_update, lift in H.
    destruct (AverageMeter.update (data_time_m s0) (t - end_ s0) 1);
      inversion H; subst; auto. }
  intros m. apply bind_unbound.
  { apply Hleaf. intros s r s' evs H. inversion H; subst. auto. }
  intros _. apply bind_unbound.
  { apply Hleaf. intros s r s' evs H. inversion H; subst. simpl.
    rewrite p_zero_grad. auto. }
  intros _ s r s' evs Ha H.
  destruct (step_accum_unbound i (fst it) (snd it) s Ha) as (name & Hrun).
  rewrite (bind_raise _ _ _ _ _ _ Hrun) in H. inversion H; subst.
  split; [eauto|]. simpl. rewrite p_forward. reflexivity.
Qed.

Lemma for_enumerate_unbound epoch nbpe (l : list (list RawImage * list RawText)) i s r s' evs :
  accum_freq args < 0 ->
  accum s = None ->
  for_enumerate i l (loop_body epoch nbpe) s = (r, s', evs) ->
  List.filter p evs = [] /\ (l <> [] -> exists e, r = inl e).
Proof using p_scheduler p_zero_grad p_forward.
  intros HF Ha H. destruct l as [|x l]; simpl in H.
  - inversion H; subst. split; [reflexivity|]. intros Hc. contradiction.
  - apply bind_run in H as [(e & H1 & ->) | (u & s1 & t1 & t2 & H1 & _ & _)].
    + apply (loop_body_unbound _ _ _ _ _ _ _ _ HF Ha) in H1 as [_ Q]. eauto.
    + apply (loop_body_unbound _ _ _ _ _ _ _ _ HF Ha) in H1 as [(e & He) _].
      discriminate.
Qed.

Lemma run_batches_unbound epoch s r s' evs :
  accum_freq args < 0 ->
  p (SetEpoch epoch) = false ->
  run_batches epoch s = (r, s', evs) ->
  List.filter p evs = [] /\ (batches dataloader <> [] -> exists e, r = inl e).
Proof using p_scheduler p_zero_grad p_forward.
  intros HF Hset H. unfold run_batches in H.
  destruct (Z.eqb_spec (accum_freq args) 0) as [E|_]; [lia|].
  destruct (Z.gtb_spec (accum_freq args) 1) as [G|_]; [lia|].
  apply bind_run in H as [(e & H1 & _) | (u & s1 & t1 & t2 & H1 & H & ->)];
    [discriminate|].
  inversion H1; subst; clear H1. simpl. rewrite Hset.
  apply bind_run in H as [(e & H1 & _) | (u1 & s2 & t3 & t4 & H1 & H & ->)];
    [discriminate|].
  inversion H1; subst; clear H1. simpl.
  apply bind_run in H as [(e & H1 & ->) | (u2 & s3 & t5 & t6 & H1 & H & ->)].
  { destruct (num_samples dataloader + 1 <=? 0); inversion H1; subst. eauto. }
  assert (s3 = s2 /\ t5 = []) as [-> ->]
    by (destruct (num_samples dataloader + 1 <=? 0); inversion H1; auto).
  clear H1. simpl.
  do 4 (apply bind_run in H as [(e & H1 & _) | (? & ? & ? & ? & H1 & H & ->)];
        [discriminate|]; inversion H1; subst; clear H1; simpl).
  do 2 (apply bind_run in H as [(e & H1 & _) | (? & ? & ? & ? & H1 & H & ->)];
        [discriminate|]; inversion H1; subst; clear H1; simpl).
  revert H. apply for_enumerate_unbound; [exact HF | reflexivity].
Qed.
End Unbound.

(** X8. With a negative accumulation frequency the accumulation buffers are
    never created (line 108), and the first micro-batch takes the
    accumulating branch (line 146) and fails on them: no backward pass and
    no optimizer step is ever made, and an epoch with at least one batch
    ends in an exception. *)
Theorem negative_accum_freq_never_steps (epoch : Z) (s s' : state)
    (r : exn + unit) (evs : list event) :
  accum_freq args < 0 ->
  train_one_epoch epoch s = (r, s', evs) ->
  count_events is_optimizer_step evs = 0%nat /\
  count_events is_backward evs = 0%nat /\
  (batches dataloader <> [] -> exists e, r = inl e).
Proof.
  intros HF H. rewrite train_one_epoch_run in H.
  destruct (run_batches epoch s) as [[r0 s0] t0] eqn:Hrun.
  inversion H; subst; clear H.
  pose proof (run_batches_unbound is_optimizer_step
                ltac:(reflexivity) ltac:(reflexivity) ltac:(reflexivity)
                _ _ _ _ _ HF ltac:(reflexivity) Hrun) as [Q1 He].
  pose proof (run_batches_unbound is_backward
                ltac:(reflexivity) ltac:(reflexivity) ltac:(reflexivity)
                _ _ _ _ _ HF ltac:(reflexivity) Hrun) as [Q2 _].
  unfold count_events. simpl.
  split; [|split; [|exact He]].
  - destruct (distill args); simpl; rewrite Q1; reflexivity.
  - destruct (distill args); simpl; rewrite Q2; reflexivity.
Qed.

(** *** Processes that are not the master *)

Lemma log_progress_non_master epoch step i_accum nbpe images losses s :
  is_master args = false ->
  log_progress epoch step i_accum nbpe images losses s = (inr tt, s, []).
Proof. intros Hm. unfold log_progress. rewrite Hm. reflexivity. Qed.

Lemma recompute_all_no_log a js cur :
  keeps (quiet is_log) (recompute_all a js cur).
Proof.
  revert cur. induction js as [|j js IH]; intros cur; simpl.
  - apply (keeps_ret _ (quiet_refl _)).
  - apply (keeps_bind _ (quiet_trans _)); [|intros r; apply IH].
    keeps_with (quiet_refl is_log) (quiet_trans is_log).
Qed.

Lemma same_losses_m_refl s : same_losses_m s s [].
Proof. reflexivity. Qed.

Lemma same_losses_m_trans s1 s2 s3 t1 t2 :
  same_losses_m s1 s2 t1 -> same_losses_m s2 s3 t2 -> same_losses_m s1 s3 (t1 ++ t2).
Proof. unfold same_losses_m. congruence. Qed.

Lemma recompute_all_same_losses_m a js cur :
  keeps same_losses_m (recompute_all a js cur).
Proof.
  revert cur. induction js as [|j js IH]; intros cur; simpl.
  - apply (keeps_ret _ same_losses_m_refl).
  - apply (keeps_bind _ same_losses_m_trans); [|intros r; apply IH].
    keeps_using same_losses_m_refl same_losses_m_trans
      ltac:(solve [intros ? ? ? ? HH; inversion HH; subst; reflexivity]).
Qed.

Lemma loop_body_non_master_quiet epoch nbpe i batch :
  is_master args = false ->
  keeps (quiet is_log) (loop_body epoch nbpe i batch).
Proof.
  intros Hm. unfold loop_body, step_no_accum, teacher_forward.
  keeps_using (quiet_refl is_log) (quiet_trans is_log)
    ltac:(first [ apply recompute_all_no_log
                | intros ? ? ? ? HH; rewrite (log_progress_non_master _ _ _ _ _ _ _ Hm) in HH;
                  inversion HH; subst; reflexivity ]).
Qed.

Lemma loop_body_non_master_losses_m epoch nbpe i batch :
  is_master args = false ->
  keeps same_losses_m (loop_body epoch nbpe i batch).
Proof.
  intros Hm. unfold loop_body, step_no_accum, teacher_forward.
  keeps_using same_losses_m_refl same_losses_m_trans
    ltac:(first [ apply recompute_all_same_losses_m
                | intros ? ? ? ? HH; rewrite (log_progress_non_master _ _ _ _ _ _ _ Hm) in HH;
                  inversion HH; subst; reflexivity
                | solve [intros ? ? ? ? HH; inversion HH; subst; reflexivity] ]).
Qed.

(** X9. A process that is not the master never logs: whatever the run does,
    it emits no log line, no TensorBoard scalar and no wandb record; and at
    the end of an epoch that returns, its dictionary of loss meters is
    still empty. *)
Theorem non_master_never_logs (epoch : Z) (s s' : state)
    (r : exn + unit) (evs : list event) :
  is_master args = false ->
  train_one_epoch epoch s = (r, s', evs) ->
  List.filter is_log evs = [] /\
  (r = inr tt -> losses_m s' = []).
Proof.
  intros Hm H. split.
  - revert s r s' evs H. change (keeps (quiet is_log) (train_one_epoch epoch)).
    unfold train_one_epoch, run_batches.
    keeps_using (quiet_refl is_log) (quiet_trans is_log)
      ltac:(apply loop_body_non_master_quiet; exact Hm).
  - intros ->. rewrite train_one_epoch_run in H.
    destruct (run_batches epoch s) as [[r0 s0] t0] eqn:Hrun.
    inversion H; subst; clear H.
    unfold run_batches in Hrun.
    run_ok Hrun as H1. run_step H1.
    run_ok Hrun as H1.
    destruct (accum_freq args =? 0); run_step H1.
    run_ok Hrun as H1.
    destruct (num_samples dataloader + 1 <=? 0); run_step H1.
    run_ok Hrun as H1. run_step H1.
    run_ok Hrun as H1. run_step H1.
    run_ok Hrun as H1. run_step H1.
    run_ok Hrun as H1. run_step H1.
    run_ok Hrun as H1. run_step H1.
    run_ok Hrun as H1. run_step H1.
    apply (keeps_for_enumerate _ same_losses_m_refl same_losses_m_trans) in Hrun.
    + exact Hrun.
    + intros j x. apply loop_body_non_master_losses_m. exact Hm.
Qed.

(** *** The log emission *)







(** *** The non-accumulating path *)

Lemma step_no_accum_run images texts s :
  step_no_accum images texts s
  = let out := tagged true (model_fn (calls s) images texts) in
    let kwargs :=
      if distill args
      then Dict.update out
             (prefix_dist (tagged false (dist_model_fn (S (calls s)) images texts)))
      else out in
    let s1 := if distill args then ticked (ticked s) else ticked s in
    let pre := Forward true images texts
               :: (if distill args then [TeacherForward images texts] else []) in
    match loss_fn kwargs with
    | [] => (inl backward_error, s1, pre ++ [Loss kwargs])
    | _ :: _ =>
        let v := fold_left Rplus (Dict.values (loss_fn kwargs)) 0%R in
        (inr (Dict.setitem "loss" v (loss_fn kwargs)), s1,
         pre ++ [Loss kwargs; Backward scaler v]
             ++ (if str_contains "LIFT" (model args) then [ClipGradNorm 1] else []))
    end.
Proof.
  unfold step_no_accum. unfold bind at 1. rewrite forward_run.
  fold (tagged true (model_fn (calls s) images texts)).
  destruct (distill args).
  - unfold bind at 1. unfold bind at 1. rewrite teacher_forward_run.
    fold (tagged false (dist_model_fn (calls (ticked s)) images texts)).
    change (calls (ticked s)) with (S (calls s)).
    unfold ret at 1. unfold bind at 1. rewrite loss_and_backward_run.
    cbv zeta.
    destruct (loss_fn _); [reflexivity|].
    destruct (str_contains "LIFT" (model args)); reflexivity.
  - unfold bind at 1. unfold ret at 1. unfold bind at 1.
    rewrite loss_and_backward_run. cbv zeta.
    destruct (loss_fn _); [reflexivity|].
    destruct (str_contains "LIFT" (model args)); reflexivity.
Qed.

Lemma get_update_other {V} k (o d : Dict.t V) :
  ~ In k (Dict.keys o) -> Dict.get k (Dict.update d o) = Dict.get k d.
Proof.
  unfold Dict.update. revert d. induction o as [|[k' v'] o IH]; intros d Hnin; simpl.
  - reflexivity.
  - simpl in Hnin. rewrite IH by (intros Hc; apply Hnin; right; exact Hc).
    apply get_setitem_other. intros ->. apply Hnin. left. reflexivity.
Qed.

Lemma get_update_in {V} k (v : V) (o d : Dict.t V) :
  List.NoDup (Dict.keys o) -> In (k, v) o -> Dict.get k (Dict.update d o) = Some v.
Proof.
  revert d. induction o as [|[k' v'] o IH]; intros d Hnd Hin; simpl in Hnd, Hin.
  - contradiction.
  - inversion Hnd as [|? ? Hk Hnd']; subst.
    change (Dict.update d ((k', v') :: o)) with (Dict.update (Dict.setitem k' v' d) o).
    destruct Hin as [Heq|Hin].
    + inversion Heq; subst. rewrite get_update_other by exact Hk.
      apply get_setitem_same.
    + apply IH; assumption.
Qed.

Lemma keys_prefix_dist (d : Dict.t tensor) :
  Dict.keys (prefix_dist d) = map (String.append "dist_") (Dict.keys d).
Proof.
  unfold prefix_dist, Dict.keys. rewrite !map_map. reflexivity.
Qed.

Lemma nodup_map_append (a : string) (l : list string) :
  List.NoDup l -> List.NoDup (map (String.append a) l).
Proof.
  intros H. apply Finite.Injective_map_NoDup; [|exact H].
  intros x y Hxy. apply (inj (String.app a)) in Hxy. exact Hxy.
Qed.

(** X11. With distillation on the non-accumulating path, the teacher is called
    once, on the inputs of the student and right after it, and the loss
    receives every teacher output under its name prefixed with [dist_],
    without gradient; the student's outputs are passed unchanged, except
    where a teacher output takes their name. *)
Theorem distill_merges_teacher_outputs (images texts : list Elt) (s s1 : state)
    (losses : Dict.t R) (evs : list event) :
  distill args = true ->
  List.NoDup (Dict.keys (dist_model_fn (S (calls s)) images texts)) ->
  step_no_accum images texts s = (inr losses, s1, evs) ->
  exists kwargs rest,
    evs = Forward true images texts :: TeacherForward images texts
          :: Loss kwargs :: rest /\
    List.filter is_teacher rest = [] /\
    (forall k v, In (k, v) (dist_model_fn (S (calls s)) images texts) ->
       Dict.get ("dist_" +:+ k) kwargs = Some (tag false v) /\
       requires_grad (tag false v) = false) /\
    (forall k,
       (forall k', In k' (Dict.keys (dist_model_fn (S (calls s)) images texts)) ->
          k <> "dist_" +:+ k') ->
       Dict.get k kwargs = Dict.get k (tagged true (model_fn (calls s) images texts))).
Proof.
  intros Hd Hnd H. rewrite step_no_accum_run in H. cbv zeta in H.
  rewrite Hd in H.
  set (teacher := dist_model_fn (S (calls s)) images texts) in H, Hnd |- *.
  set (kwargs := Dict.update (tagged true (model_fn (calls s) images texts))
                   (prefix_dist (tagged false teacher))) in H.
  destruct (loss_fn kwargs) as [|kv l]; [discriminate|].
  exists kwargs. eexists. split.
  { injection H as _ _ <-. reflexivity. }
  split.
  { destruct (str_contains "LIFT" (model args)); reflexivity. }
  split.
  - intros k v Hin. split; [|apply requires_grad_cached].
    subst kwargs. apply get_update_in.
    + rewrite keys_prefix_dist, keys_tagged. apply nodup_map_append. exact Hnd.
    + unfold prefix_dist, tagged. rewrite map_map. simpl.
      apply in_map_iff. exists (k, v). split; [reflexivity | exact Hin].
  - intros k Hk. subst kwargs. apply get_update_other.
    rewrite keys_prefix_dist, keys_tagged. intros Hc.
    apply in_map_iff in Hc as (k' & <- & Hin). exact (Hk k' Hin eq_refl).
Qed.

Lemma prefix_spec (a s : string) :
  String.prefix a s = true <-> exists post, s = a +:+ post.
Proof.
  revert s. induction a as [|c a IH]; intros s; simpl.
  - split; [intros _; exists s; reflexivity | intros _; destruct s; reflexivity].
  - destruct s as [|d s]; simpl.
    + split; [discriminate | intros (post & H); discriminate].
    + destruct (ascii_dec c d) as [->|Hne].
      * rewrite IH. split; intros (post & H); exists post.
        -- rewrite H. reflexivity.
        -- change (String d a +:+ post) with (String d (a +:+ post)) in H.
           inversion H. reflexivity.
      * split; [discriminate|]. intros (post & H).
        change (String c a +:+ post) with (String c (a +:+ post)) in H.
        inversion H. congruence.
Qed.

Lemma str_contains_spec (sub s : string) :
  str_contains sub s = true <-> exists pre post, s = pre +:+ sub +:+ post.
Proof.
  split.
  - induction s as [|c s IH]; cbn [str_contains]; intros H.
    + apply prefix_spec in H as (post & H). exists "", post. exact H.
    + apply orb_true_iff in H as [H|H].
      * apply prefix_spec in H as (post & H). exists "", post. exact H.
      * destruct (IH H) as (pre & post & ->). exists (String c pre), post. reflexivity.
  - intros (pre & post & ->). induction pre as [|c pre IH].
    + change ("" +:+ sub +:+ post) with (sub +:+ post).
      assert (Hp : String.prefix sub (sub +:+ post) = true)
        by (apply prefix_spec; exists post; reflexivity).
      destruct (sub +:+ post); cbn [str_contains]; [exact Hp|].
      rewrite Hp. reflexivity.
    + change (String c pre +:+ sub +:+ post) with (String c (pre +:+ sub +:+ post)).
      cbn [str_contains]. rewrite IH. apply orb_true_r.
Qed.

(** X12. The non-accumulating path clips the gradient norm to 1 right after
    the backward pass exactly when [LIFT] occurs in the model name
    (anywhere, in this spelling); it makes no other clipping call. *)
Theorem lift_clip_iff_substring (images texts : list Elt) (s s1 : state)
    (losses : Dict.t R) (evs : list event) :
  step_no_accum images texts s = (inr losses, s1, evs) ->
  ((exists pre post, model args = pre +:+ "LIFT" +:+ post) ->
   List.filter is_clip evs = [ClipGradNorm 1]) /\
  (~ (exists pre post, model args = pre +:+ "LIFT" +:+ post) ->
   List.filter is_clip evs = []).
Proof.
  intros H. rewrite step_no_accum_run in H. cbv zeta in H.
  destruct (loss_fn _) as [|kv l]; [discriminate|].
  injection H as _ _ <-.
  destruct (str_contains "LIFT" (model args)) eqn:E.
  - split; [destruct (distill args); reflexivity|]. intros Hn. exfalso. apply Hn.
    apply str_contains_spec. exact E.
  - split; [|destruct (distill args); reflexivity].
    intros Hc. apply str_contains_spec in Hc. congruence.
Qed.

(** *** Iterations that only cache *)

Lemma preprocess_run (batch : list RawImage * list RawText) s it s' evs :
  during_training_data_preprocess (fst batch) (snd batch) s = (inr it, s', evs) ->
  it = preprocessed batch.
Proof.
  unfold during_training_data_preprocess, preprocessed, torch_stack, bind, ret, raise.
  destruct (map preprocess (fst batch)); [discriminate|].
  destruct (negb (truthy (text_embed_dim args)));
    [intros H; inversion H; reflexivity|].
  destruct (map from_numpy (snd batch)); [discriminate|].
  intros H; inversion H; reflexivity.
Qed.

Lemma loop_body_continue (epoch nbpe i : Z) (batch : list RawImage * list RawText)
    (s s' : state) (evs : list event) :
  accum_freq args > 1 ->
  (i + 1) mod accum_freq args <> 0 ->
  loop_body epoch nbpe i batch s = (inr tt, s', evs) ->
  net s' = net s /\ files s' = files s /\ end_ s' = end_ s /\
  batch_time_m s' = batch_time_m s /\ losses_m s' = losses_m s /\
  calls s' = S (S (calls s)) /\
  AverageMeter.update (data_time_m s) (time_fn (calls s) - end_ s) 1
  = inr (data_time_m s') /\
  evs = (if skip_scheduler args then []
         else [Scheduler (nbpe * epoch + i / accum_freq args)])
        ++ [ZeroGrad; Forward false (fst (preprocessed batch)) (snd (preprocessed batch))] /\
  forall a,
    accum s = Some a ->
    accum s'
    = Some {| accum_images := accum_images a ++ [fst (preprocessed batch)];
              accum_texts := accum_texts a ++ [snd (preprocessed batch)];
              accum_features :=
                cache_features
                  (tagged false
                     (strip (model_fn (S (calls s)) (fst (preprocessed batch))
                               (snd (preprocessed batch)))))
                  (accum_features a) |}.
Proof.
  intros HF Hmod H. unfold loop_body in H.
  destruct (Z.eqb_spec (accum_freq args) 1) as [E|_]; [lia|].
  pose proof (Z.mod_pos_bound (i + 1) (accum_freq args) ltac:(lia)) as Hb.
  run_ok H as H1.
  match type of H1 with
  | _ = (_, ?s1, ?t1) =>
      assert (Hs : s1 = s /\ t1 = (if skip_scheduler args then []
                 else [Scheduler (nbpe * epoch + i / accum_freq args)]))
        by (destruct (skip_scheduler args); run_step H1; auto);
      destruct Hs as [-> ->]; clear H1
  end.
  run_ok H as H1.
  pose proof (preprocess_run _ _ _ _ _ H1) as Hit.
  pose proof (preprocess_same_state _ _ _ _ _ _ H1) as Hs1. unfold same_state in Hs1.
  apply keeps_no_events_preprocess in H1.
  match type of H1 with ?t = [] => subst t end.
  match type of Hs1 with ?x = _ => subst x end.
  match type of Hit with ?x = _ => subst x end.
  run_ok H as H1. run_step H1.
  run_ok H as H1. run_step H1.
  run_ok H as H1. unfold meter_update, lift in H1. simpl in H1.
  destruct (AverageMeter.update (data_time_m s) (time_fn (calls s) - end_ s) 1)
    as [e|m] eqn:Hm; [run_step H1|]. run_step H1.
  run_ok H as H1. run_step H1.
  run_ok H as H1. run_step H1.
  run_ok H as H1.
  match type of H1 with
  | step_accum _ _ _ ?st = _ => destruct (accum st) as [a|] eqn:Ha
  end.
  - unfold step_accum in H1. run_ok H1 as H2.
    destruct (Z.gtb_spec ((i + 1) mod accum_freq args) 0) as [_|G]; [|lia].
    rewrite (cache_batch_run _ _ _ _ Ha) in H2. run_step H2. run_step H1.
    run_step H. simpl.
    repeat (split; [reflexivity|]).
    intros a0 Ha0. simpl in Ha. congruence.
  - match type of H1 with
    | step_accum _ ?im ?tx ?st = _ =>
        destruct (step_accum_unbound i im tx st Ha) as (name & Hr)
    end.
    rewrite Hr in H1. discriminate.
Qed.

(** X13. With [accum_freq > 1], an iteration that does not close the window
    (the [continue] of line 167) forwards its micro-batch once without
    gradient and nothing more: the model, the checkpoint files, the loss
    meters and the batch-time meter are untouched, and [end] is not moved,
    so that the data time of the next iteration is measured from the end
    of the last optimizer step. *)
Theorem continue_iteration (epoch nbpe i : Z) (batch : list RawImage * list RawText)
    (s s' : state) (evs : list event) :
  accum_freq args > 1 ->
  (i + 1) mod accum_freq args <> 0 ->
  loop_body epoch nbpe i batch s = (inr tt, s', evs) ->
  net s' = net s /\ files s' = files s /\ end_ s' = end_ s /\
  batch_time_m s' = batch_time_m s /\ losses_m s' = losses_m s /\
  calls s' = S (S (calls s)) /\
  AverageMeter.update (data_time_m s) (time_fn (calls s) - end_ s) 1
  = inr (data_time_m s') /\
  exists images texts,
    evs = (if skip_scheduler args then []
           else [Scheduler (nbpe * epoch + i / accum_freq args)])
          ++ [ZeroGrad; Forward false images texts].
Proof.
  intros HF Hmod H.
  destruct (loop_body_continue _ _ _ _ _ _ _ HF Hmod H)
    as (Hn & Hf & He & Hb & Hl & Hc & Hd & Hevs & _).
  repeat (split; [assumption|]). eexists _, _. exact Hevs.
Qed.

(** *** What a checkpoint holds *)

Lemma saves_current_refl epoch c s : saves_current epoch c s s [].
Proof. split; [reflexivity|]. intros ckpt path []. Qed.

Lemma saves_current_trans epoch c s1 s2 s3 t1 t2 :
  saves_current epoch c s1 s2 t1 -> saves_current epoch c s2 s3 t2 ->
  saves_current epoch c s1 s3 (t1 ++ t2).
Proof.
  intros [N1 H1] [N2 H2]. split; [congruence|].
  intros ckpt path Hin. apply in_app_or in Hin as [Hin|Hin].
  - exact (H1 _ _ Hin).
  - rewrite <- N1. exact (H2 _ _ Hin).
Qed.

Ltac saves_leaf :=
  let HH := fresh in
  let Hin := fresh in
  intros ? ? ? ? HH; inversion HH; subst; clear HH;
  split; [reflexivity|]; intros ? ? Hin; simpl in Hin;
  repeat (destruct Hin as [Hin|Hin]; [discriminate Hin|]);
  contradiction.

Lemma log_progress_saves_current epoch c step i_accum nbpe images losses :
  keeps (saves_current epoch c) (log_progress epoch step i_accum nbpe images losses).
Proof.
  keeps_using (saves_current_refl epoch c) (saves_current_trans epoch c)
    ltac:(solve [saves_leaf]).
Qed.

Lemma save_checkpoint_saves_current epoch step :
  keeps (saves_current epoch (step + 1)) (save_checkpoint epoch step).
Proof.
  intros s r s' evs H. unfold save_checkpoint in H.
  destruct (save_logs args && negb (save_every_n_steps args =? 0)
            && ((step + 1) mod save_every_n_steps args =? 0)).
  2: { inversion H; subst. apply saves_current_refl. }
  unfold bind, get_state, emit, modify, ret in H. simpl in H.
  destruct (delete_prev_step_ckpt args);
    [destruct (bool_decide _)|]; inversion H; subst; clear H;
    (split; [reflexivity|]); intros ckpt path Hin; simpl in Hin;
    repeat (destruct Hin as [Hin|Hin]; [try discriminate Hin|]);
    try contradiction; inversion Hin; subst; auto.
Qed.

(** X14. A checkpoint written by an iteration holds the model as the iteration
    leaves it, that is after the optimizer step and the clamp: its logit
    scale, when it has one, lies in [[0, ln 100]]. It is marked with the
    number of completed steps, [step + 1], and with the epoch. *)
Theorem checkpoint_holds_updated_net (epoch step i_accum nbpe : Z)
    (images : list Elt) (losses : option (Dict.t R)) (s s' : state)
    (r : exn + unit) (evs : list event) (ckpt : checkpoint) (path : string) :
  finish_step epoch step i_accum nbpe images losses s = (r, s', evs) ->
  In (TorchSave ckpt path) evs ->
  ck_state_dict ckpt = net s' /\
  ck_step ckpt = step + 1 /\
  ck_epoch ckpt = epoch /\
  path = checkpoint_file (step + 1) /\
  (forall v, getattr_logit_scale (unwrap_model (ck_state_dict ckpt)) = Some v ->
     (0 <= v <= math_log 100)%R).
Proof.
  intros H Hin. unfold finish_step in H.
  apply bind_run in H as [(e & H & _) | (u & s1 & t1 & t1' & H1 & H & ->)];
    [rewrite gradient_finalization_run in H; discriminate|].
  rewrite gradient_finalization_run in H1.
  assert (Ht1 : t1 = finalization_events) by congruence.
  assert (Hs1 : s1 = set_net (map_logit_scale (optimizer_fn (calls s))) (ticked s))
    by congruence.
  clear H1. subst t1.
  apply in_app_or in Hin as [Hin|Hin].
  { exfalso. unfold finalization_events in Hin.
    destruct scaler, (horovod args), (grad_clip_norm args); simpl in Hin;
      repeat (destruct Hin as [Hin|Hin]; [discriminate Hin|]); contradiction. }
  apply bind_run in H as [(e & H & _) | (u' & s2 & t2 & t2' & H2 & H & ->)].
  { destruct (accum_freq args >? 1); discriminate. }
  assert (Hs2 : net s2 = net s1 /\ t2 = [])
    by (destruct (accum_freq args >? 1); inversion H2; subst; auto).
  destruct Hs2 as [Hs2 ->]. clear H2. simpl in Hin.
  apply bind_run in H as [(e & H & ->) | (u'' & s3 & t3 & t3' & H3 & H & ->)].
  { exfalso. unfold clamp_step, bind, get_state in H.
    destruct (hasattr_logit_scale (unwrap_model (net s2))); simpl in H;
      inversion H; subst; simpl in Hin;
      repeat (destruct Hin as [Hin|Hin]; [discriminate Hin|]); contradiction. }
  assert (Hclamped : forall v, getattr_logit_scale (unwrap_model (net s3)) = Some v ->
                       (0 <= v <= math_log 100)%R).
  { unfold clamp_step, bind, get_state in H3.
    destruct (hasattr_logit_scale (unwrap_model (net s2))) eqn:Hattr; simpl in H3.
    - inversion H3; subst; clear H3. simpl. intros v Hv.
      destruct (clamp_logit_scale_range _ Hattr) as (v' & Hv' & Hr). congruence.
    - inversion H3; subst; clear H3. intros v Hv.
      destruct (net s3) as [[w|]|[[w|]|m']]; simpl in Hattr, Hv; discriminate. }
  assert (Ht3 : ~ In (TorchSave ckpt path) t3).
  { unfold clamp_step, bind, get_state in H3.
    destruct (hasattr_logit_scale (unwrap_model (net s2))); simpl in H3;
      inversion H3; subst; simpl; intros Hc;
      repeat (destruct Hc as [Hc|Hc]; [discriminate Hc|]); contradiction. }
  apply in_app_or in Hin as [Hin|Hin]; [contradiction|].
  clear H3 Ht3.
  match type of H with
  | ?m _ = _ => assert (K : keeps (saves_current epoch (step + 1)) m)
  end.
  { keeps_using (saves_current_refl epoch (step + 1))
      (saves_current_trans epoch (step + 1))
      ltac:(first [ apply log_progress_saves_current
                  | apply save_checkpoint_saves_current
                  | solve [saves_leaf] ]). }
  apply K in H as [Hnet Hsave].
  destruct (Hsave _ _ Hin) as (Hc1 & Hc2 & Hc3 & Hc4).
  split; [congruence|]. split; [exact Hc2|]. split; [exact Hc3|].
  split; [exact Hc4|]. rewrite Hc1. exact Hclamped.
Qed.

(** *** Forward and backward passes per optimizer step *)

Section Counting.
(** A kind of event that only forward and backward passes can be of,
    told by the gradient mode alone. *)
Variable p : event -> bool.
Variable pf : bool -> bool.
Variable pb : bool.
Hypothesis p_forward : forall g images texts, p (Forward g images texts) = pf g.
Hypothesis p_backward : forall scaled v, p (Backward scaled v) = pb.
Hypothesis p_other : forall e,
  match e with Forward _ _ _ | Backward _ _ => False | _ => True end -> p e = false.

Ltac count_leaf :=
  let HH := fresh in
  intros ? ? ? ? HH; inversion HH; subst; clear HH;
  cbv [quiet]; simpl; rewrite ?p_other by exact I; reflexivity.

Lemma recompute_count a j s r s' evs :
  recompute a j s = (inr r, s', evs) ->
  count_events p evs = (Nat.b2n (pf true) + Nat.b2n pb)%nat.
Proof using p_forward p_backward p_other.
  intros H. unfold recompute, list_index in H.
  destruct (nth_error (accum_images a) j) as [images|] eqn:Hi;
    [|run_bind H as H1; run_step H1; discriminate].
  destruct (nth_error (accum_texts a) j) as [texts|] eqn:Ht;
    [|run_ok H as H1; run_step H1; run_bind H as H1; run_step H1; discriminate].
  run_ok H as H1. run_step H1.
  run_ok H as H1. run_step H1.
  run_ok H as H1. rewrite forward_run in H1. run_step H1.
  run_ok H as H1.
  match type of H1 with
  | lift ?x _ = _ => destruct x as [e|sp]; run_step H1
  end.
  run_ok H as H1.
  match type of H1 with
  | lift ?x _ = _ => destruct x as [e|inputs]; run_step H1
  end.
  run_ok H as H1. rewrite loss_and_backward_run in H1.
  destruct (loss_fn (inputs ++ fst sp)); [discriminate|].
  run_step H1. run_step H.
  unfold count_events. simpl.
  rewrite p_forward, p_backward, (p_other (Loss _)) by exact I.
  destruct (pf true), pb; reflexivity.
Qed.

Lemma recompute_all_count a js :
  forall cur s r s' evs,
    recompute_all a js cur s = (inr r, s', evs) ->
    count_events p evs = (length js * (Nat.b2n (pf true) + Nat.b2n pb))%nat.
Proof using p_forward p_backward p_other.
  induction js as [|j js IH]; intros cur s r s' evs H; simpl in H.
  - run_step H. reflexivity.
  - run_ok H as H1. apply recompute_count in H1. apply IH in H.
    rewrite count_events_app, H1, H. simpl. lia.
Qed.

Lemma finish_step_count epoch step i_accum nbpe images losses :
  keeps (quiet p) (finish_step epoch step i_accum nbpe images losses).
Proof using p_other.
  keeps_using (quiet_refl p) (quiet_trans p) ltac:(solve [count_leaf]).
Qed.

Lemma loop_body_count epoch nbpe i batch s s' evs :
  1 <= accum_freq args ->
  loop_body epoch nbpe i batch s = (inr tt, s', evs) ->
  count_events p evs
  = if accum_freq args =? 1 then Nat.add (Nat.b2n (pf true)) (Nat.b2n pb)
    else Nat.add (Nat.b2n (pf false))
           (if (i + 1) mod accum_freq args =? 0
            then Nat.mul (Z.to_nat (accum_freq args))
                   (Nat.add (Nat.b2n (pf true)) (Nat.b2n pb))
            else 0%nat).
Proof using p_forward p_backward p_other.
  intros HF H. unfold loop_body in H.
  run_ok H as H1.
  match type of H1 with
  | _ = (_, _, ?t) => assert (Q1 : count_events p t = 0%nat)
  end.
  { destruct (skip_scheduler args); run_step H1; unfold count_events; simpl;
      rewrite ?p_other by exact I; reflexivity. }
  clear H1. rewrite count_events_app, Q1. clear Q1.
  run_ok H as H1. apply keeps_no_events_preprocess in H1.
  match type of H1 with ?t = [] => subst t end.
  run_ok H as H1. run_step H1.
  run_ok H as H1. run_step H1.
  run_ok H as H1.
  apply (keeps_meter_update _ no_events_refl) in H1. unfold no_events in H1.
  match type of H1 with ?t = [] => subst t end.
  run_ok H as H1. run_step H1.
  run_ok H as H1. run_step H1.
  unfold count_events. simpl. rewrite (p_other ZeroGrad) by exact I.
  match goal with
  | |- context [List.filter p ?t] =>
      change (length (List.filter p t)) with (count_events p t)
  end.
  destruct (Z.eqb_spec (accum_freq args) 1) as [E|E].
  - run_ok H as H1. rewrite step_no_accum_run in H1. cbv zeta in H1.
    destruct (loss_fn _); [discriminate|].
    apply finish_step_count in H. unfold quiet in H.
    rewrite count_events_app, (count_events_quiet _ _ H).
    match type of H1 with
    | (_, _, ?t) = (_, _, ?t') => assert (Ht : t' = t) by congruence
    end.
    rewrite Ht. unfold count_events.
    destruct (distill args), (str_contains "LIFT" (model args)); simpl;
      rewrite ?p_forward, ?p_backward, ?p_other by exact I;
      destruct (pf true), pb; reflexivity.
  - run_ok H as H1. rewrite count_events_app.
    unfold step_accum in H1. run_ok H1 as H2.
    match type of H2 with
    | _ = (_, _, ?t) => assert (Q2 : count_events p t = Nat.b2n (pf false))
    end.
    { unfold cache_batch in H2. run_ok H2 as H3. rewrite forward_run in H3.
      run_step H3. run_ok H2 as H3.
      unfold get_accum, bind, get_state in H3. simpl in H3.
      match type of H3 with
      | context [match accum ?st with _ => _ end] => destruct (accum st); [|discriminate]
      end.
      run_step H3. run_step H2. unfold count_events. simpl.
      rewrite p_forward. destruct (pf false); reflexivity. }
    rewrite count_events_app, Q2. clear H2 Q2.
    pose proof (Z.mod_pos_bound (i + 1) (accum_freq args) ltac:(lia)) as Hb.
    destruct (Z.gtb_spec ((i + 1) mod accum_freq args) 0) as [G|G].
    + run_step H1. run_step H.
      destruct (Z.eqb_spec ((i + 1) mod accum_freq args) 0); [lia|].
      unfold count_events. simpl. lia.
    + run_ok H1 as H2. run_step H2.
      run_ok H1 as H2.
      match type of H2 with
      | _ = (_, _, ?t) => assert (Q3 : t = [])
      end.
      { unfold get_accum, bind, get_state in H2. simpl in H2.
        match type of H2 with
        | context [match accum ?st with _ => _ end] => destruct (accum st); [|discriminate]
        end.
        run_step H2. reflexivity. }
      rewrite Q3. clear Q3 H2.
      run_ok H1 as H2. apply recompute_all_count in H2.
      run_step H1.
      match type of H with
      | (let '(_, _) := ?q in _) _ = _ => destruct q
      end.
      apply finish_step_count in H. unfold quiet in H.
      rewrite (count_events_quiet _ _ H).
      rewrite !count_events_app, H2.
      unfold count_events at 1 2. simpl. rewrite (p_other ZeroGrad) by exact I.
      unfold py_range. rewrite length_seq.
      destruct (Z.eqb_spec ((i + 1) mod accum_freq args) 0); [|lia].
      unfold count_events. simpl. nia.
Qed.

Lemma loop_count epoch nbpe l :
  1 <= accum_freq args ->
  forall i s s' evs,
    0 <= i ->
    for_enumerate i l (loop_body epoch nbpe) s = (inr tt, s', evs) ->
    count_events p evs
    = if accum_freq args =? 1
      then Nat.mul (length l) (Nat.add (Nat.b2n (pf true)) (Nat.b2n pb))
      else Nat.add (Nat.mul (length l) (Nat.b2n (pf false)))
             (Nat.mul
                (Nat.mul (Z.to_nat (accum_freq args))
                   (Z.to_nat ((i + Z.of_nat (length l)) / accum_freq args
                              - i / accum_freq args)))
                (Nat.add (Nat.b2n (pf true)) (Nat.b2n pb))).
Proof using p_forward p_backward p_other.
  intros HF. set (F := accum_freq args) in HF |- *.
  induction l as [|x l IH]; intros i s s' evs Hi H.
  - run_step H. simpl length. rewrite Z.add_0_r, Z.sub_diag.
    unfold count_events. simpl. destruct (F =? 1); lia.
  - simpl in H. run_ok H as H1.
    match type of H1 with _ = (inr ?u, _, _) => destruct u end.
    apply loop_body_count in H1; [|exact HF]. fold F in H1.
    apply IH in H; [|lia].
    rewrite count_events_app, H1, H. clear H1 H.
    pose proof (div_succ F i HF Hi) as Hdiv.
    assert (Hmono : (i + 1) / F <= (i + 1 + Z.of_nat (length l)) / F)
      by (apply Z.div_le_mono; lia).
    assert (Hlen : i + Z.of_nat (length (x :: l)) = i + 1 + Z.of_nat (length l))
      by (simpl length; lia).
    rewrite Hlen.
    set (D := Z.to_nat ((i + 1 + Z.of_nat (length l)) / F - (i + 1) / F)).
    assert (Hsteps : Z.to_nat ((i + 1 + Z.of_nat (length l)) / F - i / F)
                     = Nat.add (if (i + 1) mod F =? 0 then 1%nat else 0%nat) D).
    { subst D. destruct ((i + 1) mod F =? 0); lia. }
    rewrite Hsteps. simpl length.
    destruct (F =? 1); [lia|].
    destruct ((i + 1) mod F =? 0); nia.
Qed.
End Counting.

Lemma epoch_loop epoch s s' evs :
  train_one_epoch epoch s = (inr tt, s', evs) ->
  exists s0 t,
    for_enumerate 0 (batches dataloader)
      (loop_body epoch (num_batches dataloader / accum_freq args)) s0
    = (inr tt, s', t) /\
    evs = ModelTrain :: (if distill args then [DistModelEval] else [])
          ++ SetEpoch epoch :: t /\
    accum s0 = (if accum_freq args >? 1 then Some accum_empty else None) /\
    losses_m s0 = [] /\ net s0 = net s /\ files s0 = files s.
Proof.
  intros H. rewrite train_one_epoch_run in H.
  destruct (run_batches epoch s) as [[r0 s0] t0] eqn:Hrun.
  assert (r0 = inr tt) by congruence.
  assert (s0 = s') by congruence.
  assert (Hevs : evs = ModelTrain :: (if distill args then [DistModelEval] else []) ++ t0)
    by congruence.
  subst r0 s0. clear H.
  unfold run_batches in Hrun.
  run_ok Hrun as H1. run_step H1.
  run_ok Hrun as H1.
  destruct (accum_freq args =? 0); run_step H1.
  run_ok Hrun as H1.
  destruct (num_samples dataloader + 1 <=? 0); run_step H1.
  run_ok Hrun as H1. run_step H1.
  run_ok Hrun as H1. run_step H1.
  run_ok Hrun as H1. run_step H1.
  run_ok Hrun as H1. run_step H1.
  run_ok Hrun as H1. run_step H1.
  run_ok Hrun as H1. run_step H1.
  eexists _, _. split; [exact Hrun|].
  split; [rewrite Hevs; reflexivity|].
  repeat split.
Qed.

(** X15. Gradient accumulation: in an epoch that runs to its end, backward
    passes and forward passes with gradient come in equal number, [F] of
    each for every optimizer step; when accumulating ([F > 1]), every
    micro-batch is in addition forwarded once without gradient. *)
Theorem passes_per_optimizer_step (epoch : Z) (s s' : state) (evs : list event) :
  1 <= accum_freq args ->
  train_one_epoch epoch s = (inr tt, s', evs) ->
  count_events is_backward evs
  = Nat.mul (Z.to_nat (accum_freq args)) (count_events is_optimizer_step evs) /\
  count_events (is_forward true) evs = count_events is_backward evs /\
  count_events (is_forward false) evs
  = (if accum_freq args =? 1 then 0%nat else length (batches dataloader)) /\
  count_events is_optimizer_step evs
  = Z.to_nat (Z.of_nat (length (batches dataloader)) / accum_freq args).
Proof.
  intros HF H. apply epoch_loop in H as (s0 & t & Hloop & -> & _).
  assert (Hpre : forall q,
            q ModelTrain = false -> q DistModelEval = false ->
            q (SetEpoch epoch) = false ->
            count_events q
              (ModelTrain :: (if distill args then [DistModelEval] else [])
               ++ SetEpoch epoch :: t)
            = count_events q t).
  { intros q Q1 Q2 Q3. unfold count_events.
    destruct (distill args); simpl; rewrite ?Q1, ?Q2, ?Q3; reflexivity. }
  rewrite !Hpre by reflexivity.
  pose proof (loop_count is_backward (fun _ => false) true
                ltac:(reflexivity) ltac:(reflexivity)
                ltac:(intros [] He; solve [reflexivity | contradiction])
                _ _ _ HF _ _ _ _ (Z.le_refl 0) Hloop) as Hb.
  pose proof (loop_count (is_forward true) (Bool.eqb true) false
                ltac:(reflexivity) ltac:(reflexivity)
                ltac:(intros [] He; solve [reflexivity | contradiction])
                _ _ _ HF _ _ _ _ (Z.le_refl 0) Hloop) as Hf.
  pose proof (loop_count (is_forward false) (Bool.eqb false) false
                ltac:(reflexivity) ltac:(reflexivity)
                ltac:(intros [] He; solve [reflexivity | contradiction])
                _ _ _ HF _ _ _ _ (Z.le_refl 0) Hloop) as Hn.
  destruct (loop_shape _ _ _ HF _ _ _ _ (Z.le_refl 0) Hloop) as (_ & Hsteps & _).
  rewrite Z.add_0_l, Z.div_0_l, Z.sub_0_r in Hb, Hf, Hn, Hsteps by lia.
  simpl Nat.b2n in Hb, Hf, Hn.
  rewrite Hb, Hf, Hn, Hsteps.
  destruct (Z.eqb_spec (accum_freq args) 1) as [E|E].
  - rewrite E, Z.div_1_r. repeat split; lia.
  - repeat split; lia.
Qed.

(** *** Micro-batches beyond the last complete window *)

Lemma mod_succ (F i : Z) :
  1 <= F -> 0 <= i ->
  (i + 1) mod F = if (i + 1) mod F =? 0 then 0 else i mod F + 1.
Proof.
  intros HF Hi.
  pose proof (Z.div_mod i F ltac:(lia)) as Hd.
  pose proof (Z.mod_pos_bound i F ltac:(lia)) as Hb.
  destruct (Z.eqb_spec ((i + 1) mod F) 0) as [E|E]; [exact E|].
  destruct (Z.eq_dec (i mod F + 1) F) as [E'|E'].
  - exfalso. apply E. symmetry. apply (Z.mod_unique_pos _ _ (i / F + 1)); lia.
  - symmetry. apply (Z.mod_unique_pos _ _ (i / F)); lia.
Qed.

Lemma loop_cache epoch nbpe l :
  accum_freq args > 1 ->
  forall i s s' evs a w,
    0 <= i ->
    accum s = Some a ->
    holds a w ->
    Z.of_nat (length w) = i mod accum_freq args ->
    for_enumerate i l (loop_body epoch nbpe) s = (inr tt, s', evs) ->
    exists a' w',
      accum s' = Some a' /\ holds a' w' /\
      Z.of_nat (length w') = (i + Z.of_nat (length l)) mod accum_freq args.
Proof.
  intros HF. induction l as [|x l IH]; intros i s s' evs a w Hi Ha Hw Hlen H.
  - run_step H. exists a, w. simpl length. rewrite Z.add_0_r. auto.
  - simpl in H. run_ok H as H1.
    match type of H1 with _ = (inr ?u, _, _) => destruct u end.
    destruct (loop_body_cache _ _ _ _ _ _ _ _ _ HF Ha Hw H1) as (a1 & Ha1 & Hcase).
    pose proof (mod_succ (accum_freq args) i ltac:(lia) Hi) as Hsucc.
    pose proof (Z.mod_pos_bound (i + 1) (accum_freq args) ltac:(lia)) as Hb.
    replace (i + Z.of_nat (length (x :: l))) with (i + 1 + Z.of_nat (length l))
      by (simpl length; lia).
    destruct (Z.gtb_spec ((i + 1) mod accum_freq args) 0) as [G|G].
    + destruct Hcase as (images & texts & n & Hw1).
      refine (IH (i + 1) _ _ _ _ _ _ Ha1 Hw1 _ H); [lia|].
      rewrite length_app. simpl length.
      destruct (Z.eqb_spec ((i + 1) mod accum_freq args) 0); lia.
    + refine (IH (i + 1) _ _ _ _ [] _ Ha1 Hcase _ H); [lia|].
      simpl length. lia.
Qed.

Lemma skipn_suffix {A} (d p : list A) :
  skipn (length (d ++ p) - length p) (d ++ p) = p.
Proof.
  rewrite length_app.
  replace (length d + length p - length p)%nat with (length d) by lia.
  induction d as [|x d IH]; [reflexivity | exact IH].
Qed.

Lemma count_concat_skipn p (segs : list (list event)) :
  forall n,
    (forall k seg, (n <= k)%nat -> nth_error segs k = Some seg ->
                   count_events p seg = 0%nat) ->
    count_events p (concat (skipn n segs)) = 0%nat.
Proof.
  induction segs as [|seg segs IH]; intros n H.
  - destruct n; reflexivity.
  - destruct n as [|n].
    + simpl. rewrite count_events_app, (H 0%nat seg (Nat.le_refl 0) eq_refl).
      apply (IH 0%nat). intros k sg _ Hk. apply (H (S k) sg); [lia | exact Hk].
    + simpl. apply IH. intros k sg Hle Hk. apply (H (S k) sg); [lia | exact Hk].
Qed.

(** The cache along the loop, with the batches it comes from: [pend] are
    the batches of the open window, [w] what the cache holds for them. *)
Lemma loop_trailing epoch nbpe l :
  accum_freq args > 1 ->
  forall i s s' evs a w pend,
    0 <= i ->
    accum s = Some a ->
    holds a w ->
    map fst w = map preprocessed pend ->
    Forall fresh_output w ->
    Z.of_nat (length w) = i mod accum_freq args ->
    for_enumerate i l (loop_body epoch nbpe) s = (inr tt, s', evs) ->
    exists a' w' done pend',
      accum s' = Some a' /\ holds a' w' /\
      map fst w' = map preprocessed pend' /\
      Forall fresh_output w' /\
      pend ++ l = done ++ pend' /\
      Z.of_nat (length w') = (i + Z.of_nat (length l)) mod accum_freq args.
Proof.
  intros HF. induction l as [|x l IH]; intros i s s' evs a w pend Hi Ha Hw Hp Hm Hlen H.
  - run_step H. exists a, w, [], pend. simpl length. rewrite Z.add_0_r, app_nil_r.
    auto 10.
  - simpl in H. run_ok H as H1.
    match type of H1 with _ = (inr ?u, _, _) => destruct u end.
    pose proof (mod_succ (accum_freq args) i ltac:(lia) Hi) as Hsucc.
    pose proof (Z.mod_pos_bound (i + 1) (accum_freq args) ltac:(lia)) as Hb.
    replace (i + Z.of_nat (length (x :: l))) with (i + 1 + Z.of_nat (length l))
      by (simpl length; lia).
    destruct (Z.eq_dec ((i + 1) mod accum_freq args) 0) as [G|G].
    + destruct (loop_body_cache _ _ _ _ _ _ _ _ _ HF Ha Hw H1) as (a1 & Ha1 & Hcase).
      destruct (Z.gtb_spec ((i + 1) mod accum_freq args) 0) as [G'|_]; [lia|].
      destruct (IH (i + 1) _ _ _ a1 [] [] ltac:(lia) Ha1 Hcase eq_refl
                  (List.Forall_nil _) ltac:(simpl length; lia) H)
        as (a' & w' & done & pend' & Ha' & Hw' & Hp' & Hm' & Hsplit & Hlen').
      exists a', w', (pend ++ x :: done), pend'.
      repeat (split; [assumption|]). split; [|exact Hlen'].
      simpl in Hsplit. rewrite Hsplit, <- app_assoc. reflexivity.
    + destruct (loop_body_continue _ _ _ _ _ _ _ HF G H1)
        as (_ & _ & _ & _ & _ & _ & _ & _ & Hacc).
      specialize (Hacc _ Ha).
      pose proof (holds_snoc _ _ (fst (preprocessed x)) (snd (preprocessed x))
                    (model_fn (S (calls s)) (fst (preprocessed x))
                       (snd (preprocessed x))) Hw) as Hw1.
      set (x' := (fst (preprocessed x), snd (preprocessed x),
                  model_fn (S (calls s)) (fst (preprocessed x))
                    (snd (preprocessed x)))) in Hw1.
      assert (Hp1 : map fst (w ++ [x']) = map preprocessed (pend ++ [x]))
        by (rewrite !map_app, Hp; reflexivity).
      assert (Hm1 : Forall fresh_output (w ++ [x'])).
      { apply Forall_app. split; [exact Hm|].
        constructor; [|constructor]. eexists. reflexivity. }
      assert (Hlen1 : Z.of_nat (length (w ++ [x'])) = (i + 1) mod accum_freq args).
      { rewrite length_app. simpl length.
        destruct (Z.eqb_spec ((i + 1) mod accum_freq args) 0); lia. }
      destruct (IH (i + 1) _ _ _ _ _ (pend ++ [x]) ltac:(lia) Hacc Hw1 Hp1 Hm1 Hlen1 H)
        as (a' & w' & done & pend' & Ha' & Hw' & Hp' & Hm' & Hsplit & Hlen').
      exists a', w', done, pend'.
      repeat (split; [assumption|]). split; [|exact Hlen'].
      rewrite <- Hsplit, <- app_assoc. reflexivity.
Qed.

(** X16. With [accum_freq = F > 1] and [B] micro-batches, the [B mod F]
    micro-batches after the last complete window are forwarded and cached,
    and that is all.  At the end of the epoch the accumulation buffers
    hold exactly them: the preprocessed images and texts of the last
    [B mod F] batches of the data source, in order, each with an output
    of the model for it.  The iterations over these batches call the
    scheduler (unless disabled), reset the gradients and forward the batch
    without gradient, nothing else; all [B / F] optimizer steps of the
    epoch come before them. *)
Theorem trailing_batches_stay_cached (epoch : Z) (s s' : state) (evs : list event) :
  accum_freq args > 1 ->
  train_one_epoch epoch s = (inr tt, s', evs) ->
  let F := accum_freq args in
  let B := length (batches dataloader) in
  let first_trailing := (B - Z.to_nat (Z.of_nat B mod F))%nat in
  let trailing := skipn first_trailing (batches dataloader) in
  exists a w segs,
    accum s' = Some a /\ holds a w /\
    map fst w = map preprocessed trailing /\
    Forall fresh_output w /\
    accum_images a = map (fun b => fst (preprocessed b)) trailing /\
    accum_texts a = map (fun b => snd (preprocessed b)) trailing /\
    Z.of_nat (length trailing) = Z.of_nat B mod F /\
    evs = ModelTrain :: (if distill args then [DistModelEval] else [])
          ++ SetEpoch epoch :: concat segs /\
    length segs = B /\
    (forall k seg,
       (first_trailing <= k)%nat -> nth_error segs k = Some seg ->
       exists batch,
         nth_error (batches dataloader) k = Some batch /\
         seg = (if skip_scheduler args then []
                else [Scheduler (num_batches dataloader / F * epoch + Z.of_nat k / F)])
               ++ [ZeroGrad;
                   Forward false (fst (preprocessed batch)) (snd (preprocessed batch))]) /\
    count_events is_optimizer_step (concat (firstn first_trailing segs))
    = Z.to_nat (Z.of_nat B / F) /\
    count_events is_optimizer_step (concat (skipn first_trailing segs)) = 0%nat.
Proof.
  intros HF H F B first_trailing trailing.
  apply epoch_loop in H as (s0 & t & Hloop & Hevs & Ha & _).
  destruct (Z.gtb_spec (accum_freq args) 1) as [_|G]; [|lia].
  destruct (loop_trailing _ _ _ HF 0 _ _ _ accum_empty [] [] (Z.le_refl 0) Ha
              ltac:(repeat split) eq_refl (List.Forall_nil _)
              ltac:(rewrite Z.mod_0_l by lia; reflexivity) Hloop)
    as (a & w & done & pend & Ha' & Hw & Hp & Hm & Hsplit & Hlen).
  simpl in Hsplit. rewrite Z.add_0_l in Hlen. fold B F in Hlen.
  assert (Hpl : length pend = length w).
  { rewrite <- (length_map preprocessed pend), <- Hp. apply length_map. }
  assert (Htr : trailing = pend).
  { unfold trailing, first_trailing. rewrite <- Hlen, Nat2Z.id, <- Hpl.
    unfold B. rewrite Hsplit. apply skipn_suffix. }
  destruct (for_enumerate_segments _ _ _ _ _ _ Hloop) as (segs & Ht & Hsl & Hseg).
  assert (Htail : forall k seg,
            (first_trailing <= k)%nat -> nth_error segs k = Some seg ->
            exists batch,
              nth_error (batches dataloader) k = Some batch /\
              seg = (if skip_scheduler args then []
                     else [Scheduler (num_batches dataloader / F * epoch
                                      + Z.of_nat k / F)])
                    ++ [ZeroGrad;
                        Forward false (fst (preprocessed batch))
                          (snd (preprocessed batch))]).
  { intros k seg Hk Hnth.
    destruct (Hseg _ _ Hnth) as (batch & sk & sk' & Hb & Hrun).
    rewrite Z.add_0_l in Hrun.
    assert (HkB : (k < B)%nat).
    { unfold B. rewrite <- Hsl. apply nth_error_Some. congruence. }
    assert (Hmod : (Z.of_nat k + 1) mod F <> 0).
    { pose proof (Z.div_mod (Z.of_nat B) F ltac:(lia)) as Hd.
      pose proof (Z.mod_pos_bound (Z.of_nat B) F ltac:(lia)) as Hbd.
      assert (Hq : 0 <= Z.of_nat B / F) by (apply Z.div_pos; lia).
      unfold first_trailing in Hk.
      rewrite <- (Z.mod_unique_pos (Z.of_nat k + 1) F (Z.of_nat B / F)
                    (Z.of_nat k + 1 - F * (Z.of_nat B / F))); lia. }
    destruct (loop_body_continue _ _ _ _ _ _ _ HF Hmod Hrun)
      as (_ & _ & _ & _ & _ & _ & _ & Hevs' & _).
    exists batch. split; [exact Hb | exact Hevs']. }
  assert (Hzero : count_events is_optimizer_step (concat (skipn first_trailing segs))
                  = 0%nat).
  { apply count_concat_skipn. intros k seg Hk Hnth.
    destruct (Htail _ _ Hk Hnth) as (batch & _ & ->).
    unfold count_events. destruct (skip_scheduler args); reflexivity. }
  exists a, w, segs.
  split; [exact Ha'|]. split; [exact Hw|].
  split; [rewrite Htr; exact Hp|]. split; [exact Hm|].
  destruct Hw as (Hi & Hx & _).
  split.
  { rewrite Hi, Htr, <- (map_map preprocessed fst), <- Hp, map_map. reflexivity. }
  split.
  { rewrite Hx, Htr, <- (map_map preprocessed snd), <- Hp, map_map. reflexivity. }
  split; [rewrite Htr, Hpl; exact Hlen|].
  split; [rewrite Hevs, Ht; reflexivity|].
  split; [exact Hsl|]. split; [exact Htail|]. split; [|exact Hzero].
  destruct (loop_shape _ _ _ ltac:(lia) _ _ _ _ (Z.le_refl 0) Hloop) as (_ & Hn & _).
  rewrite Z.add_0_l, Z.div_0_l, Z.sub_0_r in Hn by lia.
  rewrite Ht, <- (firstn_skipn first_trailing segs), concat_app, count_events_app in Hn.
  rewrite Hzero, Nat.add_0_r in Hn. exact Hn.
Qed.

(** *** What a log emission reports *)






(** *** Which calls go with which configuration *)

Lemma all_events_refl P s : all_events P s s [].
Proof. constructor. Qed.

Lemma all_events_trans P s1 s2 s3 t1 t2 :
  all_events P s1 s2 t1 -> all_events P s2 s3 t2 -> all_events P s1 s3 (t1 ++ t2).
Proof. unfold all_events. intros H1 H2. apply Forall_app. split; assumption. Qed.

Ltac discipline_leaf :=
  let HH := fresh in
  intros ? ? ? ? HH; inversion HH; subst; clear HH;
  cbv [all_events];
  repeat (constructor; [simpl; auto; try (intros; congruence)|]);
  constructor.

Lemma step_no_accum_discipline images texts :
  accum_freq args = 1 ->
  keeps (all_events discipline) (step_no_accum images texts).
Proof.
  intros HF s r s' evs H. rewrite step_no_accum_run in H. cbv zeta in H.
  unfold all_events.
  destruct (loss_fn _);
    destruct (distill args) eqn:Hd, (str_contains "LIFT" (model args)) eqn:HL;
    inversion H; subst; clear H; simpl;
    repeat (constructor; [simpl; auto; try (intros; congruence)|]); constructor.
Qed.

Lemma recompute_all_discipline a js cur :
  accum_freq args <> 1 ->
  keeps (all_events discipline) (recompute_all a js cur).
Proof.
  intros HF. revert cur. induction js as [|j js IH]; intros cur; simpl.
  - apply (keeps_ret _ (all_events_refl _)).
  - apply (keeps_bind _ (all_events_trans _)); [|intros r; apply IH].
    keeps_using (all_events_refl discipline) (all_events_trans discipline)
      ltac:(solve [discipline_leaf]).
Qed.

Lemma gradient_finalization_discipline :
  keeps (all_events discipline) gradient_finalization.
Proof.
  intros s r s' evs H. rewrite gradient_finalization_run in H.
  assert (Hevs : evs = finalization_events) by congruence.
  rewrite Hevs. unfold all_events, finalization_events.
  destruct scaler eqn:Hs, (horovod args) eqn:Hh, (grad_clip_norm args) eqn:Hc;
    repeat (constructor;
            [simpl; rewrite ?Hs, ?Hh, ?Hc; auto;
             try (split; auto; right; congruence)|]);
    constructor.
Qed.

Lemma finish_step_discipline epoch step i_accum nbpe images losses :
  keeps (all_events discipline) (finish_step epoch step i_accum nbpe images losses).
Proof.
  unfold finish_step.
  keeps_using (all_events_refl discipline) (all_events_trans discipline)
    ltac:(first [ apply gradient_finalization_discipline
                | solve [discipline_leaf] ]).
Qed.

Lemma loop_body_discipline epoch nbpe i batch :
  keeps (all_events discipline) (loop_body epoch nbpe i batch).
Proof.
  unfold loop_body.
  destruct (Z.eqb_spec (accum_freq args) 1) as [E|E].
  - keeps_using (all_events_refl discipline) (all_events_trans discipline)
      ltac:(first [ apply finish_step_discipline
                  | apply step_no_accum_discipline; exact E
                  | solve [discipline_leaf] ]).
  - keeps_using (all_events_refl discipline) (all_events_trans discipline)
      ltac:(first [ apply finish_step_discipline
                  | apply recompute_all_discipline; exact E
                  | solve [discipline_leaf] ]).
Qed.

(** X19. Whatever an epoch does, and whether it ends or fails: a backward pass
    is scaled exactly when there is a scaler; the optimizer is stepped
    directly only without a scaler, and through the scaler (then updated)
    only with one, the automatic synchronization being suppressed exactly
    under horovod; gradients are unscaled only under horovod or before a
    configured clipping, and synchronized by hand only with scaler and
    horovod; a clipping is the configured one, or the one to norm 1 of a
    LIFT model on the non-accumulating path; the teacher is called only
    when distilling without accumulation; a forward pass without gradient
    is made only when accumulating. *)
Theorem call_discipline (epoch : Z) (s s' : state) (r : exn + unit)
    (evs : list event) :
  train_one_epoch epoch s = (r, s', evs) ->
  Forall discipline evs.
Proof.
  revert s r s' evs. change (keeps (all_events discipline) (train_one_epoch epoch)).
  unfold train_one_epoch, run_batches.
  destruct (distill args) eqn:Hd.
  - keeps_using (all_events_refl discipline) (all_events_trans discipline)
      ltac:(first [ apply loop_body_discipline
                  | solve [discipline_leaf] ]).
  - keeps_using (all_events_refl discipline) (all_events_trans discipline)
      ltac:(first [ apply loop_body_discipline
                  | solve [discipline_leaf] ]).
Qed.

(** *** Unbound local variables *)

Section Bound.
Variable P : option accum_state -> Prop.

Lemma bound_ret {A} (Q : A -> Prop) (a : A) : Q a -> bound P Q (ret a).
Proof. intros Ha s r s' evs HP H. inversion H; subst. auto. Qed.

Lemma bound_raise {A} (Q : A -> Prop) (e : exn) :
  (forall name, e <> UnboundLocalError name) -> bound P Q (@raise A e).
Proof. intros He s r s' evs HP H. inversion H; subst. auto. Qed.

Lemma bound_weaken {A} (Q Q' : A -> Prop) (m : M A) :
  bound P Q m -> (forall a, Q a -> Q' a) -> bound P Q' m.
Proof.
  intros Hm HQ s r s' evs HP H. destruct (Hm _ _ _ _ HP H) as [H1 H2].
  split; [exact H1|]. destruct r; auto.
Qed.

Lemma bound_bind {A B} (Q : A -> Prop) (Q' : B -> Prop) (m : M A) (k : A -> M B) :
  bound P Q m -> (forall a, Q a -> bound P Q' (k a)) -> bound P Q' (bind m k).
Proof.
  intros Hm Hk s r s' evs HP H.
  apply bind_run in H as [(e & H1 & ->) | (a & s1 & t1 & t2 & H1 & H2 & _)].
  - exact (Hm _ _ _ _ HP H1).
  - destruct (Hm _ _ _ _ HP H1) as [HP1 Ha]. exact (Hk a Ha _ _ _ _ HP1 H2).
Qed.

Lemma bound_bind_any {A B} (Q' : B -> Prop) (m : M A) (k : A -> M B) :
  bound P (fun _ => True) m -> (forall a, bound P Q' (k a)) -> bound P Q' (bind m k).
Proof. intros Hm Hk. apply (bound_bind (fun _ => True)); auto. Qed.

Lemma bound_same_accum {A} (m : M A) :
  (forall s, exists a t, m s = (inr a, s, t) \/
                         exists s1, m s = (inr a, s1, t) /\ accum s1 = accum s) ->
  bound P (fun _ => True) m.
Proof.
  intros Hm s r s' evs HP H.
  destruct (Hm s) as (a & t & [E|(s1 & E & Ha)]); rewrite E in H;
    inversion H; subst; [auto|]. rewrite Ha. auto.
Qed.

Lemma bound_emit ev : bound P (fun _ => True) (emit ev).
Proof. apply bound_same_accum. intros s. eexists _, _. left. reflexivity. Qed.

Lemma bound_get_state : bound P (fun _ => True) get_state.
Proof. apply bound_same_accum. intros s. eexists _, _. left. reflexivity. Qed.

Lemma bound_time_time : bound P (fun _ => True) time_time.
Proof.
  apply bound_same_accum. intros s. eexists _, _. right.
  eexists. split; reflexivity.
Qed.

Lemma bound_tick : bound P (fun _ => True) tick.
Proof.
  apply bound_same_accum. intros s. eexists _, _. right.
  eexists. split; reflexivity.
Qed.

Lemma bound_modify (f : state -> state) :
  (forall s, accum (f s) = accum s) -> bound P (fun _ => True) (modify f).
Proof.
  intros Hf. apply bound_same_accum. intros s. eexists _, _. right.
  eexists. split; [reflexivity | apply Hf].
Qed.

Lemma bound_set_accum (a : accum_state) :
  P (Some a) -> bound P (fun _ => True) (modify (set_accum (Some a))).
Proof. intros Ha s r s' evs HP H. inversion H; subst. simpl. auto. Qed.

Lemma bound_lift {A} (Q : A -> Prop) (x : exn + A) :
  match x with
  | inl e => forall name, e <> UnboundLocalError name
  | inr a => Q a
  end ->
  bound P Q (lift x).
Proof.
  intros Hx. destruct x; simpl; [apply bound_raise | apply bound_ret]; exact Hx.
Qed.

Lemma bound_when (b : bool) (m : M unit) :
  bound P (fun _ => True) m -> bound P (fun _ => True) (when b m).
Proof. destruct b; simpl; [auto|]. intros _. apply bound_ret. exact I. Qed.

Lemma bound_for_each {A} (l : list A) (body : A -> M unit) :
  (forall x, bound P (fun _ => True) (body x)) ->
  bound P (fun _ => True) (for_each l body).
Proof.
  intros Hb. induction l as [|x l IH]; simpl.
  - apply bound_ret. exact I.
  - apply bound_bind_any; auto.
Qed.

Lemma bound_for_enumerate {A} (l : list A) (body : Z -> A -> M unit) i :
  (forall j x, bound P (fun _ => True) (body j x)) ->
  bound P (fun _ => True) (for_enumerate i l body).
Proof.
  intros Hb. revert i. induction l as [|x l IH]; intros i; simpl.
  - apply bound_ret. exact I.
  - apply bound_bind_any; auto.
Qed.

Lemma bound_meter_update m v n : bound P (fun _ => True) (meter_update m v n).
Proof.
  apply bound_lift. unfold AverageMeter.update.
  destruct (_ =? 0); [discriminate | exact I].
Qed.

Lemma bound_torch_stack l : bound P (fun _ => True) (torch_stack l).
Proof.
  destruct l; [apply bound_raise; discriminate | apply bound_ret; exact I].
Qed.

Lemma bound_list_index {A} (l : list A) j : bound P (fun _ => True) (list_index l j).
Proof.
  unfold list_index.
  destruct (nth_error l j); [apply bound_ret; exact I | apply bound_raise; discriminate].
Qed.
End Bound.

Lemma bound_backward P total_loss : bound P (fun _ => True) (backward total_loss).
Proof.
  destruct total_loss; simpl; [|apply bound_emit].
  apply bound_raise. unfold backward_error. destruct scaler; discriminate.
Qed.

Ltac bound_using known :=
  repeat first
    [ known
    | apply bound_backward
    | apply bound_ret; exact I
    | apply bound_raise; discriminate
    | apply bound_emit
    | apply bound_get_state
    | apply bound_time_time
    | apply bound_tick
    | apply bound_modify; intros ?; reflexivity
    | apply bound_meter_update
    | apply bound_torch_stack
    | apply bound_list_index
    | apply bound_bind_any; [| intros ?]
    | apply bound_when
    | apply bound_for_each; intros ?
    | apply bound_for_enumerate; intros ? ?
    | match goal with
      | |- bound _ _ (if ?b then _ else _) => destruct b
      | |- bound _ _ (match ?x with _ => _ end) => destruct x
      end
    | progress (unfold update_losses_m, save_checkpoint,
                during_training_data_preprocess, forward, teacher_forward,
                apply_optimizer, loss_and_backward, compute_loss,
                clip_configured, gradient_finalization, clamp_step,
                step_no_accum) ].

Lemma bound_split_no_accum P model_out :
  bound P (fun _ => True) (lift (split_no_accum model_out)).
Proof.
  apply bound_lift. unfold split_no_accum, Dict.pop.
  destruct (Dict.get "logit_scale" model_out); [|discriminate].
  destruct (Dict.get "logit_bias" _); exact I.
Qed.

Lemma bound_build_inputs P items model_out j inputs :
  bound P (fun _ => True) (lift (build_inputs items model_out j inputs)).
Proof.
  apply bound_lift. revert inputs.
  induction items as [|[key accumulated] rest IH]; intros inputs; simpl.
  - exact I.
  - destruct (Dict.get key model_out); [apply IH | discriminate].
Qed.

Lemma bound_recompute P a j : bound P (fun _ => True) (recompute a j).
Proof.
  unfold recompute.
  bound_using ltac:(first [apply bound_split_no_accum | apply bound_build_inputs]).
Qed.

Lemma bound_recompute_all P a js cur :
  bound P (fun r => js <> [] \/ snd cur <> None -> snd r <> None)
    (recompute_all a js cur).
Proof.
  revert cur. induction js as [|j js IH]; intros cur; simpl.
  - apply bound_ret. intros [H|H]; [contradiction | exact H].
  - apply bound_bind_any; [apply bound_recompute|]. intros r.
    eapply bound_weaken; [apply IH|]. simpl. intros r' Hr' _.
    apply Hr'. right. discriminate.
Qed.

Lemma bound_get_accum name :
  accum_freq args > 1 -> bound buffers_ready (fun _ => True) (get_accum name).
Proof.
  intros HF s r s' evs HP H. unfold get_accum, bind, get_state in H.
  destruct (accum s) as [a|] eqn:Ha.
  - inversion H; subst. rewrite Ha. split; [intros _; discriminate | exact I].
  - exfalso. exact (HP HF eq_refl).
Qed.

Lemma bound_log_progress epoch step i_accum nbpe images (losses : Dict.t R) :
  bound buffers_ready (fun _ => True)
    (log_progress epoch step i_accum nbpe images (Some losses)).
Proof. unfold log_progress. bound_using fail. Qed.

Lemma bound_finish_step epoch step i_accum nbpe images (losses : Dict.t R) :
  bound buffers_ready (fun _ => True)
    (finish_step epoch step i_accum nbpe images (Some losses)).
Proof.
  unfold finish_step.
  bound_using ltac:(first [ apply bound_log_progress
                          | apply bound_set_accum; intros _; discriminate ]).
Qed.

Lemma bound_step_accum i images texts :
  accum_freq args > 1 ->
  bound buffers_ready
    (fun r => match r with Some (_, losses) => losses <> None | None => True end)
    (step_accum i images texts).
Proof.
  intros HF. unfold step_accum.
  apply bound_bind_any.
  { unfold cache_batch.
    bound_using ltac:(first [ apply bound_get_accum; exact HF
                            | apply bound_set_accum; intros _; discriminate ]). }
  intros _. destruct ((i + 1) mod accum_freq args >? 0).
  { apply bound_ret. exact I. }
  apply bound_bind_any; [apply bound_emit|]. intros _.
  apply bound_bind_any; [apply bound_get_accum; exact HF|]. intros a.
  eapply bound_bind; [apply bound_recompute_all|].
  intros [im losses] Hr. apply bound_ret. simpl in Hr. apply Hr. left.
  unfold py_range. destruct (Z.to_nat (accum_freq args)) eqn:E; [lia | discriminate].
Qed.

Lemma bound_loop_body epoch nbpe i batch :
  1 <= accum_freq args ->
  bound buffers_ready (fun _ => True) (loop_body epoch nbpe i batch).
Proof.
  intros HF. unfold loop_body.
  destruct (Z.eqb_spec (accum_freq args) 1) as [E|E].
  - bound_using ltac:(apply bound_finish_step).
  - do 7 (apply bound_bind_any; [bound_using fail|]; intros ?).
    eapply bound_bind; [apply bound_step_accum; lia|].
    intros [[im [losses|]]|] Hr; simpl in Hr.
    + apply bound_finish_step.
    + contradiction.
    + apply bound_ret. exact I.
Qed.

(** X20. With a positive accumulation frequency the loop never reads a local
    variable before it is bound: the accumulation buffers exist whenever
    the accumulating branch runs, and [losses] is bound whenever the
    logger reads it. Whatever else an epoch raises, it is not
    [UnboundLocalError]. *)
Theorem no_unbound_local (epoch : Z) (s s' : state) (r : exn + unit)
    (evs : list event) :
  1 <= accum_freq args ->
  train_one_epoch epoch s = (r, s', evs) ->
  forall name, r <> inl (UnboundLocalError name).
Proof.
  intros HF H. rewrite train_one_epoch_run in H.
  destruct (run_batches epoch s) as [[r0 s0] t0] eqn:Hrun.
  assert (r0 = r) by congruence. subst r0. clear H.
  unfold run_batches in Hrun.
  apply bind_run in Hrun as [(e & H1 & _) | (? & ? & ? & ? & _ & Hrun & _)];
    [discriminate|].
  apply bind_run in Hrun as [(e & H1 & ->) | (? & ? & ? & ? & _ & Hrun & _)].
  { destruct (accum_freq args =? 0); inversion H1; subst. discriminate. }
  apply bind_run in Hrun as [(e & H1 & ->) | (? & ? & ? & ? & _ & Hrun & _)].
  { destruct (num_samples dataloader + 1 <=? 0); inversion H1; subst. discriminate. }
  apply bind_run in Hrun as [(e & H1 & _) | (? & sa & ? & ? & H1 & Hrun & _)];
    [discriminate|].
  assert (Hready : buffers_ready (accum sa)).
  { inversion H1; subst. simpl. intros G.
    destruct (Z.gtb_spec (accum_freq args) 1); [discriminate | lia]. }
  clear H1. revert Hready Hrun.
  generalize sa. clear sa. intros sa Hready Hrun.
  match type of Hrun with
  | ?m _ = _ => assert (K : bound buffers_ready (fun _ => True) m)
  end.
  { bound_using ltac:(apply bound_loop_body; exact HF). }
  destruct (K _ _ _ _ Hready Hrun) as [_ Hr].
  destruct r as [e|u]; [|discriminate].
  intros name Hc. inversion Hc; subst. exact (Hr name eq_refl).
Qed.

(** *** Checkpoint retention *)

Lemma same_files_refl s : same_files s s [].
Proof. reflexivity. Qed.

Lemma same_files_trans s1 s2 s3 t1 t2 :
  same_files s1 s2 t1 -> same_files s2 s3 t2 -> same_files s1 s3 (t1 ++ t2).
Proof. unfold same_files. congruence. Qed.

Ltac files_leaf :=
  let HH := fresh in
  intros ? ? ? ? HH; inversion HH; subst; clear HH; reflexivity.

Lemma recompute_all_same_files a js cur :
  keeps same_files (recompute_all a js cur).
Proof.
  revert cur. induction js as [|j js IH]; intros cur; simpl.
  - apply (keeps_ret _ same_files_refl).
  - apply (keeps_bind _ same_files_trans); [|intros r; apply IH].
    keeps_using same_files_refl same_files_trans ltac:(solve [files_leaf]).
Qed.

Lemma step_no_accum_same_files images texts :
  keeps same_files (step_no_accum images texts).
Proof.
  unfold step_no_accum, teacher_forward.
  keeps_using same_files_refl same_files_trans ltac:(solve [files_leaf]).
Qed.

Lemma step_accum_same_files i images texts :
  keeps same_files (step_accum i images texts).
Proof.
  keeps_using same_files_refl same_files_trans
    ltac:(first [apply recompute_all_same_files | solve [files_leaf]]).
Qed.

Lemma log_progress_same_files epoch step i_accum nbpe images losses :
  keeps same_files (log_progress epoch step i_accum nbpe images losses).
Proof.
  keeps_using same_files_refl same_files_trans ltac:(solve [files_leaf]).
Qed.

Lemma save_checkpoint_files epoch step s r s' evs :
  save_logs args = true ->
  delete_prev_step_ckpt args = true ->
  0 < save_every_n_steps args ->
  save_checkpoint epoch step s = (r, s', evs) ->
  forall x,
    x ∈ files s' <->
    if (step + 1) mod save_every_n_steps args =? 0
    then (x = checkpoint_file (step + 1) \/ x ∈ files s)
         /\ x <> checkpoint_file (step + 1 - save_every_n_steps args)
    else x ∈ files s.
Proof.
  intros Hlogs Hdel Hevery H x. unfold save_checkpoint in H.
  rewrite Hlogs, Hdel in H.
  destruct (Z.eqb_spec (save_every_n_steps args) 0) as [E|_]; [lia|].
  simpl in H.
  destruct ((step + 1) mod save_every_n_steps args =? 0).
  2: { inversion H; subst. reflexivity. }
  assert (Hne : checkpoint_file (step + 1 - save_every_n_steps args)
                <> checkpoint_file (step + 1)).
  { intros Hc. apply checkpoint_file_inj in Hc. lia. }
  unfold bind, get_state, emit, modify, ret in H. simpl in H.
  destruct (bool_decide _) eqn:Hin; inversion H; subst; clear H; simpl.
  - rewrite elem_of_difference, elem_of_union, !elem_of_singleton. reflexivity.
  - apply bool_decide_eq_false in Hin.
    rewrite elem_of_union, elem_of_singleton. split.
    + intros Hx. split; [exact Hx|]. intros ->. apply Hin.
      apply elem_of_union.
      destruct Hx as [Hx|Hx]; [left; apply elem_of_singleton; exact Hx | right; exact Hx].
    + intros [Hx _]. exact Hx.
Qed.

Lemma div_pred_multiple (c every : Z) :
  0 < every ->
  (c - 1) / every = if c mod every =? 0 then c / every - 1 else c / every.
Proof.
  intros He.
  pose proof (Z.div_mod c every ltac:(lia)) as Hd.
  pose proof (Z.mod_pos_bound c every He) as Hb.
  destruct (Z.eqb_spec (c mod every) 0) as [E|E].
  - symmetry. apply (Z.div_unique_pos _ _ _ (every - 1)); lia.
  - symmetry. apply (Z.div_unique_pos _ _ _ (c mod every - 1)); lia.
Qed.

Lemma save_checkpoint_latest_only epoch step s r s' evs :
  save_logs args = true ->
  delete_prev_step_ckpt args = true ->
  0 < save_every_n_steps args ->
  save_checkpoint epoch step s = (r, s', evs) ->
  latest_only step (files s) ->
  latest_only (step + 1) (files s').
Proof.
  intros Hlogs Hdel Hevery H Hinv c Hc.
  apply (save_checkpoint_files _ _ _ _ _ _ Hlogs Hdel Hevery H) in Hc.
  pose proof (div_pred_multiple (step + 1) _ Hevery) as Hdiv.
  replace (step + 1 - 1) with step in Hdiv by lia.
  pose proof (Z.div_mod (step + 1) (save_every_n_steps args) ltac:(lia)) as Hd.
  destruct (Z.eqb_spec ((step + 1) mod save_every_n_steps args) 0) as [E|E].
  - destruct Hc as [[Hc|Hc] Hne].
    + apply checkpoint_file_inj in Hc. lia.
    + exfalso. apply Hne. f_equal. apply Hinv in Hc. rewrite Hc, Hdiv. lia.
  - apply Hinv in Hc. rewrite Hc, Hdiv. reflexivity.
Qed.

Lemma finish_step_files epoch step i_accum nbpe images losses s s' evs :
  finish_step epoch step i_accum nbpe images losses s = (inr tt, s', evs) ->
  exists s1 t,
    files s1 = files s /\ save_checkpoint epoch step s1 = (inr tt, s', t).
Proof.
  intros H. unfold finish_step in H.
  run_ok H as H1. rewrite gradient_finalization_run in H1. run_step H1.
  run_ok H as H1.
  match type of H1 with
  | _ ?s0 = (_, ?s1, _) =>
      assert (Hf : files s1 = files s0)
        by (destruct (accum_freq args >? 1); run_step H1; reflexivity)
  end.
  clear H1.
  run_ok H as H1.
  match type of H1 with
  | _ ?s0 = (_, ?s1, _) =>
      assert (Hf2 : files s1 = files s0)
  end.
  { unfold clamp_step, bind, get_state in H1.
    destruct (hasattr_logit_scale _); simpl in H1; run_step H1; reflexivity. }
  clear H1.
  run_ok H as H1. run_step H1.
  run_ok H as H1. run_step H1.
  run_ok H as H1.
  match type of H1 with
  | meter_update ?m ?v ?n _ = _ =>
      unfold meter_update, lift in H1;
      destruct (AverageMeter.update m v n); run_step H1
  end.
  run_ok H as H1. run_step H1.
  run_ok H as H1. run_step H1.
  run_ok H as H1. run_step H1.
  run_ok H as H1. apply log_progress_same_files in H1. unfold same_files in H1.
  eexists _, _. split; [|exact H].
  rewrite H1. simpl. rewrite Hf2, Hf. reflexivity.
Qed.

Lemma loop_body_latest_only epoch nbpe i batch s s' evs :
  1 <= accum_freq args ->
  save_logs args = true ->
  delete_prev_step_ckpt args = true ->
  0 < save_every_n_steps args ->
  loop_body epoch nbpe i batch s = (inr tt, s', evs) ->
  latest_only (nbpe * epoch + i / accum_freq args) (files s) ->
  latest_only (nbpe * epoch + i / accum_freq args
               + (if (i + 1) mod accum_freq args =? 0 then 1 else 0)) (files s').
Proof.
  intros HF Hlogs Hdel Hevery H Hinv. unfold loop_body in H.
  run_ok H as H1.
  match type of H1 with
  | _ ?s0 = (_, ?s1, _) =>
      assert (Hs : s1 = s0) by (destruct (skip_scheduler args); run_step H1; reflexivity);
      rewrite Hs in H; clear H1 Hs
  end.
  run_ok H as H1. apply preprocess_same_state in H1. unfold same_state in H1.
  rewrite H1 in H. clear H1.
  run_ok H as H1. run_step H1.
  run_ok H as H1. run_step H1.
  run_ok H as H1.
  match type of H1 with
  | meter_update ?m ?v ?n _ = _ =>
      unfold meter_update, lift in H1;
      destruct (AverageMeter.update m v n); run_step H1
  end.
  run_ok H as H1. run_step H1.
  run_ok H as H1. run_step H1.
  destruct (Z.eqb_spec (accum_freq args) 1) as [E|E].
  - run_ok H as H1. apply step_no_accum_same_files in H1. unfold same_files in H1.
    simpl in H1.
    apply finish_step_files in H as (sf & tf & Hf & Hsave).
    replace ((i + 1) mod accum_freq args) with 0
      by (rewrite E, Z.mod_1_r; reflexivity).
    simpl.
    apply (save_checkpoint_latest_only _ _ _ _ _ _ Hlogs Hdel Hevery Hsave).
    rewrite Hf, H1. exact Hinv.
  - run_ok H as H1.
    pose proof (step_accum_same_files _ _ _ _ _ _ _ H1) as Hfiles.
    unfold same_files in Hfiles. simpl in Hfiles.
    unfold step_accum in H1. run_ok H1 as H2. clear H2.
    pose proof (Z.mod_pos_bound (i + 1) (accum_freq args) ltac:(lia)) as Hb.
    destruct (Z.gtb_spec ((i + 1) mod accum_freq args) 0) as [G|G].
    + run_step H1. run_step H.
      destruct (Z.eqb_spec ((i + 1) mod accum_freq args) 0); [lia|].
      rewrite Z.add_0_r. rewrite Hfiles. exact Hinv.
    + run_ok H1 as H2. clear H2. run_ok H1 as H2. clear H2.
      run_ok H1 as H2. clear H2. run_step H1.
      match type of H with
      | (let '(_, _) := ?q in _) _ = _ => destruct q
      end.
      apply finish_step_files in H as (sf & tf & Hf & Hsave).
      destruct (Z.eqb_spec ((i + 1) mod accum_freq args) 0); [|lia].
      apply (save_checkpoint_latest_only _ _ _ _ _ _ Hlogs Hdel Hevery Hsave).
      rewrite Hf, Hfiles. exact Hinv.
Qed.

Lemma loop_latest_only epoch nbpe l :
  1 <= accum_freq args ->
  save_logs args = true ->
  delete_prev_step_ckpt args = true ->
  0 < save_every_n_steps args ->
  forall i s s' evs,
    0 <= i ->
    for_enumerate i l (loop_body epoch nbpe) s = (inr tt, s', evs) ->
    latest_only (nbpe * epoch + i / accum_freq args) (files s) ->
    latest_only (nbpe * epoch + (i + Z.of_nat (length l)) / accum_freq args) (files s').
Proof.
  intros HF Hlogs Hdel Hevery.
  induction l as [|x l IH]; intros i s s' evs Hi H Hinv.
  - run_step H. simpl length. rewrite Z.add_0_r. exact Hinv.
  - simpl in H. run_ok H as H1.
    match type of H1 with _ = (inr ?u, _, _) => destruct u end.
    apply (loop_body_latest_only _ _ _ _ _ _ _ HF Hlogs Hdel Hevery H1) in Hinv.
    rewrite <- Z.add_assoc, <- (div_succ _ _ HF Hi) in Hinv.
    replace (i + Z.of_nat (length (x :: l))) with (i + 1 + Z.of_nat (length l))
      by (simpl length; lia).
    refine (IH (i + 1) _ _ _ _ H Hinv). lia.
Qed.

(** X21. With checkpoints every [n > 0] steps and removal of the previous
    one, the directory never accumulates step checkpoints: if before an
    epoch the only one is that of the latest multiple of [n] among the
    steps completed so far, then the same holds after the epoch. *)
Theorem one_step_checkpoint_kept (epoch : Z) (s s' : state) (evs : list event) :
  1 <= accum_freq args ->
  save_logs args = true ->
  delete_prev_step_ckpt args = true ->
  0 < save_every_n_steps args ->
  latest_only (num_batches dataloader / accum_freq args * epoch) (files s) ->
  train_one_epoch epoch s = (inr tt, s', evs) ->
  latest_only (num_batches dataloader / accum_freq args * epoch
               + Z.of_nat (length (batches dataloader)) / accum_freq args)
    (files s').
Proof.
  intros HF Hlogs Hdel Hevery Hinv H.
  apply epoch_loop in H as (s0 & t & Hloop & _ & _ & _ & _ & Hfiles).
  pose proof (loop_latest_only _ _ _ HF Hlogs Hdel Hevery 0 _ _ _ (Z.le_refl 0) Hloop)
    as Hend.
  rewrite Z.div_0_l, Z.add_0_r, Z.add_0_l in Hend by lia.
  apply Hend. rewrite Hfiles. exact Hinv.
Qed.

(** *** A logging interval of zero *)

Lemma finalization_events_no_log :
  List.filter is_log finalization_events = []
  /\ List.filter is_save finalization_events = [].
Proof.
  unfold finalization_events.
  destruct scaler, (horovod args), (grad_clip_norm args); split; reflexivity.
Qed.

(** X22. On the master, [log_every_n_steps = 0] makes the test of line 228
    divide by zero: the part of an iteration that follows the backward
    passes takes its optimizer step and then fails, before anything is
    logged or saved. *)
Theorem zero_log_interval_raises (epoch step i_accum nbpe : Z)
    (images : list Elt) (losses : option (Dict.t R)) (s s' : state)
    (r : exn + unit) (evs : list event) :
  is_master args = true ->
  log_every_n_steps args = 0 ->
  finish_step epoch step i_accum nbpe images losses s = (r, s', evs) ->
  r = inl ZeroDivisionError /\
  count_events is_optimizer_step evs = 1%nat /\
  List.filter is_log evs = [] /\
  List.filter is_save evs = [].
Proof.
  intros Hm Hl H.
  pose proof (finish_step_one_step _ _ _ _ _ _ _ _ _ _ H) as Hone.
  destruct finalization_events_no_log as [Hfl Hfs].
  unfold finish_step in H.
  run_bind H as H1; [rewrite gradient_finalization_run in H1; discriminate|].
  rewrite gradient_finalization_run in H1. run_step H1.
  run_bind H as H1; [destruct (accum_freq args >? 1); run_step H1|].
  match type of H1 with
  | _ = (_, _, ?t) =>
      assert (Ht : t = []) by (destruct (accum_freq args >? 1); run_step H1; reflexivity);
      subst t; clear H1
  end.
  run_bind H as H1.
  { unfold clamp_step, bind, get_state in H1.
    destruct (hasattr_logit_scale _); simpl in H1; discriminate. }
  match type of H1 with
  | _ = (_, _, ?t) =>
      assert (Ht : List.filter is_log t = [] /\ List.filter is_save t = [])
  end.
  { unfold clamp_step, bind, get_state in H1.
    destruct (hasattr_logit_scale _); simpl in H1; run_step H1; split; reflexivity. }
  destruct Ht as [Hcl Hcs]. clear H1.
  run_bind H as H1; [run_step H1|]. run_step H1.
  run_bind H as H1; [run_step H1|]. run_step H1.
  run_bind H as H1.
  { match type of H1 with
    | meter_update ?m ?v ?n _ = _ =>
        unfold meter_update, lift, AverageMeter.update in H1;
        destruct (AverageMeter.count m + n =? 0); run_step H1
    end.
    split; [assumption|]. split; [exact Hone|].
    rewrite !List.filter_app, Hfl, Hfs, Hcl, Hcs. split; reflexivity. }
  match type of H1 with
  | meter_update ?m ?v ?n _ = _ =>
      unfold meter_update, lift, AverageMeter.update in H1;
      destruct (AverageMeter.count m + n =? 0); run_step H1
  end.
  run_bind H as H1; [run_step H1|]. run_step H1.
  run_bind H as H1; [run_step H1|]. run_step H1.
  run_bind H as H1; [run_step H1|]. run_step H1.
  unfold log_progress in H. rewrite Hm, Hl in H. simpl in H.
  run_bind H as H1; [|run_step H1].
  run_step H1.
  split; [assumption|]. split; [exact Hone|].
  rewrite !List.filter_app, Hfl, Hfs, Hcl, Hcs. split; reflexivity.
Qed.

(** ** The step counter in the scheduler, the loggers and the checkpoints *)

Ltac uses_step_leaf :=
  let HH := fresh in
  intros ? ? ? ? HH; inversion HH; subst; clear HH;
  cbv [all_events];
  repeat (constructor;
          [cbn [uses_step ck_step]; auto;
           try (split; [reflexivity | apply get_setitem_same])|]);
  constructor.

Lemma recompute_all_uses_step step a js cur :
  keeps (all_events (uses_step step)) (recompute_all a js cur).
Proof.
  revert cur. induction js as [|j js IH]; intros cur; simpl.
  - apply (keeps_ret _ (all_events_refl _)).
  - apply (keeps_bind _ (all_events_trans _)); [|intros r; apply IH].
    keeps_using (all_events_refl (uses_step step)) (all_events_trans (uses_step step))
      ltac:(solve [uses_step_leaf]).
Qed.

Lemma finish_step_uses_step epoch step i_accum nbpe images losses :
  keeps (all_events (uses_step step))
        (finish_step epoch step i_accum nbpe images losses).
Proof.
  unfold finish_step.
  keeps_using (all_events_refl (uses_step step)) (all_events_trans (uses_step step))
    ltac:(solve [uses_step_leaf]).
Qed.

Lemma loop_body_uses_step epoch nbpe i batch :
  keeps (all_events (uses_step (nbpe * epoch + i / accum_freq args)))
        (loop_body epoch nbpe i batch).
Proof.
  unfold loop_body, step_no_accum, teacher_forward. cbv zeta.
  keeps_using (all_events_refl (uses_step (nbpe * epoch + i / accum_freq args)))
              (all_events_trans (uses_step (nbpe * epoch + i / accum_freq args)))
    ltac:(first [ apply finish_step_uses_step
                | apply recompute_all_uses_step
                | solve [uses_step_leaf] ]).
Qed.

Lemma loop_body_steps epoch nbpe i batch s s' evs :
  1 <= accum_freq args ->
  loop_body epoch nbpe i batch s = (inr tt, s', evs) ->
  count_events is_optimizer_step evs
  = (if (i + 1) mod accum_freq args =? 0 then 1%nat else 0%nat) /\
  ((i + 1) mod accum_freq args <> 0 ->
   count_events is_log evs = 0%nat /\ count_events is_save evs = 0%nat).
Proof.
  intros HF H. split.
  - destruct (loop_body_shape _ _ _ _ _ _ _ HF H) as (rest & -> & _ & Hc).
    rewrite count_events_app, Hc.
    destruct (skip_scheduler args); reflexivity.
  - intros Hmod.
    assert (HF1 : accum_freq args > 1).
    { destruct (Z.eq_dec (accum_freq args) 1) as [E|E]; [|lia].
      rewrite E, Z.mod_1_r in Hmod. contradiction. }
    destruct (loop_body_continue _ _ _ _ _ _ _ HF1 Hmod H)
      as (_ & _ & _ & _ & _ & _ & _ & -> & _).
    unfold count_events. destruct (skip_scheduler args); split; reflexivity.
Qed.

(** C3 (as the code has it). An epoch over [B] micro-batches with
    accumulation frequency [F >= 1] that runs to its end takes exactly
    [B / F] optimizer steps. The scheduler is called once per micro-batch
    (so [F] times per optimizer step), with
    [num_batches_per_epoch * epoch + i / F] at micro-batch [i]. The step
    numbers in force at the optimizer steps are
    [num_batches_per_epoch * epoch + k] for [k = 0, ..., B / F - 1]:
    consecutive, and followed by the first number of epoch [epoch + 1].

    Whether the scheduler is disabled or not, the events of the epoch are
    those of the set-up followed by one run of the loop body per
    micro-batch, and in the run for micro-batch [i] the scheduler call,
    the TensorBoard and wandb records and the checkpoint (named after
    [step + 1]) all use [step = num_batches_per_epoch * epoch + i / F];
    that run steps the optimizer once if it closes a window of [F]
    micro-batches and not at all otherwise, in which case it neither logs
    nor saves.  So optimizer step [k] of the epoch is taken, logged and
    saved with the counter at [num_batches_per_epoch * epoch + k]. *)
Theorem step_counter (epoch : Z) (s s' : state) (evs : list event) :
  1 <= accum_freq args ->
  Z.of_nat (length (batches dataloader)) = num_batches dataloader ->
  train_one_epoch epoch s = (inr tt, s', evs) ->
  let F := accum_freq args in
  let num_batches_per_epoch := num_batches dataloader / F in
  count_events is_optimizer_step evs = Z.to_nat (num_batches dataloader / F) /\
  scheduler_calls evs
  = (if skip_scheduler args then []
     else map (fun i => num_batches_per_epoch * epoch + Z.of_nat i / F)
            (seq 0 (length (batches dataloader)))) /\
  (skip_scheduler args = false ->
   steps_taken evs
   = map (fun k => Some (num_batches_per_epoch * epoch + Z.of_nat k))
       (seq 0 (Z.to_nat num_batches_per_epoch))) /\
  exists segs,
    evs = ModelTrain :: (if distill args then [DistModelEval] else [])
          ++ SetEpoch epoch :: concat segs /\
    length segs = length (batches dataloader) /\
    (forall i seg, nth_error segs i = Some seg ->
       (exists batch sk sk',
          nth_error (batches dataloader) i = Some batch /\
          loop_body epoch num_batches_per_epoch (Z.of_nat i) batch sk
          = (inr tt, sk', seg)) /\
       Forall (uses_step (num_batches_per_epoch * epoch + Z.of_nat i / F)) seg /\
       count_events is_optimizer_step seg
       = (if (Z.of_nat i + 1) mod F =? 0 then 1%nat else 0%nat) /\
       ((Z.of_nat i + 1) mod F <> 0 ->
        count_events is_log seg = 0%nat /\ count_events is_save seg = 0%nat)) /\
    (forall k, 0 <= k < num_batches_per_epoch ->
       exists seg,
         nth_error segs (Z.to_nat (k * F + F - 1)) = Some seg /\
         count_events is_optimizer_step seg = 1%nat /\
         Forall (uses_step (num_batches_per_epoch * epoch + k)) seg).
Proof.
  intros HF HB H F nbpe.
  destruct (epoch_counts _ _ _ _ HF HB H) as (Hn & Hs & Ht).
  split; [exact Hn|]. split; [exact Hs|]. split; [exact Ht|].
  apply epoch_loop in H as (s0 & t & Hloop & Hevs & _).
  destruct (for_enumerate_segments _ _ _ _ _ _ Hloop) as (segs & Ht' & Hlen & Hseg).
  exists segs. split; [rewrite Hevs, Ht'; reflexivity|]. split; [exact Hlen|].
  assert (Hall : forall i seg, nth_error segs i = Some seg ->
            (exists batch sk sk',
               nth_error (batches dataloader) i = Some batch /\
               loop_body epoch nbpe (Z.of_nat i) batch sk = (inr tt, sk', seg)) /\
            Forall (uses_step (nbpe * epoch + Z.of_nat i / F)) seg /\
            count_events is_optimizer_step seg
            = (if (Z.of_nat i + 1) mod F =? 0 then 1%nat else 0%nat) /\
            ((Z.of_nat i + 1) mod F <> 0 ->
             count_events is_log seg = 0%nat /\ count_events is_save seg = 0%nat)).
  { intros i seg Hi. destruct (Hseg _ _ Hi) as (batch & sk & sk' & Hb & Hrun).
    rewrite Z.add_0_l in Hrun.
    split; [exists batch, sk, sk'; split; [exact Hb | exact Hrun]|].
    split; [exact (loop_body_uses_step _ _ _ _ _ _ _ _ Hrun)|].
    exact (loop_body_steps _ _ _ _ _ _ _ HF Hrun). }
  split; [exact Hall|].
  intros k Hk.
  assert (Hle : (k + 1) * F <= num_batches dataloader).
  { pose proof (Z.mul_div_le (num_batches dataloader) F ltac:(lia)) as Hm.
    fold nbpe in Hm. nia. }
  assert (Hidx : (Z.to_nat (k * F + F - 1) < length segs)%nat).
  { rewrite Hlen. apply Nat2Z.inj_lt. rewrite HB, Z2Nat.id by nia. lia. }
  destruct (nth_error segs (Z.to_nat (k * F + F - 1))) as [seg|] eqn:Hnth;
    [|apply nth_error_None in Hnth; lia].
  exists seg. split; [reflexivity|].
  destruct (Hall _ _ Hnth) as (_ & Hu & Hc & _).
  rewrite Z2Nat.id in Hu, Hc by nia.
  replace (k * F + F - 1 + 1) with ((k + 1) * F) in Hc by lia.
  rewrite Z.mod_mul in Hc by lia.
  replace ((k * F + F - 1) / F) with k in Hu
    by (apply (Z.div_unique_pos _ _ _ (F - 1)); lia).
  split; [exact Hc | exact Hu].
Qed.

End Training.

(** * Distillation and accumulation *)

(** The same configuration with distillation switched off. *)
Definition without_distill (a : Args) : Args :=
  {| distill := false; accum_freq := accum_freq a;
     skip_scheduler := skip_scheduler a; text_embed_dim := text_embed_dim a;
     model := model a; horovod := horovod a; grad_clip_norm := grad_clip_norm a;
     log_every_n_steps := log_every_n_steps a; world_size := world_size a;
     wandb := wandb a; save_logs := save_logs a;
     save_every_n_steps := save_every_n_steps a; name := name a;
     checkpoint_path := checkpoint_path a;
     delete_prev_step_ckpt := delete_prev_step_ckpt a; is_master := is_master a |}.

Section Distillation.
Context {RawImage RawText Elt : Type}.
Variable preprocess : RawImage -> Elt.
Variable tokenizer : list RawText -> list Elt.
Variable from_numpy : RawText -> Elt.
Variable model_fn : nat -> list Elt -> list Elt -> Dict.t (list Elt).
Variable loss_fn : Dict.t (@tensor Elt) -> Dict.t R.
Variable optimizer_fn : nat -> R -> R.
Variable time_fn : nat -> R.
Variable args : Args.
Variables scaler tb_writer wandb_module : bool.
Variable dataloader : @DataLoader RawImage RawText.

(** The epoch with the teacher [d] and the configuration [a]. *)
Definition epoch_with (d : nat -> list Elt -> list Elt -> Dict.t (list Elt))
    (a : Args) (epoch : Z) : M unit :=
  train_one_epoch preprocess tokenizer from_numpy model_fn d loss_fn
    optimizer_fn time_fn a scaler tb_writer wandb_module dataloader epoch.

Lemma loop_body_without_teacher d1 d2 epoch nbpe i batch s :
  (accum_freq args =? 1) = false ->
  loop_body preprocess tokenizer from_numpy model_fn d1 loss_fn optimizer_fn
    time_fn args scaler tb_writer wandb_module dataloader epoch nbpe i batch s
  = loop_body preprocess tokenizer from_numpy model_fn d2 loss_fn optimizer_fn
      time_fn (without_distill args) scaler tb_writer wandb_module dataloader
      epoch nbpe i batch s.
Proof.
  intros HF. unfold loop_body. simpl accum_freq. rewrite HF.
  destruct args; reflexivity.
Qed.

Lemma run_batches_without_teacher d1 d2 epoch s :
  (accum_freq args =? 1) = false ->
  run_batches preprocess tokenizer from_numpy model_fn d1 loss_fn optimizer_fn
    time_fn args scaler tb_writer wandb_module dataloader epoch s
  = run_batches preprocess tokenizer from_numpy model_fn d2 loss_fn optimizer_fn
      time_fn (without_distill args) scaler tb_writer wandb_module dataloader
      epoch s.
Proof.
  intros HF. unfold run_batches. simpl accum_freq.
  repeat (apply bind_ext; intros).
  apply for_enumerate_ext. intros.
  apply loop_body_without_teacher. exact HF.
Qed.

(** C10. With [accum_freq > 1] the teacher is never called, the run is
    the same whatever the teacher would answer, and it is the run of the
    same configuration with distillation switched off, except for the
    [dist_model.eval()] made before the loop: no teacher output reaches
    the loss. *)
Theorem teacher_unused_when_accumulating
    (d1 d2 : nat -> list Elt -> list Elt -> Dict.t (list Elt))
    (epoch : Z) (s : state) :
  accum_freq args > 1 ->
  List.filter is_teacher (snd (epoch_with d1 args epoch s)) = [] /\
  epoch_with d2 args epoch s = epoch_with d1 args epoch s /\
  exists rest,
    snd (epoch_with d1 args epoch s)
    = ModelTrain :: (if distill args then [DistModelEval] else []) ++ rest /\
    snd (epoch_with d2 (without_distill args) epoch s) = ModelTrain :: rest /\
    fst (epoch_with d2 (without_distill args) epoch s)
    = fst (epoch_with d1 args epoch s).
Proof.
  intros HF. assert (HF1 : (accum_freq args =? 1) = false) by lia.
  split; [|split].
  - destruct (epoch_with d1 args epoch s) as [[r s'] evs] eqn:E.
    exact (train_one_epoch_no_teacher preprocess tokenizer from_numpy model_fn d1
             loss_fn optimizer_fn time_fn args scaler tb_writer wandb_module
             dataloader epoch HF1 _ _ _ _ E).
  - unfold epoch_with. rewrite !train_one_epoch_run.
    rewrite (run_batches_without_teacher d2 d1), (run_batches_without_teacher d1 d1)
      by exact HF1.
    reflexivity.
  - unfold epoch_with. rewrite !train_one_epoch_run. simpl distill.
    rewrite (run_batches_without_teacher d1 d2) by exact HF1.
    destruct (run_batches _ _ _ _ d2 _ _ _ (without_distill args) _ _ _ _ _ _)
      as [[r' s''] t''].
    exists t''. repeat split; reflexivity.
Qed.

End Distillation.

(** * Concrete runs *)

Lemma run_eta {A B C : Type} (x : A * B * C) : x = (fst (fst x), snd (fst x), snd x).
Proof. destruct x as [[a b] c]. reflexivity. Qed.

(** Collaborators for the examples: every image and text is a number, the
    model returns its inputs as features together with a logit scale. *)
Module Demo.
Definition model_fn (n : nat) (images texts : list Z) : Dict.t (list Z) :=
  [("image_features"%string, images); ("text_features"%string, texts);
   ("logit_scale"%string, [100])].

(** A model whose output lacks the logit scale. *)
Definition bare_model_fn (n : nat) (images texts : list Z) : Dict.t (list Z) :=
  [("image_features"%string, images); ("text_features"%string, texts)].

(** A model whose output holds a logit bias as well. *)
Definition biased_model_fn (n : nat) (images texts : list Z) : Dict.t (list Z) :=
  [("image_features"%string, images); ("text_features"%string, texts);
   ("logit_scale"%string, [100]); ("logit_bias"%string, [-10])].

Definition dist_model_fn (n : nat) (images texts : list Z) : Dict.t (list Z) :=
  [("image_features"%string, images); ("text_features"%string, texts)].

Definition loss_fn (kwargs : Dict.t (@tensor Z)) : Dict.t R :=
  [("contrastive_loss"%string, 1%R); ("distill_loss"%string, 2%R)].

Definition optimizer_fn (n : nat) (v : R) : R := (v + 1)%R.
Definition time_fn (n : nat) : R := INR n.

Definition args (use_distill : bool) (freq : Z) (model_name : string)
    (use_horovod master : bool) : Args :=
  {| distill := use_distill; accum_freq := freq; skip_scheduler := false;
     text_embed_dim := Some 4; model := model_name; horovod := use_horovod;
     grad_clip_norm := Some 5%R; log_every_n_steps := 1; world_size := 1;
     wandb := false; save_logs := true; save_every_n_steps := 1;
     name := "run"; checkpoint_path := "logs/checkpoints";
     delete_prev_step_ckpt := true; is_master := master |}.

Definition dataloader (n : Z) : @DataLoader Z Z :=
  {| num_batches := n; num_samples := 2 * n;
     batches := map (fun k => ([k; k + 1], [k + 10; k + 11]))
                    (map Z.of_nat (seq 0 (Z.to_nat n))) |}.

Definition s0 : @state Z :=
  {| net := Wrapped (Net (Some 7%R)); files := ∅; calls := 0; accum := None;
     losses_m := []; batch_time_m := AverageMeter.reset;
     data_time_m := AverageMeter.reset; end_ := 0%R |}.

Definition kwargs0 : Dict.t (@tensor Z) :=
  [("image_features"%string, [(1, true)]); ("text_features"%string, [(2, true)])].

(** The state in the middle of a window of two micro-batches: the first
    one is cached, one call has been made. *)
Definition window1 : list (list Z * list Z * Dict.t (list Z)) :=
  [([1; 2], [11; 12], model_fn 0 [1; 2] [11; 12])].

Definition accum1 : @accum_state Z :=
  {| accum_images := [[1; 2]]; accum_texts := [[11; 12]];
     accum_features :=
       [("image_features"%string, [tag false [1; 2]]);
        ("text_features"%string, [tag false [11; 12]])] |}.

Definition s1 : @state Z :=
  {| net := Wrapped (Net (Some 7%R)); files := ∅; calls := 1;
     accum := Some accum1; losses_m := []; batch_time_m := AverageMeter.reset;
     data_time_m := AverageMeter.reset; end_ := 0%R |}.

(** One epoch of [n] micro-batches from [s0]. *)
Definition epoch (a : Args) (n : Z) :=
  train_one_epoch (fun x : Z => x) (fun l : list Z => l) (fun x : Z => x)
    model_fn dist_model_fn loss_fn optimizer_fn time_fn a false false false
    (dataloader n) 0 s0.

(** Two cached micro-batches. *)
Definition accum0 : @accum_state Z :=
  {| accum_images := [[1; 2]; [3; 4]]; accum_texts := [[11; 12]; [13; 14]];
     accum_features :=
       [("image_features"%string, [tag false [1; 2]; tag false [3; 4]]);
        ("text_features"%string, [tag false [11; 12]; tag false [13; 14]])] |}.
End Demo.

Lemma loss_additivity_witness :
  Dict.get "loss" (Demo.loss_fn Demo.kwargs0) = None /\
  exists losses v,
    loss_and_backward Demo.loss_fn false Demo.kwargs0 Demo.s0
    = (inr losses, Demo.s0, [Loss Demo.kwargs0; Backward false v]) /\
    v = fold_left Rplus (Dict.values (Demo.loss_fn Demo.kwargs0)) 0%R /\
    Dict.remove "loss" losses = Demo.loss_fn Demo.kwargs0 /\
    Dict.get "loss" losses
    = Some (fold_left Rplus (Dict.values (Dict.remove "loss" losses)) 0%R).
Proof.
  split; [reflexivity|].
  apply (loss_additivity Demo.loss_fn false Demo.kwargs0 Demo.s0);
    [reflexivity | discriminate].
Defined.

(** C2 as stated fails on the horovod branch: the synchronization is the
    first call of the finalization, so the unscaling does not come before
    it. *)
Lemma sync_after_unscale_counterexample :
  let evs := snd (gradient_finalization Demo.optimizer_fn
                    (Demo.args false 1 "ViT-B-32" true false) true Demo.s0) in
  evs = [Synchronize; Unscale; ClipGradNorm 5; ScalerStep true; ScalerUpdate] /\
  ~ (count_events is_synchronize evs = 1%nat /\
     precedes is_unscale is_synchronize evs = true /\
     precedes is_synchronize is_clip evs = true).
Proof.
  split; [reflexivity|].
  intros (_ & H & _). vm_compute in H. discriminate.
Qed.

Lemma unscale_then_clip_witness :
  exists s' evs,
    gradient_finalization Demo.optimizer_fn (Demo.args false 1 "ViT-B-32" true false)
      true Demo.s0 = (inr tt, s', evs) /\
    precedes is_synchronize is_unscale evs = true /\
    precedes is_unscale is_clip evs = true.
Proof.
  destruct (unscale_then_clip Demo.optimizer_fn (Demo.args false 1 "ViT-B-32" true false)
              true Demo.s0 eq_refl) as (s' & evs & Hrun & Hclip & Hsync).
  exists s', evs. split; [exact Hrun|]. split.
  - apply (Hsync eq_refl).
  - apply (Hclip 5%R eq_refl).
Defined.

Lemma family_clip_witness :
  str_contains "LIFT" (model (Demo.args false 1 "LIFT-ViT-B-16" false false)) = true /\
  exists losses s1 evs,
    step_no_accum Demo.model_fn Demo.dist_model_fn Demo.loss_fn
      (Demo.args false 1 "LIFT-ViT-B-16" false false) true [1; 2] [11; 12] Demo.s0
    = (inr losses, s1, evs) /\
    (exists pre v, evs = pre ++ [Backward true v; ClipGradNorm 1]
                   /\ count_events is_clip pre = 0%nat) /\
    exists s2 fin,
      gradient_finalization Demo.optimizer_fn
        (Demo.args false 1 "LIFT-ViT-B-16" false false) true s1 = (inr tt, s2, fin) /\
      List.filter is_clip fin = [ClipGradNorm 5].
Proof.
  split; [reflexivity|].
  eexists _, _, _. split; [reflexivity|].
  eapply (family_clip Demo.model_fn Demo.dist_model_fn Demo.loss_fn Demo.optimizer_fn
            (Demo.args false 1 "LIFT-ViT-B-16" false false) true [1; 2] [11; 12] Demo.s0);
    reflexivity.
Defined.

Lemma logit_scale_clamped_witness :
  hasattr_logit_scale (unwrap_model (net Demo.s0)) = true /\
  exists v0,
    getattr_logit_scale (unwrap_model (net Demo.s0)) = Some v0 /\
    unwrap_model
      (net (snd (fst (finish_step (RawImage:=Z) (RawText:=Z)
                        Demo.optimizer_fn Demo.time_fn
                        (Demo.args false 1 "ViT-B-32" false false) false false false
                        (Demo.dataloader 2) 0 0 0 2 [1; 2] None Demo.s0))))
    = Net (Some (Rmin (Rmax (Demo.optimizer_fn (calls Demo.s0) v0) 0) (ln 100))).
Proof.
  split; [reflexivity|].
  destruct (logit_scale_clamped (RawImage:=Z) (RawText:=Z)
              Demo.optimizer_fn Demo.time_fn
              (Demo.args false 1 "ViT-B-32" false false) false false false
              (Demo.dataloader 2) 0 0 0 2 [1; 2] None Demo.s0 _ _ _
              eq_refl (run_eta _)) as [_ (v0 & Hv0 & Hu & _)].
  exists v0. split; [exact Hv0 | exact Hu].
Defined.

Lemma logit_scale_required_witness :
  nth_error (accum_images Demo.accum0) 1 = Some [3; 4] /\
  nth_error (accum_texts Demo.accum0) 1 = Some [13; 14] /\
  recompute Demo.bare_model_fn Demo.loss_fn false Demo.accum0 1 Demo.s0
  = (inl (KeyError "logit_scale"), ticked Demo.s0, [Forward true [3; 4] [13; 14]]) /\
  (exists kwargs,
     loss_calls (snd (recompute Demo.model_fn Demo.loss_fn false Demo.accum0 1 Demo.s0))
     = [kwargs] /\
     Dict.get "logit_scale" kwargs = Some (tag true [100]) /\
     Dict.get "logit_bias" kwargs = None) /\
  (exists kwargs,
     loss_calls (snd (recompute Demo.biased_model_fn Demo.loss_fn false Demo.accum0 1
                        Demo.s0))
     = [kwargs] /\
     Dict.get "logit_scale" kwargs = Some (tag true [100]) /\
     Dict.get "logit_bias" kwargs = Some (tag true [-10])).
Proof.
  split; [reflexivity|]. split; [reflexivity|]. split; [|split].
  - apply (logit_scale_required Demo.bare_model_fn Demo.loss_fn false Demo.accum0 1
             Demo.s0 [3; 4] [13; 14] eq_refl eq_refl).
  - destruct (logit_scale_required Demo.model_fn Demo.loss_fn false Demo.accum0 1
                Demo.s0 [3; 4] [13; 14] eq_refl eq_refl) as (Hrun & Hls & Hlb).
    eexists. split; [rewrite Hrun; reflexivity|]. split.
    + apply Hls. simpl. intuition discriminate.
    + apply Hlb. simpl. intuition discriminate.
  - destruct (logit_scale_required Demo.biased_model_fn Demo.loss_fn false Demo.accum0 1
                Demo.s0 [3; 4] [13; 14] eq_refl eq_refl) as (Hrun & Hls & Hlb).
    eexists. split; [rewrite Hrun; reflexivity|]. split.
    + apply Hls. simpl. intuition discriminate.
    + apply Hlb. simpl. intuition discriminate.
Defined.



Lemma feature_substitution_witness :
  exists r s' evs kwargs,
    step_accum Demo.model_fn Demo.loss_fn (Demo.args false 2 "ViT-B-32" false false)
      false 1 [3; 4] [13; 14] Demo.s1 = (inr (Some r), s', evs) /\
    nth_error (loss_calls evs) 1 = Some kwargs /\
    Dict.get "image_features" kwargs
    = Some (torch_cat [tag false [1; 2]; tag true [3; 4]]).
Proof.
  assert (Hnd : Forall (fun b : list Z * list Z * Dict.t (list Z) =>
                          List.NoDup (Dict.keys (strip (snd b))))
                  (Demo.window1 ++ [([3; 4], [13; 14], Demo.model_fn 1 [3; 4] [13; 14])])).
  { repeat constructor; simpl; intros H;
      repeat (destruct H as [H|H]; try discriminate H); exact H. }
  assert (Hkey : Forall (fun b : list Z * list Z * Dict.t (list Z) =>
                           Dict.get "image_features" (strip (snd b)) <> None)
                   (Demo.window1 ++ [([3; 4], [13; 14], Demo.model_fn 1 [3; 4] [13; 14])])).
  { repeat (constructor; try discriminate). }
  destruct (feature_substitution Demo.model_fn Demo.loss_fn
              (Demo.args false 2 "ViT-B-32" false false) false 1 [3; 4] [13; 14]
              Demo.s1 _ Demo.accum1 Demo.window1 _ _ 1%nat "image_features"
              eq_refl (conj eq_refl (conj eq_refl eq_refl)) eq_refl Hnd Hkey
              (le_n 2) eq_refl)
    as (kwargs & imj & txj & Hi & Ht & Hloss & Hget & _).
  injection Hi as <-. injection Ht as <-.
  eexists _, _, _, kwargs. split; [reflexivity|]. split; [exact Hloss | exact Hget].
Defined.

(** C3 as stated fails with accumulation: in an epoch of two micro-batches
    with [accum_freq = 2] the scheduler is called twice, both times with
    step 0, for the single optimizer step. *)
Lemma scheduler_once_per_step_counterexample :
  let run := Demo.epoch (Demo.args false 2 "ViT-B-32" false false) 2 in
  fst (fst run) = inr tt /\
  scheduler_calls (snd run) = [0; 0] /\
  count_events is_optimizer_step (snd run) = 1%nat /\
  ~ (length (scheduler_calls (snd run)) = count_events is_optimizer_step (snd run)).
Proof.
  intros run.
  assert (H1 : fst (fst run) = inr tt) by (vm_compute; reflexivity).
  assert (H2 : scheduler_calls (snd run) = [0; 0]) by (vm_compute; reflexivity).
  assert (H3 : count_events is_optimizer_step (snd run) = 1%nat)
    by (vm_compute; reflexivity).
  split; [exact H1|]. split; [exact H2|]. split; [exact H3|].
  rewrite H2, H3. discriminate.
Qed.

Lemma step_counter_witness :
  let run := Demo.epoch (Demo.args false 2 "ViT-B-32" false false) 4 in
  fst (fst run) = inr tt /\
  count_events is_optimizer_step (snd run) = 2%nat /\
  scheduler_calls (snd run) = [0; 0; 1; 1] /\
  steps_taken (snd run) = [Some 0; Some 1] /\
  exists segs,
    snd run = ModelTrain :: SetEpoch 0 :: concat segs /\
    length segs = 4%nat /\
    forall k, 0 <= k < 2 ->
      exists seg,
        nth_error segs (Z.to_nat (k * 2 + 2 - 1)) = Some seg /\
        count_events is_optimizer_step seg = 1%nat /\
        Forall (uses_step (Demo.args false 2 "ViT-B-32" false false) (2 * 0 + k)) seg.
Proof.
  cbv zeta.
  split; [vm_compute; reflexivity|].
  assert (E : train_one_epoch (fun x : Z => x) (fun l : list Z => l) (fun x : Z => x)
                Demo.model_fn Demo.dist_model_fn Demo.loss_fn Demo.optimizer_fn
                Demo.time_fn (Demo.args false 2 "ViT-B-32" false false)
                false false false (Demo.dataloader 4) 0 Demo.s0
              = (inr tt,
                 snd (fst (Demo.epoch (Demo.args false 2 "ViT-B-32" false false) 4)),
                 snd (Demo.epoch (Demo.args false 2 "ViT-B-32" false false) 4)))
    by (vm_compute; reflexivity).
  assert (H1 : 1 <= accum_freq (Demo.args false 2 "ViT-B-32" false false))
    by discriminate.
  assert (H2 : Z.of_nat (length (batches (Demo.dataloader 4)))
               = num_batches (Demo.dataloader 4)) by reflexivity.
  destruct (step_counter _ _ _ _ _ _ _ _ _ _ _ _ _ _ _ _ _ H1 H2 E)
    as (Hn & Hs & Ht & segs & He & Hl & _ & Hk).
  split; [exact Hn|]. split; [exact Hs|]. split; [exact (Ht eq_refl)|].
  exists segs. split; [exact He|]. split; [exact Hl|]. exact Hk.
Defined.

Lemma teacher_unused_witness :
  accum_freq (Demo.args true 2 "ViT-B-32" false false) > 1 /\
  List.filter is_teacher
    (snd (epoch_with (fun x : Z => x) (fun l : list Z => l) (fun x : Z => x)
            Demo.model_fn Demo.loss_fn Demo.optimizer_fn Demo.time_fn
            false false false (Demo.dataloader 4) Demo.dist_model_fn
            (Demo.args true 2 "ViT-B-32" false false) 0 Demo.s0)) = [].
Proof.
  assert (H : accum_freq (Demo.args true 2 "ViT-B-32" false false) > 1) by reflexivity.
  split; [exact H|].
  exact (proj1 (teacher_unused_when_accumulating (fun x : Z => x) (fun l : list Z => l)
           (fun x : Z => x) Demo.model_fn Demo.loss_fn Demo.optimizer_fn Demo.time_fn
           (Demo.args true 2 "ViT-B-32" false false) false false false
           (Demo.dataloader 4) Demo.dist_model_fn Demo.dist_model_fn 0 Demo.s0 H)).
Defined.

(** * Concrete runs for the further properties *)

Module Demo2.
(** The result of a run that returned, [d] otherwise. *)
Definition value_of {A} (d : A) (r : exn + A) : A :=
  match r with
  | inr a => a
  | inl _ => d
  end.


(** The master with a logging interval of zero. *)
Definition no_interval_args : Args :=
  {| distill := false; accum_freq := 1; skip_scheduler := false;
     text_embed_dim := Some 4; model := "ViT-B-32"; horovod := false;
     grad_clip_norm := Some 5%R; log_every_n_steps := 0; world_size := 1;
     wandb := false; save_logs := true; save_every_n_steps := 1;
     name := "run"; checkpoint_path := "logs/checkpoints";
     delete_prev_step_ckpt := true; is_master := true |}.

(** A data source that reports a negative number of samples. *)
Definition negative_loader : @DataLoader Z Z :=
  {| num_batches := 1; num_samples := -1; batches := [([1; 2], [11; 12])] |}.

(** A data source whose second batch has no image. *)
Definition empty_batch_loader : @DataLoader Z Z :=
  {| num_batches := 2; num_samples := 2;
     batches := [([1; 2], [11; 12]); ([], [13])] |}.

(** An epoch from [s] with the collaborators of [Demo]. *)
Definition epoch_from (a : Args) (d : @DataLoader Z Z) (s : @state Z) :=
  train_one_epoch (fun x : Z => x) (fun l : list Z => l) (fun x : Z => x)
    Demo.model_fn Demo.dist_model_fn Demo.loss_fn Demo.optimizer_fn Demo.time_fn
    a false false false d 0 s.

Definition losses0 : Dict.t R := [("contrastive_loss"%string, 3%R); ("loss"%string, 3%R)].

(** [Demo.s0] with the accumulation buffers created. *)
Definition s_ready : @state Z := set_accum (Some accum_empty) Demo.s0.
End Demo2.

Lemma average_meter_weighted_mean_witness :
  [(2%R, 1); (4%R, 3)] <> [] /\
  Forall (fun vn : R * Z => 0 < snd vn) [(2%R, 1); (4%R, 3)] /\
  exists m,
    update_all AverageMeter.reset [(2%R, 1); (4%R, 3)] = inr m /\
    AverageMeter.val m = 4%R /\
    AverageMeter.count m = 4.
Proof.
  assert (Hne : [(2%R, 1); (4%R, 3)] <> []) by discriminate.
  assert (Hpos : Forall (fun vn : R * Z => 0 < snd vn) [(2%R, 1); (4%R, 3)])
    by (repeat constructor).
  split; [exact Hne|]. split; [exact Hpos|].
  destruct (average_meter_weighted_mean _ Hne Hpos) as (m & Hrun & Hv & _ & Hc & _).
  exists m. split; [exact Hrun|]. split; [exact Hv | exact Hc].
Defined.

Lemma accum_freq_zero_raises_witness :
  accum_freq (Demo.args false 0 "ViT-B-32" false false) = 0 /\
  Demo2.epoch_from (Demo.args false 0 "ViT-B-32" false false) (Demo.dataloader 2) Demo.s0
  = (inl ZeroDivisionError, Demo.s0, [ModelTrain; SetEpoch 0]).
Proof.
  split; [reflexivity|].
  unfold Demo2.epoch_from.
  exact (accum_freq_zero_raises (fun x : Z => x) (fun l : list Z => l) (fun x : Z => x)
           Demo.model_fn Demo.dist_model_fn Demo.loss_fn Demo.optimizer_fn Demo.time_fn
           (Demo.args false 0 "ViT-B-32" false false) false false false
           (Demo.dataloader 2) 0 Demo.s0 eq_refl).
Defined.

Lemma sample_count_domain_error_witness :
  accum_freq (Demo.args false 1 "ViT-B-32" false false) <> 0 /\
  num_samples Demo2.negative_loader < 0 /\
  exists msg,
    Demo2.epoch_from (Demo.args false 1 "ViT-B-32" false false)
      Demo2.negative_loader Demo.s0
    = (inl (ValueError msg), Demo.s0, [ModelTrain; SetEpoch 0]).
Proof.
  assert (H1 : accum_freq (Demo.args false 1 "ViT-B-32" false false) <> 0)
    by discriminate.
  assert (H2 : num_samples Demo2.negative_loader < 0) by reflexivity.
  split; [exact H1|]. split; [exact H2|].
  unfold Demo2.epoch_from.
  exact (sample_count_domain_error (fun x : Z => x) (fun l : list Z => l)
           (fun x : Z => x) Demo.model_fn Demo.dist_model_fn Demo.loss_fn
           Demo.optimizer_fn Demo.time_fn
           (Demo.args false 1 "ViT-B-32" false false) false false false
           Demo2.negative_loader 0 Demo.s0 H1 H2).
Defined.

Lemma empty_batch_aborts_epoch_witness :
  In ([], [13]) (batches Demo2.empty_batch_loader) /\
  exists e,
    fst (fst (Demo2.epoch_from (Demo.args false 1 "ViT-B-32" false false)
                Demo2.empty_batch_loader Demo.s0)) = inl e.
Proof.
  assert (Hin : In ([], [13]) (batches Demo2.empty_batch_loader))
    by (right; left; reflexivity).
  split; [exact Hin|].
  unfold Demo2.epoch_from.
  exact (empty_batch_aborts_epoch (fun x : Z => x) (fun l : list Z => l)
           (fun x : Z => x) Demo.model_fn Demo.dist_model_fn Demo.loss_fn
           Demo.optimizer_fn Demo.time_fn
           (Demo.args false 1 "ViT-B-32" false false) false false false
           Demo2.empty_batch_loader 0 [13] Demo.s0 _ _ _ Hin (run_eta _)).
Defined.

Lemma loss_meters_never_divide_by_zero_witness :
  0 < 2 /\
  counts_nonneg (losses_m Demo.s0) /\
  exists d,
    update_losses_m Demo2.losses0 2 Demo.s0 = (inr tt, set_losses_m d Demo.s0, []) /\
    counts_nonneg d.
Proof.
  assert (H1 : 0 < 2) by reflexivity.
  assert (H2 : counts_nonneg (losses_m Demo.s0)) by constructor.
  split; [exact H1|]. split; [exact H2|].
  destruct (loss_meters_never_divide_by_zero Demo2.losses0 2 Demo.s0 H1 H2)
    as (d & Hrun & Hd & _).
  exists d. split; [exact Hrun | exact Hd].
Defined.

Lemma negative_accum_freq_never_steps_witness :
  let run := Demo2.epoch_from (Demo.args false (-1) "ViT-B-32" false false)
               (Demo.dataloader 2) Demo.s0 in
  accum_freq (Demo.args false (-1) "ViT-B-32" false false) < 0 /\
  batches (Demo.dataloader 2) <> [] /\
  count_events is_optimizer_step (snd run) = 0%nat /\
  count_events is_backward (snd run) = 0%nat /\
  exists e, fst (fst run) = inl e.
Proof.
  cbv zeta.
  assert (H1 : accum_freq (Demo.args false (-1) "ViT-B-32" false false) < 0)
    by reflexivity.
  assert (H2 : batches (Demo.dataloader 2) <> []) by discriminate.
  split; [exact H1|]. split; [exact H2|].
  unfold Demo2.epoch_from.
  destruct (negative_accum_freq_never_steps (fun x : Z => x) (fun l : list Z => l)
              (fun x : Z => x) Demo.model_fn Demo.dist_model_fn Demo.loss_fn
              Demo.optimizer_fn Demo.time_fn
              (Demo.args false (-1) "ViT-B-32" false false) false false false
              (Demo.dataloader 2) 0 Demo.s0 _ _ _ H1 (run_eta _)) as (Hs & Hb & He).
  split; [exact Hs|]. split; [exact Hb | exact (He H2)].
Defined.

Lemma non_master_never_logs_witness :
  let run := Demo2.epoch_from (Demo.args false 1 "ViT-B-32" false false)
               (Demo.dataloader 2) Demo.s0 in
  is_master (Demo.args false 1 "ViT-B-32" false false) = false /\
  List.filter is_log (snd run) = [] /\
  (fst (fst run) = inr tt -> losses_m (snd (fst run)) = []).
Proof.
  cbv zeta. split; [reflexivity|].
  unfold Demo2.epoch_from.
  exact (non_master_never_logs (fun x : Z => x) (fun l : list Z => l)
           (fun x : Z => x) Demo.model_fn Demo.dist_model_fn Demo.loss_fn
           Demo.optimizer_fn Demo.time_fn
           (Demo.args false 1 "ViT-B-32" false false) false false false
           (Demo.dataloader 2) 0 Demo.s0 _ _ _ eq_refl (run_eta _)).
Defined.


Lemma distill_merges_teacher_outputs_witness :
  let run := step_no_accum Demo.model_fn Demo.dist_model_fn Demo.loss_fn
               (Demo.args true 1 "ViT-B-32" false false) false [1; 2] [11; 12]
               Demo.s0 in
  distill (Demo.args true 1 "ViT-B-32" false false) = true /\
  List.NoDup (Dict.keys (Demo.dist_model_fn 1 [1; 2] [11; 12])) /\
  exists kwargs rest,
    snd run = Forward true [1; 2] [11; 12] :: TeacherForward [1; 2] [11; 12]
              :: Loss kwargs :: rest /\
    Dict.get "dist_image_features" kwargs = Some (tag false [1; 2]).
Proof.
  cbv zeta.
  assert (Hnd : List.NoDup (Dict.keys (Demo.dist_model_fn 1 [1; 2] [11; 12]))).
  { repeat constructor; simpl; intros H;
      repeat (destruct H as [H|H]; try discriminate H); exact H. }
  split; [reflexivity|]. split; [exact Hnd|].
  assert (E : step_no_accum Demo.model_fn Demo.dist_model_fn Demo.loss_fn
                (Demo.args true 1 "ViT-B-32" false false) false [1; 2] [11; 12]
                Demo.s0
              = (inr (Demo2.value_of []
                        (fst (fst (step_no_accum Demo.model_fn Demo.dist_model_fn
                                     Demo.loss_fn
                                     (Demo.args true 1 "ViT-B-32" false false) false
                                     [1; 2] [11; 12] Demo.s0)))),
                 snd (fst (step_no_accum Demo.model_fn Demo.dist_model_fn Demo.loss_fn
                             (Demo.args true 1 "ViT-B-32" false false) false
                             [1; 2] [11; 12] Demo.s0)),
                 snd (step_no_accum Demo.model_fn Demo.dist_model_fn Demo.loss_fn
                        (Demo.args true 1 "ViT-B-32" false false) false
                        [1; 2] [11; 12] Demo.s0)))
    by (vm_compute; reflexivity).
  destruct (distill_merges_teacher_outputs Demo.model_fn Demo.dist_model_fn
              Demo.loss_fn (Demo.args true 1 "ViT-B-32" false false) false
              [1; 2] [11; 12] Demo.s0 _ _ _ eq_refl Hnd E)
    as (kwargs & rest & Hevs & _ & Hteacher & _).
  exists kwargs, rest. split; [exact Hevs|].
  exact (proj1 (Hteacher "image_features"%string [1; 2] (or_introl eq_refl))).
Defined.

Lemma lift_clip_iff_substring_witness :
  let run := step_no_accum Demo.model_fn Demo.dist_model_fn Demo.loss_fn
               (Demo.args false 1 "LIFT-ViT-B-16" false false) false [1; 2] [11; 12]
               Demo.s0 in
  (exists pre post,
     model (Demo.args false 1 "LIFT-ViT-B-16" false false) = pre +:+ "LIFT" +:+ post) /\
  List.filter is_clip (snd run) = [ClipGradNorm 1].
Proof.
  cbv zeta.
  assert (Hsub : exists pre post,
            model (Demo.args false 1 "LIFT-ViT-B-16" false false)
            = pre +:+ "LIFT" +:+ post)
    by (exists ""%string, "-ViT-B-16"%string; reflexivity).
  split; [exact Hsub|].
  assert (E : step_no_accum Demo.model_fn Demo.dist_model_fn Demo.loss_fn
                (Demo.args false 1 "LIFT-ViT-B-16" false false) false [1; 2] [11; 12]
                Demo.s0
              = (inr (Demo2.value_of []
                        (fst (fst (step_no_accum Demo.model_fn Demo.dist_model_fn
                                     Demo.loss_fn
                                     (Demo.args false 1 "LIFT-ViT-B-16" false false)
                                     false [1; 2] [11; 12] Demo.s0)))),
                 snd (fst (step_no_accum Demo.model_fn Demo.dist_model_fn Demo.loss_fn
                             (Demo.args false 1 "LIFT-ViT-B-16" false false) false
                             [1; 2] [11; 12] Demo.s0)),
                 snd (step_no_accum Demo.model_fn Demo.dist_model_fn Demo.loss_fn
                        (Demo.args false 1 "LIFT-ViT-B-16" false false) false
                        [1; 2] [11; 12] Demo.s0)))
    by (vm_compute; reflexivity).
  exact (proj1 (lift_clip_iff_substring Demo.model_fn Demo.dist_model_fn Demo.loss_fn
                  (Demo.args false 1 "LIFT-ViT-B-16" false false) false
                  [1; 2] [11; 12] Demo.s0 _ _ _ E) Hsub).
Defined.

Lemma continue_iteration_witness :
  let run := loop_body (fun x : Z => x) (fun l : list Z => l) (fun x : Z => x)
               Demo.model_fn Demo.dist_model_fn Demo.loss_fn Demo.optimizer_fn
               Demo.time_fn (Demo.args false 2 "ViT-B-32" false false)
               false false false (Demo.dataloader 2) 0 1 0 ([1; 2], [11; 12])
               Demo2.s_ready in
  accum_freq (Demo.args false 2 "ViT-B-32" false false) > 1 /\
  (0 + 1) mod accum_freq (Demo.args false 2 "ViT-B-32" false false) <> 0 /\
  fst (fst run) = inr tt /\
  net (snd (fst run)) = net Demo2.s_ready /\
  end_ (snd (fst run)) = end_ Demo2.s_ready /\
  snd run = [Scheduler 0; ZeroGrad; Forward false [1; 2] [11; 12]].
Proof.
  cbv zeta.
  assert (H1 : accum_freq (Demo.args false 2 "ViT-B-32" false false) > 1)
    by reflexivity.
  assert (H2 : (0 + 1) mod accum_freq (Demo.args false 2 "ViT-B-32" false false) <> 0)
    by discriminate.
  assert (E : loop_body (fun x : Z => x) (fun l : list Z => l) (fun x : Z => x)
                Demo.model_fn Demo.dist_model_fn Demo.loss_fn Demo.optimizer_fn
                Demo.time_fn (Demo.args false 2 "ViT-B-32" false false)
                false false false (Demo.dataloader 2) 0 1 0 ([1; 2], [11; 12])
                Demo2.s_ready
              = (inr tt,
                 snd (fst (loop_body (fun x : Z => x) (fun l : list Z => l)
                             (fun x : Z => x) Demo.model_fn Demo.dist_model_fn
                             Demo.loss_fn Demo.optimizer_fn Demo.time_fn
                             (Demo.args false 2 "ViT-B-32" false false)
                             false false false (Demo.dataloader 2) 0 1 0
                             ([1; 2], [11; 12]) Demo2.s_ready)),
                 [Scheduler 0; ZeroGrad; Forward false [1; 2] [11; 12]]))
    by (vm_compute; reflexivity).
  split; [exact H1|]. split; [exact H2|].
  split; [rewrite E; reflexivity|].
  destruct (continue_iteration (fun x : Z => x) (fun l : list Z => l) (fun x : Z => x)
              Demo.model_fn Demo.dist_model_fn Demo.loss_fn Demo.optimizer_fn
              Demo.time_fn (Demo.args false 2 "ViT-B-32" false false)
              false false false (Demo.dataloader 2) 0 1 0 ([1; 2], [11; 12])
              Demo2.s_ready _ _ H1 H2 E) as (Hnet & _ & Hend & _).
  split; [exact Hnet|]. split; [exact Hend|]. rewrite E. reflexivity.
Defined.

Lemma checkpoint_holds_updated_net_witness :
  let run := finish_step (RawImage:=Z) (RawText:=Z) Demo.optimizer_fn Demo.time_fn
               (Demo.args false 1 "ViT-B-32" false false) false false false
               (Demo.dataloader 2) 0 0 0 2 [1; 2] (Some Demo2.losses0) Demo.s0 in
  let ckpt := {| ck_step := 1; ck_epoch := 0; ck_name := "run";
                 ck_state_dict := net (snd (fst run)); ck_scaler := false |} in
  In (TorchSave ckpt "logs/checkpoints/step_1.pt") (snd run) /\
  forall v,
    getattr_logit_scale (unwrap_model (ck_state_dict ckpt)) = Some v ->
    (0 <= v <= math_log 100)%R.
Proof.
  cbv zeta.
  match goal with
  | |- ?A /\ _ => assert (Hin : A)
  end.
  { vm_compute. right. right. right. left. reflexivity. }
  split; [exact Hin|].
  exact (proj2 (proj2 (proj2 (proj2
           (checkpoint_holds_updated_net (RawImage:=Z) (RawText:=Z)
              Demo.optimizer_fn Demo.time_fn
              (Demo.args false 1 "ViT-B-32" false false) false false false
              (Demo.dataloader 2) 0 0 0 2 [1; 2] (Some Demo2.losses0) Demo.s0
              _ _ _ _ _ (run_eta _) Hin))))).
Defined.

Lemma passes_per_optimizer_step_witness :
  let run := Demo2.epoch_from (Demo.args false 2 "ViT-B-32" false false)
               (Demo.dataloader 4) Demo.s0 in
  1 <= accum_freq (Demo.args false 2 "ViT-B-32" false false) /\
  fst (fst run) = inr tt /\
  count_events is_backward (snd run)
  = Nat.mul 2 (count_events is_optimizer_step (snd run)) /\
  count_events (is_forward false) (snd run) = 4%nat /\
  count_events is_optimizer_step (snd run) = 2%nat.
Proof.
  cbv zeta.
  assert (H1 : 1 <= accum_freq (Demo.args false 2 "ViT-B-32" false false))
    by discriminate.
  assert (E : train_one_epoch (fun x : Z => x) (fun l : list Z => l) (fun x : Z => x)
                Demo.model_fn Demo.dist_model_fn Demo.loss_fn Demo.optimizer_fn
                Demo.time_fn (Demo.args false 2 "ViT-B-32" false false)
                false false false (Demo.dataloader 4) 0 Demo.s0
              = (inr tt,
                 snd (fst (Demo2.epoch_from (Demo.args false 2 "ViT-B-32" false false)
                             (Demo.dataloader 4) Demo.s0)),
                 snd (Demo2.epoch_from (Demo.args false 2 "ViT-B-32" false false)
                        (Demo.dataloader 4) Demo.s0)))
    by (vm_compute; reflexivity).
  split; [exact H1|].
  split; [vm_compute; reflexivity|].
  destruct (passes_per_optimizer_step _ _ _ _ _ _ _ _ _ _ _ _ _ _ _ _ _ H1 E)
    as (Hb & _ & Hn & Hs).
  split; [exact Hb|]. split; [exact Hn | exact Hs].
Defined.

Lemma trailing_batches_stay_cached_witness :
  let run := Demo2.epoch_from (Demo.args false 2 "ViT-B-32" false false)
               (Demo.dataloader 3) Demo.s0 in
  accum_freq (Demo.args false 2 "ViT-B-32" false false) > 1 /\
  fst (fst run) = inr tt /\
  exists a segs,
    accum (snd (fst run)) = Some a /\
    accum_images a = [[2; 3]] /\ accum_texts a = [[12; 13]] /\
    snd run = ModelTrain :: SetEpoch 0 :: concat segs /\
    length segs = 3%nat /\
    count_events is_optimizer_step (concat (firstn 2 segs)) = 1%nat /\
    count_events is_optimizer_step (concat (skipn 2 segs)) = 0%nat.
Proof.
  cbv zeta.
  assert (H1 : accum_freq (Demo.args false 2 "ViT-B-32" false false) > 1)
    by reflexivity.
  assert (E : train_one_epoch (fun x : Z => x) (fun l : list Z => l) (fun x : Z => x)
                Demo.model_fn Demo.dist_model_fn Demo.loss_fn Demo.optimizer_fn
                Demo.time_fn (Demo.args false 2 "ViT-B-32" false false)
                false false false (Demo.dataloader 3) 0 Demo.s0
              = (inr tt,
                 snd (fst (Demo2.epoch_from (Demo.args false 2 "ViT-B-32" false false)
                             (Demo.dataloader 3) Demo.s0)),
                 snd (Demo2.epoch_from (Demo.args false 2 "ViT-B-32" false false)
                        (Demo.dataloader 3) Demo.s0)))
    by (vm_compute; reflexivity).
  split; [exact H1|].
  split; [vm_compute; reflexivity|].
  destruct (trailing_batches_stay_cached _ _ _ _ _ _ _ _ _ _ _ _ _ _ _ _ _ H1 E)
    as (a & w & segs & Ha & _ & _ & _ & Hi & Hx & _ & Hevs & Hsl & _ & Hc & Hz).
  exists a, segs. split; [exact Ha|]. split; [exact Hi|]. split; [exact Hx|].
  split; [exact Hevs|]. split; [exact Hsl|]. split; [exact Hc | exact Hz].
Defined.



Lemma call_discipline_witness :
  Forall (discipline (Demo.args true 1 "LIFT-ViT-B-16" true false) false)
    (snd (Demo2.epoch_from (Demo.args true 1 "LIFT-ViT-B-16" true false)
            (Demo.dataloader 2) Demo.s0)).
Proof.
  unfold Demo2.epoch_from.
  exact (call_discipline (fun x : Z => x) (fun l : list Z => l) (fun x : Z => x)
           Demo.model_fn Demo.dist_model_fn Demo.loss_fn Demo.optimizer_fn
           Demo.time_fn (Demo.args true 1 "LIFT-ViT-B-16" true false)
           false false false (Demo.dataloader 2) 0 Demo.s0 _ _ _ (run_eta _)).
Defined.

Lemma no_unbound_local_witness :
  1 <= accum_freq (Demo.args false 2 "ViT-B-32" false false) /\
  forall name,
    fst (fst (Demo2.epoch_from (Demo.args false 2 "ViT-B-32" false false)
                (Demo.dataloader 3) Demo.s0))
    <> inl (UnboundLocalError name).
Proof.
  assert (H1 : 1 <= accum_freq (Demo.args false 2 "ViT-B-32" false false))
    by discriminate.
  split; [exact H1|].
  unfold Demo2.epoch_from.
  exact (no_unbound_local (fun x : Z => x) (fun l : list Z => l) (fun x : Z => x)
           Demo.model_fn Demo.dist_model_fn Demo.loss_fn Demo.optimizer_fn
           Demo.time_fn (Demo.args false 2 "ViT-B-32" false false)
           false false false (Demo.dataloader 3) 0 Demo.s0 _ _ _ H1 (run_eta _)).
Defined.

Lemma one_step_checkpoint_kept_witness :
  let a := Demo.args false 2 "ViT-B-32" false false in
  let run := Demo2.epoch_from a (Demo.dataloader 4) Demo.s0 in
  latest_only a (num_batches (Demo.dataloader 4) / accum_freq a * 0) (files Demo.s0) /\
  fst (fst run) = inr tt /\
  forall c, checkpoint_file a c ∈ files (snd (fst run)) -> c = 2.
Proof.
  cbv zeta.
  assert (Hinv : latest_only (Demo.args false 2 "ViT-B-32" false false)
                   (num_batches (Demo.dataloader 4)
                    / accum_freq (Demo.args false 2 "ViT-B-32" false false) * 0)
                   (files Demo.s0)).
  { intros c Hc. exfalso. exact (not_elem_of_empty (C:=gset string) _ Hc). }
  assert (E : train_one_epoch (fun x : Z => x) (fun l : list Z => l) (fun x : Z => x)
                Demo.model_fn Demo.dist_model_fn Demo.loss_fn Demo.optimizer_fn
                Demo.time_fn (Demo.args false 2 "ViT-B-32" false false)
                false false false (Demo.dataloader 4) 0 Demo.s0
              = (inr tt,
                 snd (fst (Demo2.epoch_from (Demo.args false 2 "ViT-B-32" false false)
                             (Demo.dataloader 4) Demo.s0)),
                 snd (Demo2.epoch_from (Demo.args false 2 "ViT-B-32" false false)
                        (Demo.dataloader 4) Demo.s0)))
    by (vm_compute; reflexivity).
  split; [exact Hinv|].
  split; [vm_compute; reflexivity|].
  exact (one_step_checkpoint_kept _ _ _ _ _ _ _ _ _ _ _ _ _ _ _ _ _
           (ltac:(discriminate)
             : 1 <= accum_freq (Demo.args false 2 "ViT-B-32" false false))
           eq_refl eq_refl eq_refl Hinv E).
Defined.

Lemma zero_log_interval_raises_witness :
  let run := finish_step (RawImage:=Z) (RawText:=Z) Demo.optimizer_fn Demo.time_fn
               Demo2.no_interval_args false false false
               (Demo.dataloader 2) 0 0 0 2 [1; 2] (Some Demo2.losses0) Demo.s0 in
  is_master Demo2.no_interval_args = true /\
  log_every_n_steps Demo2.no_interval_args = 0 /\
  fst (fst run) = inl ZeroDivisionError /\
  count_events is_optimizer_step (snd run) = 1%nat /\
  List.filter is_save (snd run) = [].
Proof.
  cbv zeta. split; [reflexivity|]. split; [reflexivity|].
  destruct (zero_log_interval_raises (RawImage:=Z) (RawText:=Z)
              Demo.optimizer_fn Demo.time_fn Demo2.no_interval_args false false false
              (Demo.dataloader 2) 0 0 0 2 [1; 2] (Some Demo2.losses0) Demo.s0
              _ _ _ eq_refl eq_refl (run_eta _)) as (Hr & Hone & _ & Hsave).
  split; [exact Hr|]. split; [exact Hone | exact Hsave].
Defined.
